(** * semi-vo-maker: the HTTP backend of [server.js]

    A shallow embedding of the Express application in [server.js]: the
    health route, the optional app-key middleware, [POST /generate] and
    [POST /zip], together with the parts of the JavaScript runtime and of
    Node's [path] and [fs] modules that these handlers rely on.

    - JavaScript strings are sequences of UTF-16 code units ([list N]).
    - JSON-derived runtime values are the inductive type [value].
    - Handlers are state-passing functions over a [world] (file system,
      log of upstream calls, number of identifiers drawn) that either
      return or throw.
    - A request goes through [express.json] before the routes; [cors]
      and [express.static] pass the requests modelled here unchanged. *)

From Stdlib Require Import String Ascii NArith ZArith List Lia.
From Stdlib Require Import Decimal DecimalNat SpecFloat.
From Stdlib Require Import Permutation.
From stdpp Require Import base gmap sets list.

Set Warnings "-register-all,-clear-no-such-hyp".

Local Open Scope N_scope.
Local Open Scope nat_scope.
Local Open Scope list_scope.

(** ** JavaScript strings *)

Abbreviation jsstring := (list N).

(** ASCII literal as code units. *)
Definition str (s : string) : jsstring :=
  List.map N_of_ascii (list_ascii_of_string s).

Arguments str : simpl never.

Definition SLASH : N := 47%N.
Definition DOT : N := 46%N.

(** Code units removed by [String.prototype.trim]: ECMAScript WhiteSpace
    and LineTerminator (all of them lie in the basic plane). *)
Definition is_ws (c : N) : bool :=
  ((9 <=? c) && (c <=? 13))%N
  || (c =? 32)%N || (c =? 160)%N || (c =? 5760)%N
  || ((8192 <=? c) && (c <=? 8202))%N
  || (c =? 8232)%N || (c =? 8233)%N || (c =? 8239)%N
  || (c =? 8287)%N || (c =? 12288)%N || (c =? 65279)%N.

Fixpoint trim_start (s : jsstring) : jsstring :=
  match s with
  | c :: s' => if is_ws c then trim_start s' else s
  | [] => []
  end.

Definition trim_end (s : jsstring) : jsstring := rev (trim_start (rev s)).

(** [s.trim()] *)
Definition trim (s : jsstring) : jsstring := trim_end (trim_start s).

(** Decimal digits of a loop index, as in the template literal
    [`${i + 1}`] on a small non-negative integer. *)
Fixpoint uint_codes (d : Decimal.uint) : jsstring :=
  match d with
  | Decimal.Nil => []
  | Decimal.D0 d => 48%N :: uint_codes d
  | Decimal.D1 d => 49%N :: uint_codes d
  | Decimal.D2 d => 50%N :: uint_codes d
  | Decimal.D3 d => 51%N :: uint_codes d
  | Decimal.D4 d => 52%N :: uint_codes d
  | Decimal.D5 d => 53%N :: uint_codes d
  | Decimal.D6 d => 54%N :: uint_codes d
  | Decimal.D7 d => 55%N :: uint_codes d
  | Decimal.D8 d => 56%N :: uint_codes d
  | Decimal.D9 d => 57%N :: uint_codes d
  end.

Definition dec (n : nat) : jsstring := uint_codes (Nat.to_uint n).

(** ** Runtime values obtained from JSON *)

Inductive value : Type :=
| VUndef
| VNull
| VBool (b : bool)
| VNum (x : spec_float)
| VStr (s : jsstring)
| VArr (l : list value)
| VObj (o : list (jsstring * value)).

(** Own property of a parsed object (first binding wins; a parsed object
    has each key once). *)
Fixpoint own (o : list (jsstring * value)) (k : jsstring) : value :=
  match o with
  | [] => VUndef
  | (k', v) :: o' => if bool_decide (k' = k) then v else own o' k
  end.

(** The object has an own property of that name. *)
Definition has_own (o : list (jsstring * value)) (k : jsstring) : bool :=
  existsb (fun kv => bool_decide (kv.1 = k)) o.

(** ToBoolean *)
Definition truthy (v : value) : bool :=
  match v with
  | VUndef | VNull => false
  | VBool b => b
  | VNum (S754_zero _) | VNum S754_nan => false
  | VNum _ => true
  | VStr s => negb (bool_decide (s = []))
  | VArr _ | VObj _ => true
  end.

(** Thrown values. Messages of errors raised by the engine itself are
    engine-specific and left abstract. *)
Inductive exn : Type :=
| Thrown (msg : jsstring)      (* [throw new Error(msg)] in the source *)
| TypeErr                      (* property of null/undefined, not callable, not iterable, invalid URL *)
| SyntaxErr                    (* JSON text that does not parse *)
| NetErr                       (* [fetch] rejected *)
| FsErr.                       (* [fs] call failed *)

Inductive outcome (A : Type) : Type :=
| Ret (a : A)
| Throw (e : exn).
Arguments Ret {A} a.
Arguments Throw {A} e.

(** The property names the source reads.  None of them is defined on
    [Object.prototype], [Array.prototype], [String.prototype],
    [Number.prototype] or [Boolean.prototype], so on anything but an
    object with that own key the lookup yields [undefined]. *)
Inductive key : Type :=
| Kspecs | Kmake | Kmodel | Kfiles
| Kchoices | Kmessage | Kcontent | Kvariants
| Kvoiceover | Kstyle | Kbeats | Khashtags.

Definition key_name (k : key) : jsstring :=
  match k with
  | Kspecs => str "specs" | Kmake => str "make" | Kmodel => str "model"
  | Kfiles => str "files"
  | Kchoices => str "choices" | Kmessage => str "message"
  | Kcontent => str "content" | Kvariants => str "variants"
  | Kvoiceover => str "voiceover" | Kstyle => str "style"
  | Kbeats => str "beats" | Khashtags => str "hashtags"
  end.

(** [v.k] *)
Definition get (v : value) (k : key) : outcome value :=
  match v with
  | VUndef | VNull => Throw TypeErr
  | VObj o => Ret (own o (key_name k))
  | _ => Ret VUndef
  end.

(** [v?.k] *)
Definition get_opt (v : value) (k : key) : value :=
  match v with
  | VObj o => own o (key_name k)
  | _ => VUndef
  end.

(** [v[i]] for a non-negative integer [i] *)
Definition index (v : value) (i : nat) : outcome value :=
  match v with
  | VUndef | VNull => Throw TypeErr
  | VArr l => Ret (nth i l VUndef)
  | VStr s => Ret (match s !! i with Some c => VStr [c] | None => VUndef end)
  | VObj o => Ret (own o (dec i))
  | _ => Ret VUndef
  end.

(** ** Node's [path] module (POSIX flavour) *)

(** Pieces of a string between separators. *)
Fixpoint split (s : jsstring) : list jsstring :=
  match s with
  | [] => [[]]
  | c :: s' =>
      if (c =? SLASH)%N then [] :: split s'
      else match split s' with
           | h :: t => (c :: h) :: t
           | [] => [[c]]
           end
  end.

Fixpoint unsplit (segs : list jsstring) : jsstring :=
  match segs with
  | [] => []
  | [a] => a
  | a :: rest => a ++ SLASH :: unsplit rest
  end.

Definition is_dot (s : jsstring) : bool := bool_decide (s = [DOT]).
Definition is_dotdot (s : jsstring) : bool := bool_decide (s = [DOT; DOT]).

(** One step of [normalizeString]: [st] is the stack of kept segments,
    most recent first. *)
Definition norm_step (above : bool) (st : list jsstring) (seg : jsstring)
  : list jsstring :=
  if bool_decide (seg = []) || is_dot seg then st
  else if is_dotdot seg then
    match st with
    | top :: st' => if is_dotdot top then seg :: st else st'
    | [] => if above then [seg] else []
    end
  else seg :: st.

Definition norm_segs (above : bool) (segs : list jsstring) : list jsstring :=
  rev (fold_left (norm_step above) segs []).

Definition is_absolute (p : jsstring) : bool :=
  match p with c :: _ => (c =? SLASH)%N | [] => false end.

Definition ends_slash (p : jsstring) : bool :=
  match rev p with c :: _ => (c =? SLASH)%N | [] => false end.

(** [path.normalize] *)
Definition path_normalize (p : jsstring) : jsstring :=
  match p with
  | [] => [DOT]
  | _ =>
      let body := unsplit (norm_segs (negb (is_absolute p)) (split p)) in
      match body with
      | [] => if is_absolute p then [SLASH]
              else if ends_slash p then [DOT; SLASH] else [DOT]
      | _ =>
          let body' := if ends_slash p then body ++ [SLASH] else body in
          if is_absolute p then SLASH :: body' else body'
      end
  end.

(** [path.join(...args)] *)
Definition path_join (args : list jsstring) : jsstring :=
  match List.filter (fun a => negb (bool_decide (a = []))) args with
  | [] => [DOT]
  | a :: rest => path_normalize (unsplit (a :: rest))
  end.

(** [path.basename(p)] *)
Definition path_basename (p : jsstring) : jsstring :=
  match List.filter (fun a => negb (bool_decide (a = []))) (rev (split p)) with
  | [] => []
  | a :: _ => a
  end.

(** ** The engine's built-ins

    Library functions of the JavaScript engine and of Node that the
    handlers call and that are not part of [server.js].  The development
    is parametric in them. *)
Record engine : Type := {
  (** [JSON.parse(text)]; [None] when it throws a [SyntaxError] *)
  JSON_parse : jsstring -> option value;
  (** [JSON.stringify(v, null, 2)] *)
  JSON_stringify : value -> jsstring;
  (** [Number.prototype.toString] *)
  Number_toString : spec_float -> jsstring;
  (** [i < v] for an integer [i] and a value [v] other than [undefined]
      whose conversion to a primitive returns *)
  index_lt : nat -> value -> bool;
  (** [new URL(text).pathname]; [None] when the constructor throws *)
  URL_pathname : jsstring -> option jsstring;
  (** what archiver's [sanitizePath] makes of an entry name *)
  sanitizePath : jsstring -> jsstring;
  (** [req.body] when [express.json] had nothing to parse: the empty
      object in Express 4, [undefined] in Express 5 *)
  no_body : value
}.

(** Conversion to a primitive returns.  A value parsed from JSON holds
    no function, so an own [toString] property of an object is never
    callable: converting such an object, by itself or as an element
    joined by [Array.prototype.toString], throws a [TypeError] (and
    [Object.prototype.valueOf] returns the object, which is no
    primitive).  Without that own property [Object.prototype.toString]
    answers. *)
Fixpoint stringable (v : value) : bool :=
  match v with
  | VArr l => forallb stringable l
  | VObj o => negb (has_own o (str "toString"))
  | _ => true
  end.

(** The string ToString returns on a JSON-derived value, when it
    returns. *)
Fixpoint to_string (E : engine) (v : value) : jsstring :=
  match v with
  | VUndef => str "undefined"
  | VNull => str "null"
  | VBool true => str "true"
  | VBool false => str "false"
  | VNum x => Number_toString E x
  | VStr s => s
  | VArr l =>
      (* Array.prototype.join: null and undefined elements print as empty *)
      let elt v := match v with VUndef | VNull => [] | _ => to_string E v end in
      (fix join (l : list value) : jsstring :=
         match l with
         | [] => []
         | [a] => elt a
         | a :: rest => elt a ++ 44%N :: join rest
         end) l
  | VObj _ => str "[object Object]"
  end.

(** ToString, as in a template literal or on the argument of
    [JSON.parse] and [new URL]. *)
Definition ToString (E : engine) (v : value) : outcome jsstring :=
  if stringable v then Ret (to_string E v) else Throw TypeErr.

(** [v || []] *)
Definition or_empty (v : value) : value := if truthy v then v else VArr [].

(** [x.slice(0, 6)] *)
Definition slice6 (x : value) : outcome value :=
  match x with
  | VArr l => Ret (VArr (take 6 l))
  | VStr s => Ret (VStr (take 6 s))
  | _ => Throw TypeErr
  end.

(** [x.trim()] *)
Definition call_trim (x : value) : outcome jsstring :=
  match x with
  | VStr s => Ret (trim s)
  | _ => Throw TypeErr
  end.

(** Code points visited by [for (const u of s)] on a string. *)
Definition is_high (c : N) : bool := ((55296 <=? c) && (c <=? 56319))%N.
Definition is_low (c : N) : bool := ((56320 <=? c) && (c <=? 57343))%N.

Fixpoint code_points (s : jsstring) : list jsstring :=
  match s with
  | [] => []
  | c :: s' =>
      match s' with
      | lo :: rest =>
          if is_high c && is_low lo then [c; lo] :: code_points rest
          else [c] :: code_points s'
      | [] => [[c]]
      end
  end.

(** ** The world outside the process *)

Inductive call : Type :=
| ChatCall (prompt : jsstring)      (* POST /v1/chat/completions *)
| SpeechCall (input : jsstring).    (* POST /v1/audio/speech *)

(** A response whose body has been received in full. *)
Record reply : Type := {
  status : nat;
  body_text : jsstring;     (* [await r.text()] *)
  body_bytes : list N       (* [await r.arrayBuffer()] *)
}.

Inductive fetched : Type :=
| Rejected
| Replied (r : reply).

(** [r.ok] *)
Definition ok (r : reply) : bool := (200 <=? status r) && (status r <=? 299).

(** How the disk treats a write or a recursive [mkdir] on a path: it
    carries it out, refuses it before anything is done, or gives up
    after [progress] bytes of the file, respectively [progress]
    directories of the chain, are in place. *)
Inductive fault : Type :=
| Sound
| Denied
| Torn (progress : nat).

(** Configuration read at start-up, and the sources of nondeterminism:
    what the upstream service answers to the n-th call, which identifier
    [uuidv4] draws, how the disk treats an operation on a path, and in
    which order the [lstat] calls archiver issues for the queued paths
    complete (it runs several at a time and appends the entries as they
    complete). *)
Record env : Type := {
  APP_KEY : jsstring;
  BASE_URL : jsstring;
  __dirname : jsstring;
  upstream : nat -> call -> fetched;
  uuidv4 : nat -> jsstring;
  disk_fault : jsstring -> fault;
  stat_order : list (jsstring * jsstring) -> list (jsstring * jsstring);
  stat_order_perm : forall l, Permutation (stat_order l) l
}.

Record world : Type := {
  files : gmap jsstring (list N);
  dirs : gset jsstring;
  calls : list call;
  drawn : nat
}.

(** ** Computations that may throw *)

Definition M (A : Type) : Type := world -> outcome A * world.

Definition ret {A} (a : A) : M A := fun w => (Ret a, w).
Definition throw {A} (e : exn) : M A := fun w => (Throw e, w).
Definition bind {A B} (m : M A) (k : A -> M B) : M B :=
  fun w => match m w with
           | (Ret a, w') => k a w'
           | (Throw e, w') => (Throw e, w')
           end.
Definition lift {A} (o : outcome A) : M A := fun w => (o, w).

#[global] Instance M_ret : MRet M := @ret.
#[global] Instance M_bind : MBind M := fun A B k m => bind m k.

(** [q s] is [s] between double quotes. *)
Definition q (s : string) : jsstring := 34%N :: str s ++ [34%N].
Definition NL : jsstring := [10%N].

Section Server.

Variable E : engine.
Variable V : env.

(** ** Node's [fs] module over the modelled disk *)

(** Files and directories are known by their normalized absolute path
    without trailing slash; the root always exists. *)
Fixpoint drop_slashes (r : jsstring) : jsstring :=
  match r with
  | c :: r' => if (c =? SLASH)%N then drop_slashes r' else r
  | [] => []
  end.

Definition strip_slashes (p : jsstring) : jsstring :=
  match rev (drop_slashes (rev p)) with
  | [] => match p with [] => [] | _ => [SLASH] end
  | d => d
  end.

(** [fs.statSync(p).isDirectory()], false when [p] does not exist. *)
Definition is_directory (p : jsstring) (w : world) : bool :=
  let d := strip_slashes p in
  bool_decide (d = [SLASH]) || bool_decide (d ∈ dirs w).

(** [fs.existsSync(p)]: a path that ends in a slash exists when it
    names a directory. *)
Definition existsSync (p : jsstring) (w : world) : bool :=
  (negb (ends_slash p) && bool_decide (p ∈ dom (files w)))
  || is_directory p w.

(** The directory a path lives in. *)
Fixpoint drop_seg (r : jsstring) : jsstring :=
  match r with
  | c :: r' => if (c =? SLASH)%N then r else drop_seg r'
  | [] => []
  end.

Definition parent (p : jsstring) : jsstring :=
  match rev (drop 1 (drop_seg (rev p))) with
  | [] => [SLASH]
  | d => d
  end.

(** All directories on the way to an absolute path, the path included. *)
Definition ancestors (p : jsstring) : list jsstring :=
  let segs := List.filter (fun a => negb (bool_decide (a = []))) (split p) in
  List.map (fun k => SLASH :: unsplit (take k segs)) (seq 1 (length segs)).

(** [fs.mkdirSync(p, { recursive: true })]: the chain of directories
    is made from the top.  A file in the way fails it before anything
    is made (the directories above an existing file exist); a disk
    fault can leave the first directories of the chain behind. *)
Definition mkdirSync (p : jsstring) : M unit := fun w =>
  let made k := {| files := files w;
                   dirs := dirs w ∪ list_to_set (take k (ancestors p));
                   calls := calls w; drawn := drawn w |} in
  if existsb (fun a => bool_decide (a ∈ dom (files w))) (ancestors p)
  then (Throw FsErr, w)
  else match disk_fault V p with
       | Sound => (Ret tt, made (length (ancestors p)))
       | Denied => (Throw FsErr, w)
       | Torn k => (Throw FsErr, made k)
       end.

(** [fs.writeFileSync(p, buf)]: the file is opened for writing, which
    creates or truncates it, and then written.  Opening fails when [p]
    names a directory or its parent is no directory, or when the disk
    refuses; a fault during the write leaves the first bytes. *)
Definition writeFileSync (p : jsstring) (buf : list N) : M unit := fun w =>
  let holding bytes := {| files := <[p := bytes]> (files w);
                          dirs := dirs w;
                          calls := calls w; drawn := drawn w |} in
  if is_directory p w || ends_slash p || negb (is_directory (parent p) w)
  then (Throw FsErr, w)
  else match disk_fault V p with
       | Sound => (Ret tt, holding buf)
       | Denied => (Throw FsErr, w)
       | Torn k => (Throw FsErr, holding (take k buf))
       end.

Definition ensureDir (p : jsstring) : M unit := fun w =>
  if negb (existsSync p w) then mkdirSync p w else (Ret tt, w).

(** [await fetch(...)]: the call is logged, the answer is the upstream's. *)
Definition fetch (c : call) : M reply := fun w =>
  let w' := {| files := files w; dirs := dirs w;
               calls := calls w ++ [c]; drawn := drawn w |} in
  match upstream V (length (calls w)) c with
  | Rejected => (Throw NetErr, w')
  | Replied r => (Ret r, w')
  end.

(** [uuidv4()] *)
Definition uuid : M jsstring := fun w =>
  (Ret (uuidv4 V (drawn w)),
   {| files := files w; dirs := dirs w; calls := calls w;
      drawn := S (drawn w) |}).

(** ** Speech synthesis *)

Definition ttsToMp3 (text outPath : jsstring) : M unit :=
  r ← fetch (SpeechCall text);
  if negb (ok r)
  then throw (Thrown (str "TTS failed: " ++ dec (status r)
                        ++ str " " ++ body_text r))
  else writeFileSync outPath (body_bytes r).

(** ** POST /generate *)

Record file_entry : Type := {
  label : jsstring;
  url : jsstring;
  script : jsstring;
  beats : value;
  hashtags : value
}.

Inductive body : Type :=
| BHealth                                           (* { ok: true } *)
| BError (error : jsstring)                         (* { error } *)
| BFailure (error : jsstring) (detail : exn)        (* { error, detail } *)
| BFiles (batchId : jsstring) (entries : list file_entry).

(** What the client receives.  An archive is given by its entries: the
    disk path each was read from and its name. *)
Inductive response : Type :=
| RJson (code : nat) (b : body)
| RZip (entries : list (jsstring * jsstring))   (* 200, application/zip *)
| RFailed (code : nat)          (* Express's error page for a middleware error *)
| RNotFound.

Definition variant_line (style : string) : jsstring :=
  str "    {" ++ q "style" ++ str ":" ++ q style ++ str ","
  ++ q "voiceover" ++ str ":" ++ q "..." ++ str ","
  ++ q "beats" ++ str ":[" ++ q "..." ++ str "],"
  ++ q "hashtags" ++ str ":[" ++ q "#..." ++ str "]}".

Definition prompt_of (specs : value) : jsstring :=
  NL
  ++ str "You write TikTok voiceovers for semi-trucks in a natural American blue-collar voice." ++ NL
  ++ str "- Produce 3 variants: (1) gritty, (2) friendly, (3) high-energy." ++ NL
  ++ str "- 85" ++ [8211%N] ++ str "120 words each (20" ++ [8211%N]
  ++ str "35s), strong hook in first 3s, specs" ++ [8594%N]
  ++ str "benefits" ++ [8594%N] ++ str "CTA." ++ NL
  ++ str "- No prices. CTA: DM me for details. Short plain sentences. Contractions OK." ++ NL
  ++ str "Truck specs: " ++ JSON_stringify E specs ++ NL
  ++ str "Return JSON:" ++ NL
  ++ str "{" ++ NL
  ++ str "  " ++ q "variants" ++ str ":[" ++ NL
  ++ variant_line "gritty" ++ str "," ++ NL
  ++ variant_line "friendly" ++ str "," ++ NL
  ++ variant_line "high-energy" ++ NL
  ++ str "  ]" ++ NL
  ++ str "}".

(** [JSON.parse(v)] on a value: its argument goes through ToString. *)
Definition parse (v : value) : outcome value :=
  match ToString E v with
  | Throw e => Throw e
  | Ret text =>
      match JSON_parse E text with
      | Some j => Ret j
      | None => Throw SyntaxErr
      end
  end.

(** What lines 85-87 make of the chat response. *)
Definition variants_of (cr : reply) : outcome value :=
  if negb (ok cr)
  then Throw (Thrown (str "Chat failed: " ++ dec (status cr)
                        ++ str " " ++ body_text cr))
  else
    match parse (VStr (body_text cr)) with
    | Throw e => Throw e
    | Ret cj =>
        match get cj Kchoices with
        | Throw e => Throw e
        | Ret choices =>
            match index choices 0 with
            | Throw e => Throw e
            | Ret c0 =>
                match get c0 Kmessage with
                | Throw e => Throw e
                | Ret message =>
                    match get message Kcontent with
                    | Throw e => Throw e
                    | Ret content =>
                        match parse content with
                        | Throw e => Throw e
                        | Ret parsed => get parsed Kvariants
                        end
                    end
                end
            end
        end
    end.

(** The text-generation step: the chat call and the extraction of the
    variants (lines 59-87). *)
Definition text_generation (specs : value) : M value :=
  cr ← fetch (ChatCall (prompt_of specs));
  lift (variants_of cr).

Definition vo_name (i : nat) : jsstring :=
  str "vo_" ++ dec (i + 1) ++ str ".mp3".

(** Body of the loop for index [i] and element [v]. *)
Definition synth_one (batchId dir : jsstring) (i : nat) (v : value)
  : M file_entry :=
  voiceover ← lift (get v Kvoiceover);
  script ← lift (call_trim voiceover);
  let filePath := path_join [dir; vo_name i] in
  ttsToMp3 script filePath;;
  style ← lift (get v Kstyle);
  printed ← lift (ToString E style);
  bs ← lift (get v Kbeats);
  hs ← lift (get v Khashtags);
  tags ← lift (slice6 (or_empty hs));
  mret {| label := str "VoiceOver " ++ dec (i + 1)
                   ++ [32%N; 8212%N; 32%N] ++ printed;
          url := BASE_URL V ++ str "/public/voiceovers/" ++ batchId
                 ++ str "/" ++ vo_name i;
          script := script;
          beats := or_empty bs;
          hashtags := tags |}.

(** [i < variants.length] *)
Definition below_length (variants : value) (i : nat) : outcome bool :=
  match variants with
  | VUndef | VNull => Throw TypeErr
  | VArr l => Ret (i <? length l)
  | VStr s => Ret (i <? length s)
  | VObj o =>
      match own o (str "length") with
      | VUndef => Ret false
      | len => if stringable len then Ret (index_lt E i len)
               else Throw TypeErr
      end
  | _ => Ret false
  end.

(** The [for] loop from index [i] on.  A completed iteration has read
    the element at its index, so the number of elements bounds the
    number of iterations; [fuel] is one more than that. *)
Fixpoint synth_loop (fuel : nat) (batchId dir : jsstring) (variants : value)
    (i : nat) (results : list file_entry) : M (list file_entry) :=
  match fuel with
  | 0 => throw TypeErr
  | S fuel' =>
      more ← lift (below_length variants i);
      if more : bool then
        v ← lift (index variants i);
        e ← synth_one batchId dir i v;
        synth_loop fuel' batchId dir variants (S i) (results ++ [e])
      else mret results
  end.

Definition elements_of (variants : value) : nat :=
  match variants with
  | VArr l => length l
  | VStr s => length s
  | VObj o => length o
  | _ => 0
  end.

(** [try { ... } catch (e) { ... }] *)
Definition try_catch {A} (m : M A) (h : exn -> A) : world -> A * world :=
  fun w => match m w with
           | (Ret a, w') => (a, w')
           | (Throw e, w') => (h e, w')
           end.

Definition generate (req_body : value) : world -> response * world :=
  try_catch
    (specs ← lift (get req_body Kspecs);
     if negb (truthy (get_opt specs Kmake))
        || negb (truthy (get_opt specs Kmodel))
     then mret (RJson 400 (BError (str "Missing required specs: make, model.")))
     else
       variants ← text_generation specs;
       batchId ← uuid;
       let dir := path_join [__dirname V; str "public"; str "voiceovers";
                             batchId] in
       ensureDir dir;;
       results ← synth_loop (S (elements_of variants)) batchId dir
                   variants 0 [];
       mret (RJson 200 (BFiles batchId results)))
    (fun e => RJson 500 (BFailure (str "Generation failed") e)).

(** ** POST /zip *)

(** [!files?.length] is false *)
Definition has_length (fs : value) : bool :=
  match fs with
  | VArr l => negb (bool_decide (l = []))
  | VStr s => negb (bool_decide (s = []))
  | VObj o => truthy (own o (str "length"))
  | _ => false
  end.

(** [new URL(u).pathname] *)
Definition pathname (u : value) : outcome jsstring :=
  match ToString E u with
  | Throw e => Throw e
  | Ret text =>
      match URL_pathname E text with
      | Some p => Ret p
      | None => Throw TypeErr
      end
  end.

(** One iteration of the [for ... of] loop: [archive.file] queues the
    path with the name given. *)
Definition add_file (u : value) (archive : list (jsstring * jsstring))
  : M (list (jsstring * jsstring)) := fun w =>
  match pathname u with
  | Throw e => (Throw e, w)
  | Ret p =>
      let diskPath := path_join [__dirname V; p] in
      if existsSync diskPath w
      then (Ret (archive ++ [(diskPath, path_basename diskPath)]), w)
      else (Ret archive, w)
  end.

Fixpoint add_files (us : list value) (archive : list (jsstring * jsstring))
  : M (list (jsstring * jsstring)) :=
  match us with
  | [] => mret archive
  | u :: us' => archive' ← add_file u archive; add_files us' archive'
  end.

(** The entry archiver writes for a queued path: the name goes through
    [sanitizePath]; a directory becomes an entry of its own whose name
    ends in a slash. *)
Definition archived (w : world) (queued : jsstring * jsstring)
  : jsstring * jsstring :=
  let '(src, name) := queued in
  (src,
   if is_directory src w
   then let n := sanitizePath E (name ++ [SLASH]) in
        if ends_slash n then n else n ++ [SLASH]
   else sanitizePath E name).

(** [await archive.finalize()]: the queued paths become the entries of
    the archive, in the order their [lstat] calls complete. *)
Definition finalize (queue : list (jsstring * jsstring))
  : M (list (jsstring * jsstring)) := fun w =>
  (Ret (stat_order V (List.map (archived w) queue)), w).

(** [for (const u of files)] *)
Definition iterate (fs : value) : outcome (list value) :=
  match fs with
  | VArr l => Ret l
  | VStr s => Ret (List.map VStr (code_points s))
  | _ => Throw TypeErr
  end.

Definition zip (req_body : value) : world -> response * world :=
  try_catch
    (fs ← lift (get req_body Kfiles);
     if negb (has_length fs)
     then mret (RJson 400 (BError (str "No files selected.")))
     else
       us ← lift (iterate fs);
       queue ← add_files us [];
       archive ← finalize queue;
       mret (RZip archive))
    (fun e => RJson 500 (BFailure (str "ZIP failed") e)).

(** ** The application *)

(** Method and path of a request, as the router matches them.  The
    requests modelled are those [cors] and [express.static] pass on
    unchanged: any but an [OPTIONS] request, which [cors] answers, and a
    [GET] or [HEAD] below [/public] whose file exists, which the static
    middleware serves. *)
Inductive route : Type := GetHealth | PostGenerate | PostZip | NoRoute.

(** What [express.json] is given: nothing it parses (no body, or a
    [Content-Type] other than [application/json]), or a JSON-typed body
    with its length in bytes and its text. *)
Inductive upload : Type :=
| NoJson
| Json (size : N) (text : jsstring).

Record request : Type := {
  target : route;
  x_app_key : option jsstring;      (* [req.header('X-APP-KEY')] *)
  sent : upload
}.

Inductive parsed : Type :=
| Body (b : value)                  (* [next()] with [req.body] set *)
| Failed (code : nat).              (* [next(err)] with [err.status] *)

(** [2mb] *)
Definition json_limit : N := 2097152%N.

(** White space skipped before the first character in strict mode. *)
Fixpoint first_char (s : jsstring) : option N :=
  match s with
  | c :: s' =>
      if (c =? 32)%N || (c =? 9)%N || (c =? 10)%N || (c =? 13)%N
      then first_char s' else Some c
  | [] => None
  end.

(** [express.json({ limit: '2mb' })]: a body over the limit is answered
    413; an empty body gives the empty object; in strict mode a text
    that does not start an object or an array, or that [JSON.parse]
    refuses, is answered 400. *)
Definition req_body (r : request) : parsed :=
  match sent r with
  | NoJson => Body (no_body E)
  | Json size text =>
      if (json_limit <? size)%N then Failed 413
      else if bool_decide (text = []) then Body (VObj [])
      else
        match first_char text with
        | Some c =>
            if (c =? 123)%N || (c =? 91)%N then
              match JSON_parse E text with
              | Some v => Body v
              | None => Failed 400
              end
            else Failed 400
        | None => Failed 400
        end
  end.

Definition handler (r : request) (b : value) : world -> response * world :=
  match target r with
  | PostGenerate => generate b
  | PostZip => zip b
  | _ => fun w => (RNotFound, w)
  end.

(** The middlewares and routes in the order they are registered: the
    body parser, the health route, the app-key check, the handlers. *)
Definition app (r : request) : world -> response * world :=
  match req_body r with
  | Failed code => fun w => (RFailed code, w)
  | Body b =>
      match target r with
      | GetHealth => fun w => (RJson 200 BHealth, w)
      | _ =>
          if bool_decide (APP_KEY V = []) then handler r b
          else if bool_decide (x_app_key r = Some (APP_KEY V))
          then handler r b
          else fun w => (RJson 401 (BError (str "Unauthorized")), w)
      end
  end.

End Server.

(** * Vocabulary of the statements *)

(** A segment that [path.normalize] keeps as it is. *)
Definition proper (s : jsstring) : Prop :=
  s ≠ [] ∧ s ≠ [DOT] ∧ s ≠ [DOT; DOT] ∧ SLASH ∉ s.

Definition properb (s : jsstring) : bool :=
  negb (bool_decide (s = [])) && negb (is_dot s) && negb (is_dotdot s)
  && forallb (fun c => negb (c =? SLASH)%N) s.

(** Segments kept from an absolute path. *)
Definition kept (a : jsstring) : list jsstring := norm_segs false (split a).

(** [p] is [root] or lies below it. *)
Definition within (root p : jsstring) : Prop :=
  p = root ∨ ∃ t, p = root ++ SLASH :: t.

Fixpoint after (pre p : jsstring) : option jsstring :=
  match pre, p with
  | [], _ => Some p
  | a :: pre', b :: p' => if (a =? b)%N then after pre' p' else None
  | _ :: _, [] => None
  end.

Definition withinb (root p : jsstring) : bool :=
  bool_decide (p = root)
  || match after (root ++ [SLASH]) p with Some _ => true | None => false end.

(** The asset store root, [path.join(__dirname, 'public', 'voiceovers')]. *)
Definition asset_root (V : env) : jsstring :=
  path_join [__dirname V; str "public"; str "voiceovers"].


(** The directory of a batch and the audio file of its [i]-th variant
    (counting from 0). *)
Definition batch_dir (V : env) (batchId : jsstring) : jsstring :=
  path_join [__dirname V; str "public"; str "voiceovers"; batchId].

Definition audio_path (V : env) (batchId : jsstring) (i : nat) : jsstring :=
  batch_dir V batchId ++ SLASH :: vo_name i.

(** [p] is an entry of directory [dir]. *)
Definition in_dir (dir p : jsstring) : bool :=
  match after (dir ++ [SLASH]) p with
  | Some name =>
      negb (bool_decide (name = []))
      && forallb (fun c => negb (c =? SLASH)%N) name
  | None => false
  end.

(** The files a directory holds. *)
Definition dir_files (dir : jsstring) (w : world) : gset jsstring :=
  filter (fun p => in_dir dir p = true) (dom (files w)).

(** [p] lies somewhere below [dir]. *)
Definition below (dir p : jsstring) : bool :=
  match after (dir ++ [SLASH]) p with Some _ => true | None => false end.

(** Nothing exists at [dir] or below it. *)
Definition vacant (dir : jsstring) (w : world) : bool :=
  negb (bool_decide (dir ∈ dom (files w)) || bool_decide (dir ∈ dirs w))
  && forallb (fun p => negb (below dir p))
       (elements (dom (files w)) ++ elements (dirs w)).

(** [mkdirSync] would succeed on [dir]. *)
Definition can_mkdir (V : env) (dir : jsstring) (w : world) : bool :=
  match disk_fault V dir with
  | Sound =>
      negb (existsb (fun a => bool_decide (a ∈ dom (files w)))
              (ancestors dir))
  | _ => false
  end.

(** The variant's style converts to a string and its hashtags can be
    sliced. *)
Definition shaped (v : value) : bool :=
  stringable (get_opt v Kstyle)
  && match slice6 (or_empty (get_opt v Khashtags)) with
     | Ret _ => true
     | Throw _ => false
     end.

(** The audio bytes obtained for variant [v], when its voiceover is a
    string, the [n]-th upstream call answers with a success status and
    the disk accepts the file. *)
Definition synthesized (V : env) (batchId : jsstring) (n i : nat) (v : value)
  : option (jsstring * list N) :=
  match v with
  | VObj o =>
      match own o (str "voiceover") with
      | VStr s =>
          match upstream V n (SpeechCall (trim s)) with
          | Replied r =>
              match disk_fault V (audio_path V batchId i) with
              | Sound => if ok r then Some (trim s, body_bytes r) else None
              | _ => None
              end
          | Rejected => None
          end
      | _ => None
      end
  | _ => None
  end.

Fixpoint all_synthesized (V : env) (batchId : jsstring) (n i : nat)
    (vs : list value) : bool :=
  match vs with
  | [] => true
  | v :: vs' =>
      match synthesized V batchId n i v with
      | Some _ => all_synthesized V batchId (S n) (S i) vs'
      | None => false
      end
  end.

(** Number of elements of a sliced hashtags value. *)
Definition count (x : value) : nat :=
  match x with
  | VArr l => length l
  | VStr s => length s
  | _ => 0
  end.

(** The entry the loop builds for variant [v] at position [i]. *)
Definition entry_of (E : engine) (V : env) (batchId : jsstring) (i : nat)
    (v : value) : file_entry :=
  {| label := str "VoiceOver " ++ dec (i + 1) ++ [32%N; 8212%N; 32%N]
              ++ to_string E (get_opt v Kstyle);
     url := BASE_URL V ++ str "/public/voiceovers/" ++ batchId
            ++ str "/" ++ vo_name i;
     script := match get_opt v Kvoiceover with
               | VStr s => trim s
               | _ => []
               end;
     beats := or_empty (get_opt v Kbeats);
     hashtags := match slice6 (or_empty (get_opt v Khashtags)) with
                 | Ret t => t
                 | Throw _ => VArr []
                 end |}.

Fixpoint entries_of (E : engine) (V : env) (batchId : jsstring) (i : nat)
    (vs : list value) : list file_entry :=
  match vs with
  | [] => []
  | v :: vs' => entry_of E V batchId i v :: entries_of E V batchId (S i) vs'
  end.

(** The files on disk after the variants [vs] have been synthesized, the
    first of them at position [i] by the [n]-th upstream call. *)
Fixpoint written (V : env) (batchId : jsstring) (n i : nat)
    (vs : list value) (m : gmap jsstring (list N)) : gmap jsstring (list N) :=
  match vs with
  | [] => m
  | v :: vs' =>
      match synthesized V batchId n i v with
      | Some (_, bytes) =>
          written V batchId (S n) (S i) vs'
            (<[audio_path V batchId i := bytes]> m)
      | None => m
      end
  end.

(** The world once the identifier has been drawn, and once the batch
    directory has been created as well. *)
Definition drew (w : world) : world :=
  {| files := files w; dirs := dirs w; calls := calls w;
     drawn := S (drawn w) |}.

Definition prepared (V : env) (w : world) : world :=
  {| files := files w;
     dirs := dirs w
             ∪ list_to_set (ancestors (batch_dir V (uuidv4 V (drawn w))));
     calls := calls w;
     drawn := S (drawn w) |}.

(** The disk path a URL path resolves to. *)
Definition resolve (V : env) (p : jsstring) : jsstring :=
  path_join [__dirname V; p].

(** The archive entry of a disk path under its base name, a directory
    with a slash after it. *)
Definition entry_for (w : world) (d : jsstring) : jsstring * jsstring :=
  (d, if is_directory d w then path_basename d ++ [SLASH]
      else path_basename d).

(** archiver's [sanitizePath] leaves the entry name of [d] as it is. *)
Definition kept_name (E : engine) (w : world) (d : jsstring) : bool :=
  bool_decide (sanitizePath E (entry_for w d).2 = (entry_for w d).2).

(** The listed paths that exist on disk. *)
Definition existing (V : env) (w : world) (ps : list jsstring)
  : list jsstring :=
  List.filter (fun d => existsSync d w) (List.map (resolve V) ps).

(** The segments of the batch directory. *)
Definition batch_segs (V : env) (batchId : jsstring) : list jsstring :=
  kept (__dirname V) ++ [str "public"; str "voiceovers"; batchId].

(** The state in which the loop runs: the batch directory exists and no
    audio path is taken by a directory. *)
Definition ready (V : env) (batchId : jsstring) (w : world) : Prop :=
  batch_dir V batchId ∈ dirs w ∧ ∀ i, audio_path V batchId i ∉ dirs w.

(** One more synthesized file and one more logged call. *)
Definition logged (V : env) (batchId : jsstring) (w : world)
    (script : jsstring) (bytes : list N) (i : nat) : world :=
  {| files := <[audio_path V batchId i := bytes]> (files w);
     dirs := dirs w;
     calls := calls w ++ [SpeechCall script];
     drawn := drawn w |}.

(** The text sent to the speech endpoint for a variant. *)
Definition script_of (v : value) : jsstring :=
  match get_opt v Kvoiceover with
  | VStr s => trim s
  | _ => []
  end.

(** The public URL path of the [i]-th audio file of a batch. *)
Definition audio_route (batchId : jsstring) (i : nat) : jsstring :=
  str "/public/voiceovers/" ++ batchId ++ str "/" ++ vo_name i.

(** The normalized application directory. *)
Definition app_root (V : env) : jsstring :=
  SLASH :: unsplit (kept (__dirname V)).

(** The world once a call has been logged. *)
Definition called (w : world) (c : call) : world :=
  {| files := files w; dirs := dirs w; calls := calls w ++ [c];
     drawn := drawn w |}.

(** * A reference engine for closed examples

    Executable stand-ins for the engine's built-ins.  Each agrees with
    ECMAScript / WHATWG on the fragment named in its comment and is only
    used on that fragment. *)
Module Reference.

(** Non-negative integers as doubles. *)
Definition num_of_Z (z : Z) : spec_float :=
  binary_normalize 53 1024 z 0 false.

Definition is_digit (c : N) : bool := ((48 <=? c) && (c <=? 57))%N.

Fixpoint digits_value (acc : Z) (s : jsstring) : Z :=
  match s with
  | c :: s' => digits_value (10 * acc + Z.of_N (c - 48)) s'
  | [] => acc
  end.

Fixpoint span (P : N -> bool) (s : jsstring) : jsstring * jsstring :=
  match s with
  | c :: s' => if P c then let '(a, b) := span P s' in (c :: a, b)
               else ([], s)
  | [] => ([], [])
  end.

(** JSON whitespace *)
Fixpoint skip_ws (s : jsstring) : jsstring :=
  match s with
  | c :: s' =>
      if (c =? 32)%N || (c =? 9)%N || (c =? 10)%N || (c =? 13)%N
      then skip_ws s' else s
  | [] => []
  end.

Definition unescape (c : N) : option N :=
  if (c =? 34)%N then Some 34%N          (* quote *)
  else if (c =? 92)%N then Some 92%N     (* backslash *)
  else if (c =? 47)%N then Some 47%N     (* solidus *)
  else if (c =? 98)%N then Some 8%N      (* b *)
  else if (c =? 102)%N then Some 12%N    (* f *)
  else if (c =? 110)%N then Some 10%N    (* n *)
  else if (c =? 114)%N then Some 13%N    (* r *)
  else if (c =? 116)%N then Some 9%N     (* t *)
  else None.

(** The characters of a string literal after its opening quote, up to
    the closing one.  Fragment: no [\u] escapes. *)
Fixpoint string_body (s : jsstring) : option (jsstring * jsstring) :=
  match s with
  | [] => None
  | c :: s' =>
      if (c =? 34)%N then Some ([], s')
      else if (c =? 92)%N then
        match s' with
        | e :: s'' =>
            match unescape e, string_body s'' with
            | Some d, Some (t, r) => Some (d :: t, r)
            | _, _ => None
            end
        | [] => None
        end
      else if (c <? 32)%N then None
      else match string_body s' with
           | Some (t, r) => Some (c :: t, r)
           | None => None
           end
  end.

(** Property definition: a repeated key keeps its place and takes the
    later value. *)
Fixpoint define (o : list (jsstring * value)) (k : jsstring) (v : value)
  : list (jsstring * value) :=
  match o with
  | [] => [(k, v)]
  | (k', v') :: o' =>
      if bool_decide (k' = k) then (k, v) :: o' else (k', v') :: define o' k v
  end.

Inductive mode : Type :=
| Value
| Elements (acc : list value)
| Members (acc : list (jsstring * value)).

(** Recursive descent.  Fragment: numbers are integers without sign,
    fraction or exponent and without a leading zero. *)
Fixpoint parse_json (fuel : nat) (m : mode) (s : jsstring)
  : option (value * jsstring) :=
  match fuel with
  | 0 => None
  | S fuel' =>
      match m with
      | Value =>
          match skip_ws s with
          | [] => None
          | c :: r =>
              if (c =? 123)%N then
                match skip_ws r with
                | c' :: r' => if (c' =? 125)%N then Some (VObj [], r')
                              else parse_json fuel' (Members []) r
                | [] => None
                end
              else if (c =? 91)%N then
                match skip_ws r with
                | c' :: r' => if (c' =? 93)%N then Some (VArr [], r')
                              else parse_json fuel' (Elements []) r
                | [] => None
                end
              else if (c =? 34)%N then
                match string_body r with
                | Some (t, r') => Some (VStr t, r')
                | None => None
                end
              else if is_digit c then
                let '(ds, r') := span is_digit (c :: r) in
                match ds, r' with
                | [48%N], _ => Some (VNum (S754_zero false), r')
                | 48%N :: _, _ => None
                | _, _ => Some (VNum (num_of_Z (digits_value 0 ds)), r')
                end
              else
                match after (str "true") (c :: r),
                      after (str "false") (c :: r),
                      after (str "null") (c :: r) with
                | Some r', _, _ => Some (VBool true, r')
                | _, Some r', _ => Some (VBool false, r')
                | _, _, Some r' => Some (VNull, r')
                | _, _, _ => None
                end
          end
      | Elements acc =>
          match parse_json fuel' Value s with
          | Some (v, r) =>
              match skip_ws r with
              | c :: r' =>
                  if (c =? 44)%N then parse_json fuel' (Elements (acc ++ [v])) r'
                  else if (c =? 93)%N then Some (VArr (acc ++ [v]), r')
                  else None
              | [] => None
              end
          | None => None
          end
      | Members acc =>
          match skip_ws s with
          | c :: r =>
              if (c =? 34)%N then
                match string_body r with
                | Some (k, r1) =>
                    match skip_ws r1 with
                    | c1 :: r2 =>
                        if (c1 =? 58)%N then
                          match parse_json fuel' Value r2 with
                          | Some (v, r3) =>
                              match skip_ws r3 with
                              | c3 :: r4 =>
                                  if (c3 =? 44)%N
                                  then parse_json fuel' (Members (define acc k v)) r4
                                  else if (c3 =? 125)%N
                                  then Some (VObj (define acc k v), r4)
                                  else None
                              | [] => None
                              end
                          | None => None
                          end
                        else None
                    | [] => None
                    end
                | None => None
                end
              else None
          | [] => None
          end
      end
  end.

Definition JSON_parse (s : jsstring) : option value :=
  match parse_json (2 * length s + 2) Value s with
  | Some (v, r) => match skip_ws r with [] => Some v | _ => None end
  | None => None
  end.

(** Fragment: zero, NaN, the infinities, and integers below 2^53 in
    absolute value. *)
Definition Number_toString (x : spec_float) : jsstring :=
  match x with
  | S754_zero _ => str "0"
  | S754_nan => str "NaN"
  | S754_infinity false => str "Infinity"
  | S754_infinity true => str "-Infinity"
  | S754_finite s m e =>
      (if s then str "-" else [])
      ++ dec (Z.to_nat (Z.shiftl (Z.pos m) e))
  end.

Definition hex_digit (n : N) : N := if (n <? 10)%N then (48 + n)%N else (87 + n)%N.

Definition quote_unit (c : N) : jsstring :=
  if (c =? 34)%N then [92; 34]%N
  else if (c =? 92)%N then [92; 92]%N
  else if (c =? 8)%N then [92; 98]%N
  else if (c =? 12)%N then [92; 102]%N
  else if (c =? 10)%N then [92; 110]%N
  else if (c =? 13)%N then [92; 114]%N
  else if (c =? 9)%N then [92; 116]%N
  else if (c <? 32)%N
       then [92; 117; 48; 48; hex_digit (c / 16); hex_digit (c mod 16)]%N
  else [c].

(** [JSON.stringify] of a string.  Fragment: no lone surrogates. *)
Definition quote (s : jsstring) : jsstring :=
  34%N :: concat (List.map quote_unit s) ++ [34%N].

Definition indent (n : nat) : jsstring := repeat 32%N n.

(** [JSON.stringify(v, null, 2)] at nesting depth [n]. *)
Fixpoint stringify (n : nat) (v : value) : jsstring :=
  match v with
  | VUndef | VNull => str "null"
  | VBool true => str "true"
  | VBool false => str "false"
  | VNum S754_nan | VNum (S754_infinity _) => str "null"
  | VNum x => Number_toString x
  | VStr s => quote s
  | VArr [] => str "[]"
  | VArr (a :: l) =>
      str "[" ++ NL ++ indent (n + 2) ++ stringify (n + 2) a
      ++ (fix rest (l : list value) : jsstring :=
            match l with
            | [] => []
            | b :: l' => str "," ++ NL ++ indent (n + 2)
                         ++ stringify (n + 2) b ++ rest l'
            end) l
      ++ NL ++ indent n ++ str "]"
  | VObj [] => str "{}"
  | VObj ((k, a) :: o) =>
      str "{" ++ NL ++ indent (n + 2) ++ quote k ++ str ": "
      ++ stringify (n + 2) a
      ++ (fix rest (o : list (jsstring * value)) : jsstring :=
            match o with
            | [] => []
            | (k', b) :: o' => str "," ++ NL ++ indent (n + 2) ++ quote k'
                               ++ str ": " ++ stringify (n + 2) b ++ rest o'
            end) o
      ++ NL ++ indent n ++ str "}"
  end.

Definition JSON_stringify (v : value) : jsstring := stringify 0 v.

(** [i < v].  Fragment: numbers, booleans, null, objects that convert to
    a primitive, and strings that are empty or made of decimal digits. *)
Definition index_lt (i : nat) (v : value) : bool :=
  match v with
  | VNum x => SFltb (num_of_Z (Z.of_nat i)) x
  | VBool true => (i <? 1)%nat
  | VStr s =>
      if forallb is_digit s then (Z.of_nat i <? digits_value 0 s)%Z
      else false
  | _ => false
  end.

Definition is_lower (c : N) : bool := ((97 <=? c) && (c <=? 122))%N.
Definition is_path_unit (c : N) : bool :=
  is_lower c || ((65 <=? c) && (c <=? 90))%N || is_digit c
  || (c =? 45)%N || (c =? 46)%N || (c =? 95)%N || (c =? 126)%N
  || (c =? SLASH)%N.

(** The path state of the URL parser: dot segments are dropped or pop the
    previous segment; a dot segment in last position leaves an empty
    segment. *)
Fixpoint url_segments (st : list jsstring) (segs : list jsstring)
  : list jsstring :=
  match segs with
  | [] => rev st
  | g :: segs' =>
      let last := match segs' with [] => true | _ => false end in
      if is_dotdot g then
        url_segments (if last then [] :: tl st else tl st) segs'
      else if is_dot g then
        url_segments (if last then [] :: st else st) segs'
      else url_segments (g :: st) segs'
  end.

Fixpoint labels (s : jsstring) : list jsstring :=
  match s with
  | [] => [[]]
  | c :: s' =>
      if (c =? DOT)%N then [] :: labels s'
      else match labels s' with
           | l :: t => (c :: l) :: t
           | [] => [[c]]
           end
  end.

Definition host_ok (h : jsstring) : bool :=
  forallb (fun g => negb (bool_decide (g = [])) && forallb is_lower g)
    (labels h).

Definition port_ok (p : jsstring) : bool :=
  negb (bool_decide (p = [])) && forallb is_digit p
  && (digits_value 0 p <=? 65535)%Z.

(** [new URL(u).pathname].  Fragment: [http://] or [https://], a host of
    lower-case letter labels, an optional decimal port, and a path of
    unreserved characters and slashes, without query or fragment. *)
Definition URL_pathname (u : jsstring) : option jsstring :=
  let rest := match after (str "http://") u, after (str "https://") u with
              | Some r, _ => Some r
              | _, Some r => Some r
              | _, _ => None
              end in
  match rest with
  | None => None
  | Some r =>
      let '(authority, path) := span (fun c => negb (c =? SLASH)%N) r in
      let '(host, port) := span (fun c => negb (c =? 58)%N) authority in
      if host_ok host
         && match port with [] => true | _ :: p => port_ok p end
         && forallb is_path_unit path
      then Some (SLASH :: unsplit (url_segments [] (split (drop 1 path))))
      else None
  end.

(** archiver's [sanitizePath].  Fragment: names of letters, digits,
    [.], [_] and [-] that do not start with two dots, with or without a
    final slash; it leaves them as they are. *)
Definition sanitizePath (name : jsstring) : jsstring := name.

(** Express 4: a request without a parsed body has the empty object. *)
Definition node : engine :=
  Build_engine JSON_parse JSON_stringify Number_toString index_lt
    URL_pathname sanitizePath (VObj []).

End Reference.

(** * A sample deployment for closed examples *)
Module Sample.
Import Reference.

Definition variant (style voiceover : string) (tags : list jsstring) : value :=
  VObj [(str "style", VStr (str style));
        (str "voiceover", VStr (str voiceover));
        (str "beats", VArr [VStr (str "hook"); VStr (str "specs")]);
        (str "hashtags", VArr (List.map VStr tags))].

Definition three : list value :=
  [variant "gritty" "  Built to haul. DM me for details. "
     [str "#a"; str "#b"; str "#c"; str "#d"; str "#e"; str "#f";
      str "#g"; str "#h"];
   variant "friendly" "Meet your next rig. DM me for details."
     [str "#semi"; str "#trucking"];
   VObj [(str "style", VStr (str "high-energy"));
         (str "voiceover", VStr (str "Let's roll! DM me for details."))]].

(** The completion body the upstream sends when its message content is
    the JSON text of [payload]. *)
Definition completion (payload : value) : jsstring :=
  JSON_stringify
    (VObj [(str "choices",
            VArr [VObj [(str "message",
                         VObj [(str "role", VStr (str "assistant"));
                               (str "content",
                                VStr (JSON_stringify payload))])]])]).

Definition mp3 : list N := [73; 68; 51; 4]%N.

(** An upstream that answers the chat call with [chat] and every speech
    call from [failing] on (counted among all calls) with status 429. *)
Definition service (chat : reply) (failing : nat) (n : nat) (c : call)
  : fetched :=
  match c with
  | ChatCall _ => Replied chat
  | SpeechCall _ =>
      if failing <=? n
      then Replied {| status := 429; body_text := str "slow down";
                      body_bytes := [] |}
      else Replied {| status := 200; body_text := []; body_bytes := mp3 |}
  end.

Definition answer (payload : value) : reply :=
  {| status := 200; body_text := completion payload; body_bytes := [] |}.

Definition batch : jsstring := str "3b241101-e2bb-4255-8caf-4136c566a962".

Definition deployment (key : string) (chat : reply) (failing : nat) : env :=
  {| APP_KEY := str key;
     BASE_URL := str "http://localhost:3000";
     __dirname := str "/srv/app";
     upstream := service chat failing;
     uuidv4 := fun _ => batch;
     disk_fault := fun _ => Sound;
     stat_order := @rev (jsstring * jsstring);
     stat_order_perm := fun l => Permutation_sym (Permutation_rev l) |}.

(** A disk holding the application itself and nothing generated yet. *)
Definition installed : world :=
  {| files := {[ str "/srv/app/server.js" := [105; 109; 112]%N;
                 str "/srv/app/.env" := [75; 69; 89]%N ]};
     dirs := {[ str "/srv"; str "/srv/app"; str "/srv/app/public" ]};
     calls := [];
     drawn := 0 |}.

Definition truck : value :=
  VObj [(str "make", VStr (str "Peterbilt"));
        (str "model", VStr (str "579"));
        (str "year", VNum (num_of_Z 2020))].

Definition peterbilt : value := VObj [(str "specs", truck)].

(** The upstream answers with three variants and synthesizes them all. *)
Definition healthy : env :=
  deployment "" (answer (VObj [(str "variants", VArr three)])) 100.

(** The second synthesis call (third upstream call) is refused. *)
Definition throttled : env :=
  deployment "" (answer (VObj [(str "variants", VArr three)])) 2.

(** The chat endpoint is down. *)
Definition down : env :=
  deployment ""
    {| status := 503; body_text := str "overloaded"; body_bytes := [] |} 100.

(** The message content is the JSON text of an object without variants. *)
Definition shapeless : env := deployment "" (answer (VObj [])) 100.

(** A deployment protected by an app key. *)
Definition locked : env :=
  deployment "s3cret" (answer (VObj [(str "variants", VArr three)])) 100.

(** The world once the chat call of a valid request has been answered. *)
Definition chatted (V : env) : world :=
  (text_generation node V truck installed).2.

Definition batch_path : jsstring :=
  str "/srv/app/public/voiceovers/" ++ batch.

(** The world after a complete run on the healthy deployment. *)
Definition generated : world := (generate node healthy peterbilt installed).2.

Definition audio_url (name : string) : value :=
  VStr (str "http://localhost:3000/public/voiceovers/" ++ batch
        ++ str "/" ++ str name).

Definition selection (urls : list value) : value :=
  VObj [(str "files", VArr urls)].

(** A request carrying the JSON text of [b]. *)
Definition carrying (t : route) (key : option jsstring) (b : value)
  : request :=
  let text := JSON_stringify b in
  {| target := t; x_app_key := key;
     sent := Json (N.of_nat (length text)) text |}.

(** The healthy deployment on a disk that gives up two bytes into the
    second audio file of the batch. *)
Definition worn : env :=
  {| APP_KEY := [];
     BASE_URL := str "http://localhost:3000";
     __dirname := str "/srv/app";
     upstream := service (answer (VObj [(str "variants", VArr three)])) 100;
     uuidv4 := fun _ => batch;
     disk_fault := fun p =>
       if bool_decide (p = batch_path ++ str "/vo_2.mp3") then Torn 2
       else Sound;
     stat_order := @rev (jsstring * jsstring);
     stat_order_perm := fun l => Permutation_sym (Permutation_rev l) |}.

(** A disk holding the first audio file of two batches. *)
Definition other : jsstring := str "7c9e6679-7425-40de-944b-e07fc1f90ae7".

Definition shelf : world :=
  {| files := {[ batch_path ++ str "/vo_1.mp3" := mp3;
                 str "/srv/app/public/voiceovers/" ++ other
                 ++ str "/vo_1.mp3" := mp3 ]};
     dirs := {[ str "/srv"; str "/srv/app"; str "/srv/app/public";
                str "/srv/app/public/voiceovers"; batch_path;
                str "/srv/app/public/voiceovers/" ++ other ]};
     calls := [];
     drawn := 2 |}.

End Sample.
(** * Properties *)

Ltac mrun :=
  unfold mbind, M_bind, bind, mret, M_ret, ret, lift, throw.

(** ** Strings and decimal indices *)

Lemma uint_codes_inj (d d' : Decimal.uint) :
  uint_codes d = uint_codes d' → d = d'.
Proof.
  revert d'; induction d; intros d' H; destruct d'; simpl in H;
    try discriminate; try reflexivity;
    injection H as H; f_equal; auto.
Qed.

Lemma dec_inj (n m : nat) : dec n = dec m → n = m.
Proof.
  unfold dec. intros H%uint_codes_inj.
  rewrite <- (DecimalNat.Unsigned.of_to n), <- (DecimalNat.Unsigned.of_to m).
  now rewrite H.
Qed.

Lemma uint_codes_no_slash (d : Decimal.uint) : SLASH ∉ uint_codes d.
Proof.
  induction d; simpl; rewrite ?elem_of_cons; try apply not_elem_of_nil;
    intros [H | H]; try discriminate; tauto.
Qed.

Lemma dec_nonempty (n : nat) : dec n ≠ [].
Proof.
  change [] with (uint_codes Decimal.Nil). intros H%uint_codes_inj.
  assert (Hn := DecimalNat.Unsigned.of_to n). rewrite H in Hn.
  destruct n; [ | discriminate Hn].
  vm_compute in H. discriminate H.
Qed.

Lemma vo_name_inj (i j : nat) : vo_name i = vo_name j → i = j.
Proof.
  unfold vo_name. intros H. apply app_inv_head in H.
  apply app_inv_tail in H. apply dec_inj in H. lia.
Qed.

Lemma trim_start_suffix (s : jsstring) :
  ∃ pre, s = pre ++ trim_start s ∧ forallb is_ws pre = true.
Proof.
  induction s as [ | c s [pre [IH1 IH2]]]; simpl.
  - by exists [].
  - destruct (is_ws c) eqn:Hc.
    + exists (c :: pre). simpl. rewrite Hc, IH2. split; [ | done].
      by rewrite <- IH1.
    + by exists [].
Qed.

Lemma trim_start_head (s : jsstring) (c : N) (t : jsstring) :
  trim_start s = c :: t → is_ws c = false.
Proof.
  induction s as [ | a s IH]; simpl; [done | ].
  destruct (is_ws a) eqn:Ha; [done | ]. intros [= -> _]. done.
Qed.

Lemma forallb_rev (P : N → bool) (l : jsstring) :
  forallb P (rev l) = forallb P l.
Proof.
  induction l as [ | a l IH]; simpl; [done | ].
  rewrite forallb_app, IH. simpl. rewrite andb_true_r. apply andb_comm.
Qed.

Lemma trim_end_prefix (t : jsstring) :
  ∃ post, t = trim_end t ++ post ∧ forallb is_ws post = true.
Proof.
  unfold trim_end. destruct (trim_start_suffix (rev t)) as (pre & H1 & H2).
  exists (rev pre). split.
  - rewrite <- rev_app_distr, <- H1. by rewrite rev_involutive.
  - by rewrite forallb_rev.
Qed.

(** [trim] removes white space at both ends and nothing else. *)
Lemma trim_spec (s : jsstring) :
  (∃ pre post, s = pre ++ trim s ++ post
               ∧ forallb is_ws pre = true ∧ forallb is_ws post = true)
  ∧ (∀ c t, trim s = c :: t → is_ws c = false)
  ∧ (∀ t c, trim s = t ++ [c] → is_ws c = false).
Proof.
  unfold trim. repeat split.
  - destruct (trim_start_suffix s) as (pre & H1 & H2).
    destruct (trim_end_prefix (trim_start s)) as (post & H3 & H4).
    exists pre, post. by rewrite <- H3.
  - intros c t Ht.
    destruct (trim_end_prefix (trim_start s)) as (post & H3 & _).
    rewrite Ht in H3. simpl in H3. by apply trim_start_head in H3.
  - intros t c Ht. unfold trim_end in Ht.
    apply (f_equal (@rev N)) in Ht.
    rewrite rev_involutive, rev_unit in Ht.
    by apply trim_start_head in Ht.
Qed.

(** ** Paths *)

Lemma no_slash_forallb (s : jsstring) :
  forallb (fun c => negb (c =? SLASH)%N) s = true ↔ SLASH ∉ s.
Proof.
  induction s as [ | c s IH]; simpl.
  - split; [ intros _; apply not_elem_of_nil | done ].
  - rewrite andb_true_iff, IH, not_elem_of_cons, negb_true_iff, N.eqb_neq.
    split; intros [H1 H2]; (split; [congruence | tauto]).
Qed.

Lemma vo_name_no_slash (i : nat) : SLASH ∉ vo_name i.
Proof.
  unfold vo_name. rewrite !not_elem_of_app. split; [ | split].
  - by apply no_slash_forallb.
  - apply uint_codes_no_slash.
  - by apply no_slash_forallb.
Qed.

Lemma properb_spec (s : jsstring) : properb s = true ↔ proper s.
Proof.
  unfold properb, proper, is_dot, is_dotdot.
  rewrite !andb_true_iff, !negb_true_iff, !bool_decide_eq_false,
    no_slash_forallb. tauto.
Qed.

Lemma split_nonempty (s : jsstring) : split s ≠ [].
Proof.
  induction s as [ | c s IH]; simpl; [done | ].
  destruct (c =? SLASH)%N; [done | ]. by destruct (split s).
Qed.

Lemma split_app_slash (a b : jsstring) :
  split (a ++ SLASH :: b) = split a ++ split b.
Proof.
  induction a as [ | c a IH]; simpl.
  - done.
  - destruct (c =? SLASH)%N.
    + by rewrite IH.
    + rewrite IH. pose proof (split_nonempty a).
      by destruct (split a).
Qed.

Lemma split_no_slash (s : jsstring) : SLASH ∉ s → split s = [s].
Proof.
  induction s as [ | c s IH]; simpl; [done | ].
  rewrite not_elem_of_cons. intros [Hc Hs].
  apply not_eq_sym in Hc. apply N.eqb_neq in Hc. rewrite Hc.
  by rewrite IH.
Qed.

Lemma split_segments (s : jsstring) : Forall (fun g => SLASH ∉ g) (split s).
Proof.
  induction s as [ | c s IH]; simpl.
  - constructor; [apply not_elem_of_nil | constructor].
  - destruct (c =? SLASH)%N eqn:Hc.
    + constructor; [apply not_elem_of_nil | done].
    + destruct (split s) as [ | h t]; inversion IH; subst.
      * constructor; [ | constructor].
        rewrite not_elem_of_cons. apply N.eqb_neq in Hc.
        split; [congruence | apply not_elem_of_nil].
      * constructor; [ | done].
        rewrite not_elem_of_cons. apply N.eqb_neq in Hc.
        split; [congruence | done].
Qed.

Lemma unsplit_cons (a : jsstring) (rest : list jsstring) :
  rest ≠ [] → unsplit (a :: rest) = a ++ SLASH :: unsplit rest.
Proof. by destruct rest. Qed.

Lemma unsplit_snoc (segs : list jsstring) (b : jsstring) :
  segs ≠ [] → unsplit (segs ++ [b]) = unsplit segs ++ SLASH :: b.
Proof.
  induction segs as [ | a segs IH]; [done | ]. intros _.
  destruct segs as [ | a' segs]; [done | ].
  change ((a :: a' :: segs) ++ [b]) with (a :: ((a' :: segs) ++ [b])).
  rewrite unsplit_cons by (simpl; congruence). rewrite IH by done.
  rewrite (unsplit_cons a (a' :: segs)) by done. by rewrite <- app_assoc.
Qed.

Lemma split_unsplit (segs : list jsstring) :
  segs ≠ [] → Forall (fun g => SLASH ∉ g) segs → split (unsplit segs) = segs.
Proof.
  induction segs as [ | a segs IH]; [done | ]. intros _ H.
  inversion H as [ | ? ? Ha Hs]; subst.
  destruct segs as [ | a' segs].
  - simpl. by apply split_no_slash.
  - rewrite unsplit_cons by done. rewrite split_app_slash.
    rewrite split_no_slash by done. rewrite IH by done. done.
Qed.

Lemma proper_no_slash (segs : list jsstring) :
  Forall proper segs → Forall (fun g => SLASH ∉ g) segs.
Proof.
  intros H. eapply Forall_impl; [exact H | ]. by intros ? (_ & _ & _ & ?).
Qed.

Lemma unsplit_nonempty (segs : list jsstring) :
  segs ≠ [] → Forall proper segs → unsplit segs ≠ [].
Proof.
  destruct segs as [ | a segs]; [done | ]. intros _ H.
  inversion H as [ | ? ? [Ha _] _]; subst.
  destruct segs; simpl; [done | ]. by destruct a.
Qed.

Lemma norm_step_proper (st : list jsstring) (seg : jsstring) :
  proper seg → norm_step false st seg = seg :: st.
Proof.
  intros (H1 & H2 & H3 & _). unfold norm_step, is_dot, is_dotdot.
  rewrite (bool_decide_eq_false_2 _ H1), (bool_decide_eq_false_2 _ H2),
    (bool_decide_eq_false_2 _ H3). done.
Qed.

Lemma norm_fold_proper (segs st : list jsstring) :
  Forall proper segs →
  fold_left (norm_step false) segs st = rev segs ++ st.
Proof.
  revert st. induction segs as [ | a segs IH]; intros st H; simpl; [done | ].
  inversion H; subst. rewrite norm_step_proper by done.
  rewrite IH by done. by rewrite <- app_assoc.
Qed.

Lemma norm_step_keeps (st : list jsstring) (seg : jsstring) :
  SLASH ∉ seg → Forall proper st → Forall proper (norm_step false st seg).
Proof.
  intros Hs Hst. unfold norm_step, is_dot, is_dotdot.
  destruct (bool_decide (seg = [])) eqn:H1; [done | ].
  destruct (bool_decide (seg = [DOT])) eqn:H2; [done | ]. simpl.
  destruct (bool_decide (seg = [DOT; DOT])) eqn:H3.
  - destruct st as [ | top st']; [done | ].
    inversion Hst as [ | ? ? Htop Hst']; subst.
    destruct (bool_decide (top = [DOT; DOT])) eqn:H4; [ | done].
    apply bool_decide_eq_true in H4. destruct Htop as (_ & _ & Hdd & _).
    done.
  - constructor; [ | done].
    apply bool_decide_eq_false in H1, H2, H3. done.
Qed.

Lemma norm_fold_keeps (segs st : list jsstring) :
  Forall (fun g => SLASH ∉ g) segs → Forall proper st →
  Forall proper (fold_left (norm_step false) segs st).
Proof.
  revert st. induction segs as [ | a segs IH]; intros st H Hst; simpl;
    [done | ].
  inversion H; subst. apply IH; [done | ]. by apply norm_step_keeps.
Qed.

(** Without [..] segments the stack of kept segments only grows. *)
Lemma norm_fold_grows (segs st : list jsstring) :
  [DOT; DOT] ∉ segs →
  ∃ more, fold_left (norm_step false) segs st = more ++ st.
Proof.
  revert st. induction segs as [ | a segs IH]; intros st H; simpl.
  - by exists [].
  - rewrite not_elem_of_cons in H. destruct H as [Ha Hs].
    unfold norm_step at 2, is_dot, is_dotdot.
    destruct (bool_decide (a = []) || bool_decide (a = [DOT])).
    + by apply IH.
    + rewrite bool_decide_eq_false_2 by done.
      destruct (IH (a :: st) Hs) as [more Hm].
      exists (more ++ [a]). rewrite Hm. by rewrite <- app_assoc.
Qed.

Lemma ends_slash_snoc (p : jsstring) (c : N) :
  ends_slash (p ++ [c]) = (c =? SLASH)%N.
Proof. unfold ends_slash. by rewrite rev_unit. Qed.

Lemma proper_last (g : jsstring) :
  proper g → ∃ g' c, g = g' ++ [c] ∧ c ≠ SLASH.
Proof.
  intros (Hne & _ & _ & Hs).
  destruct (exists_last Hne) as (g' & c & ->). exists g', c.
  split; [done | ]. intros ->. apply Hs. rewrite elem_of_app, elem_of_cons.
  tauto.
Qed.

Lemma unsplit_ends (segs : list jsstring) (g : jsstring) :
  ∃ pre, unsplit (segs ++ [g]) = pre ++ g.
Proof.
  induction segs as [ | a segs [pre IH]].
  - by exists [].
  - exists (a ++ SLASH :: pre).
    change ((a :: segs) ++ [g]) with (a :: (segs ++ [g])).
    rewrite unsplit_cons by (by destruct segs).
    rewrite IH. by rewrite <- app_assoc.
Qed.

Lemma ends_slash_unsplit (x : jsstring) (segs : list jsstring) :
  segs ≠ [] → Forall proper segs → ends_slash (x ++ unsplit segs) = false.
Proof.
  intros Hne H. destruct (exists_last Hne) as (init & g & ->).
  apply Forall_app in H as [_ Hg]. inversion Hg as [ | ? ? Hp _]; subst.
  destruct (proper_last g Hp) as (g' & c & -> & Hc).
  destruct (unsplit_ends init (g' ++ [c])) as [pre ->].
  rewrite !app_assoc. rewrite ends_slash_snoc. by apply N.eqb_neq.
Qed.

Lemma unsplit_app (A B : list jsstring) :
  A ≠ [] → B ≠ [] → unsplit (A ++ B) = unsplit A ++ SLASH :: unsplit B.
Proof.
  intros HA HB. induction A as [ | a A IH]; [done | ].
  destruct A as [ | a' A].
  - simpl. by destruct B.
  - change ((a :: a' :: A) ++ B) with (a :: ((a' :: A) ++ B)).
    rewrite unsplit_cons by (simpl; congruence).
    rewrite IH by done. rewrite (unsplit_cons a (a' :: A)) by done.
    by rewrite <- app_assoc.
Qed.

Lemma kept_proper (a : jsstring) : Forall proper (kept a).
Proof.
  unfold kept, norm_segs. apply Forall_rev.
  apply norm_fold_keeps; [apply split_segments | constructor].
Qed.

Lemma path_normalize_abs (p : jsstring) :
  is_absolute p = true →
  unsplit (kept p) ≠ [] →
  path_normalize p
  = SLASH :: (if ends_slash p then unsplit (kept p) ++ [SLASH]
              else unsplit (kept p)).
Proof.
  intros Habs Hne. unfold path_normalize.
  destruct p as [ | c p]; [done | ].
  rewrite Habs. simpl negb. fold (kept (c :: p)).
  by destruct (unsplit (kept (c :: p))).
Qed.

(** Joining proper segments onto an absolute path. *)
Lemma path_join_abs (a : jsstring) (tail : list jsstring) :
  is_absolute a = true → tail ≠ [] → Forall proper tail →
  path_join (a :: tail) = SLASH :: unsplit (kept a ++ tail).
Proof.
  intros Habs Hne Ht.
  assert (Ha : a ≠ []) by (by destruct a).
  assert (Hf : List.filter (fun a => negb (bool_decide (a = []))) (a :: tail)
               = a :: tail).
  { simpl. rewrite (bool_decide_eq_false_2 _ Ha). simpl. f_equal.
    clear Hne. induction Ht as [ | g tail [Hg _] _ IH]; simpl; [done | ].
    rewrite (bool_decide_eq_false_2 _ Hg). simpl. by rewrite IH. }
  unfold path_join. rewrite Hf. rewrite unsplit_cons by done.
  assert (Hk : kept (a ++ SLASH :: unsplit tail) = kept a ++ tail).
  { unfold kept, norm_segs. rewrite split_app_slash.
    rewrite split_unsplit
      by first [done | by apply proper_no_slash].
    rewrite fold_left_app. rewrite norm_fold_proper by done.
    rewrite rev_app_distr. by rewrite rev_involutive. }
  rewrite path_normalize_abs.
  - rewrite Hk.
    change (a ++ SLASH :: unsplit tail) with (a ++ [SLASH] ++ unsplit tail).
    rewrite app_assoc. by rewrite ends_slash_unsplit.
  - by destruct a.
  - rewrite Hk. apply unsplit_nonempty; [by destruct (kept a), tail | ].
    apply Forall_app. split; [apply kept_proper | done].
Qed.

Lemma kept_canonical (S : list jsstring) :
  S ≠ [] → Forall proper S → kept (SLASH :: unsplit S) = S.
Proof.
  intros Hne HS. unfold kept, norm_segs.
  change (split (SLASH :: unsplit S)) with ([] :: split (unsplit S)).
  rewrite split_unsplit
    by first [done | by apply proper_no_slash].
  simpl fold_left. change (norm_step false [] []) with (@nil jsstring).
  rewrite norm_fold_proper by done. rewrite app_nil_r. apply rev_involutive.
Qed.

(** A file name joined onto a normalized absolute directory. *)
Lemma path_join_file (S : list jsstring) (name : jsstring) :
  S ≠ [] → Forall proper S → proper name →
  path_join [SLASH :: unsplit S; name] = (SLASH :: unsplit S) ++ SLASH :: name.
Proof.
  intros Hne HS Hn. rewrite path_join_abs; try done.
  - rewrite kept_canonical by done. rewrite unsplit_snoc by done. done.
  - by constructor.
Qed.

Lemma after_spec (pre p t : jsstring) : after pre p = Some t ↔ p = pre ++ t.
Proof.
  revert p. induction pre as [ | a pre IH]; intros p; simpl.
  - split; [by intros [= ->] | by intros ->].
  - destruct p as [ | b p]; [done | ].
    destruct (a =? b)%N eqn:Hab.
    + apply N.eqb_eq in Hab as ->. rewrite IH.
      split; [by intros -> | by intros [= ->]].
    + apply N.eqb_neq in Hab. split; [done | by intros [= ? ?]].
Qed.

Lemma withinb_spec (root p : jsstring) : withinb root p = true ↔ within root p.
Proof.
  unfold withinb, within. rewrite orb_true_iff, bool_decide_eq_true.
  split; (intros [H | H]; [by left | right]).
  - destruct (after (root ++ [SLASH]) p) as [t | ] eqn:Ha; [ | done].
    exists t. apply after_spec in Ha. by rewrite <- app_assoc in Ha.
  - destruct H as [t ->].
    assert (Ha : after (root ++ [SLASH]) (root ++ SLASH :: t) = Some t).
    { apply after_spec. by rewrite <- app_assoc. }
    by rewrite Ha.
Qed.

(** A URL path below [/public/voiceovers/] without [..] segments resolves
    inside the asset store root. *)
Lemma resolve_within (V : env) (rest : jsstring) :
  is_absolute (__dirname V) = true →
  [DOT; DOT] ∉ split rest →
  within (asset_root V)
    (path_join [__dirname V; str "/public/voiceovers/" ++ rest]).
Proof.
  intros Habs Hrest. set (a := __dirname V) in *.
  assert (Hpub : proper (str "public")) by (by apply properb_spec).
  assert (Hvo : proper (str "voiceovers")) by (by apply properb_spec).
  unfold asset_root. fold a.
  assert (Hpv : Forall proper [str "public"; str "voiceovers"]).
  { constructor; [done | ]. constructor; [done | constructor]. }
  rewrite (path_join_abs a [str "public"; str "voiceovers"]) by done.
  set (T := kept a ++ [str "public"; str "voiceovers"]).
  assert (HT : Forall proper T).
  { apply Forall_app. split; [apply kept_proper | done]. }
  assert (HTne : T ≠ []) by (unfold T; by destruct (kept a)).
  unfold path_join.
  assert (Ha : a ≠ []) by (by destruct a).
  simpl List.filter. rewrite (bool_decide_eq_false_2 _ Ha). simpl.
  set (p := a ++ _).
  assert (Hp : p = a ++ SLASH :: (SLASH :: str "public" ++ SLASH ::
                       str "voiceovers" ++ SLASH :: rest)) by done.
  assert (Hk : ∃ more, kept p = T ++ more ∧ Forall proper more).
  { unfold kept, norm_segs. rewrite Hp. rewrite split_app_slash.
    change (split (SLASH :: ?x)) with ([] :: split x).
    rewrite !split_app_slash.
    rewrite (split_no_slash (str "public")) by (by destruct Hpub as (_&_&_&?)).
    rewrite (split_no_slash (str "voiceovers"))
      by (by destruct Hvo as (_&_&_&?)).
    rewrite fold_left_app. simpl fold_left at 1.
    set (st0 := fold_left (norm_step false) (split a) []).
    change (norm_step false st0 []) with st0.
    rewrite (norm_step_proper st0) by done.
    rewrite (norm_step_proper (_ :: st0)) by done.
    destruct (norm_fold_grows (split rest)
                (str "voiceovers" :: str "public" :: st0) Hrest)
      as [more Hm].
    assert (Hall : Forall proper (more ++ str "voiceovers" :: str "public" :: st0)).
    { rewrite <- Hm. apply norm_fold_keeps; [apply split_segments | ].
      constructor; [done | ]. constructor; [done | ].
      apply norm_fold_keeps; [apply split_segments | constructor]. }
    rewrite Hm. exists (rev more). split.
    - rewrite rev_app_distr. simpl rev. unfold T, kept, norm_segs.
      fold st0. rewrite <- !app_assoc. done.
    - apply Forall_rev. by apply Forall_app in Hall as [? _]. }
  destruct Hk as (more & Hk & Hmore).
  rewrite path_normalize_abs.
  - rewrite Hk. destruct more as [ | m more].
    + rewrite app_nil_r. destruct (ends_slash p); [right | by left].
      by exists [].
    + right. rewrite unsplit_app by done.
      destruct (ends_slash p).
      * exists (unsplit (m :: more) ++ [SLASH]).
        by rewrite <- !app_assoc.
      * by exists (unsplit (m :: more)).
  - subst p. by destruct a.
  - rewrite Hk. apply unsplit_nonempty; [by destruct T | ].
    by apply Forall_app.
Qed.

(** ** Paths that do not end in a slash, on the disk *)

Lemma strip_slashes_plain (p : jsstring) :
  ends_slash p = false → p ≠ [] → strip_slashes p = p.
Proof.
  unfold ends_slash, strip_slashes. intros He Hne.
  destruct (rev p) as [ | c r] eqn:Hr.
  - apply (f_equal (@rev N)) in Hr. rewrite rev_involutive in Hr. done.
  - simpl. rewrite He. rewrite <- Hr, rev_involutive. by destruct p.
Qed.

Lemma is_directory_plain (p : jsstring) (w : world) :
  ends_slash p = false → p ≠ [] →
  is_directory p w = bool_decide (p ∈ dirs w).
Proof.
  intros He Hne. unfold is_directory. rewrite strip_slashes_plain by done.
  assert (Hroot : p ≠ [SLASH]) by (intros ->; done).
  by rewrite (bool_decide_eq_false_2 _ Hroot).
Qed.

Lemma existsSync_plain (p : jsstring) (w : world) :
  ends_slash p = false → p ≠ [] →
  existsSync p w
  = bool_decide (p ∈ dom (files w)) || bool_decide (p ∈ dirs w).
Proof.
  intros He Hne. unfold existsSync.
  by rewrite He, is_directory_plain.
Qed.

Lemma canonical_plain (segs : list jsstring) :
  segs ≠ [] → Forall proper segs →
  ends_slash (SLASH :: unsplit segs) = false ∧ SLASH :: unsplit segs ≠ [].
Proof.
  intros Hne Hp. split; [ | done].
  by apply (ends_slash_unsplit [SLASH]).
Qed.

(** * The synthesis loop *)

Section Loop.

Variable E : engine.
Variable V : env.
Variable batchId : jsstring.

Hypothesis Habs : is_absolute (__dirname V) = true.
Hypothesis Hid : proper batchId.

Local Abbreviation dir := (batch_dir V batchId).
Local Abbreviation SEGS := (batch_segs V batchId).

Lemma segs_proper : Forall proper SEGS.
Proof.
  apply Forall_app. split; [apply kept_proper | ].
  constructor; [by apply properb_spec | ].
  constructor; [by apply properb_spec | ].
  constructor; [done | constructor].
Qed.

Lemma segs_nonempty : SEGS ≠ [].
Proof. unfold batch_segs. by destruct (kept (__dirname V)). Qed.

Lemma batch_dir_canon : dir = SLASH :: unsplit SEGS.
Proof.
  unfold batch_dir. apply path_join_abs; [done | done | ].
  constructor; [by apply properb_spec | ].
  constructor; [by apply properb_spec | ].
  constructor; [done | constructor].
Qed.

Lemma vo_name_proper (i : nat) : proper (vo_name i).
Proof.
  repeat split; try (unfold vo_name; simpl; discriminate).
  apply vo_name_no_slash.
Qed.

Lemma audio_path_join (i : nat) :
  path_join [dir; vo_name i] = audio_path V batchId i.
Proof.
  unfold audio_path. rewrite batch_dir_canon.
  apply path_join_file; [apply segs_nonempty | apply segs_proper | ].
  apply vo_name_proper.
Qed.

Lemma drop_seg_app (a x : jsstring) :
  SLASH ∉ a → drop_seg (a ++ SLASH :: x) = SLASH :: x.
Proof.
  induction a as [ | c a IH]; simpl.
  - done.
  - rewrite not_elem_of_cons. intros [Hc Ha].
    apply not_eq_sym, N.eqb_neq in Hc. rewrite Hc. by apply IH.
Qed.

Lemma parent_child (d name : jsstring) :
  d ≠ [] → SLASH ∉ name → parent (d ++ SLASH :: name) = d.
Proof.
  intros Hd Hn. unfold parent.
  rewrite rev_app_distr. change (rev (SLASH :: name)) with (rev name ++ [SLASH]).
  rewrite <- app_assoc. change ([SLASH] ++ rev d) with (SLASH :: rev d).
  rewrite drop_seg_app.
  - change (drop 1 (SLASH :: rev d)) with (rev d).
    rewrite rev_involutive. by destruct d.
  - intros H. by apply list_elem_of_In, in_rev, list_elem_of_In in H.
Qed.

Lemma parent_audio (i : nat) : parent (audio_path V batchId i) = dir.
Proof.
  unfold audio_path. apply parent_child.
  - by rewrite batch_dir_canon.
  - apply vo_name_no_slash.
Qed.

Lemma dir_segments :
  List.filter (fun a => negb (bool_decide (a = []))) (split dir) = SEGS.
Proof.
  rewrite batch_dir_canon.
  change (split (SLASH :: unsplit SEGS)) with ([] :: split (unsplit SEGS)).
  rewrite split_unsplit
    by first [apply segs_nonempty | apply proper_no_slash, segs_proper].
  change (List.filter ?f ([] :: SEGS)) with (List.filter f SEGS).
  generalize segs_proper. generalize SEGS. intros l Hl.
  induction Hl as [ | g l [Hg _] _ IH]; simpl; [done | ].
  rewrite (bool_decide_eq_false_2 _ Hg). simpl. by rewrite IH.
Qed.

Lemma dir_ancestor : dir ∈ ancestors dir.
Proof.
  unfold ancestors. rewrite dir_segments.
  apply list_elem_of_In, in_map_iff. exists (length SEGS). split.
  - rewrite firstn_all. by rewrite batch_dir_canon.
  - apply in_seq. pose proof segs_nonempty. destruct SEGS; [done | simpl; lia].
Qed.

Lemma audio_not_ancestor (i : nat) :
  audio_path V batchId i ∉ ancestors dir.
Proof.
  unfold ancestors. rewrite dir_segments. intros H.
  apply list_elem_of_In, in_map_iff in H.
  destruct H as (k & Hk & Hin). apply in_seq in Hin.
  unfold audio_path in Hk.
  rewrite batch_dir_canon in Hk. injection Hk as Hk.
  rewrite <- unsplit_snoc in Hk by apply segs_nonempty.
  apply (f_equal split) in Hk.
  assert (Hp : Forall proper (take k SEGS)) by (apply Forall_take, segs_proper).
  assert (Hne : take k SEGS ≠ []).
  { pose proof segs_nonempty. destruct SEGS, k; simpl; try done. lia. }
  rewrite split_unsplit in Hk by first [done | by apply proper_no_slash].
  rewrite split_unsplit in Hk.
  - apply (f_equal length) in Hk. rewrite length_take, length_app in Hk.
    simpl in Hk. lia.
  - by destruct SEGS.
  - apply proper_no_slash, Forall_app. split; [apply segs_proper | ].
    constructor; [apply vo_name_proper | constructor].
Qed.

Lemma audio_in_dir (i : nat) : in_dir dir (audio_path V batchId i) = true.
Proof.
  unfold in_dir, audio_path.
  assert (Ha : after (dir ++ [SLASH]) (dir ++ SLASH :: vo_name i)
               = Some (vo_name i)).
  { apply after_spec. by rewrite <- app_assoc. }
  rewrite Ha. apply andb_true_iff. split.
  - apply negb_true_iff, bool_decide_eq_false. apply vo_name_proper.
  - apply no_slash_forallb, vo_name_no_slash.
Qed.

Lemma in_dir_below (d p : jsstring) : in_dir d p = true → below d p = true.
Proof. unfold in_dir, below. by destruct (after _ _). Qed.

Lemma audio_path_inj (i j : nat) :
  audio_path V batchId i = audio_path V batchId j → i = j.
Proof.
  unfold audio_path. intros H. apply vo_name_inj.
  apply (app_inv_head (batch_dir V batchId ++ [SLASH])).
  by rewrite <- !app_assoc.
Qed.

Lemma dir_plain : ends_slash dir = false ∧ dir ≠ [].
Proof.
  rewrite batch_dir_canon. apply canonical_plain;
    [apply segs_nonempty | apply segs_proper].
Qed.

Lemma audio_plain (i : nat) :
  ends_slash (audio_path V batchId i) = false ∧ audio_path V batchId i ≠ [].
Proof.
  unfold audio_path. split; [ | by destruct dir].
  change (SLASH :: vo_name i) with ([SLASH] ++ unsplit [vo_name i]).
  rewrite app_assoc. apply ends_slash_unsplit; [done | ].
  constructor; [apply vo_name_proper | constructor].
Qed.

Local Abbreviation ready := (ready V batchId).
Local Abbreviation logged := (logged V batchId).

(** Writing an audio file of the batch once its directory exists. *)
Lemma write_audio (i : nat) (buf : list N) (w : world) :
  ready w →
  writeFileSync V (audio_path V batchId i) buf w
  = match disk_fault V (audio_path V batchId i) with
    | Sound =>
        (Ret tt, {| files := <[audio_path V batchId i := buf]> (files w);
                    dirs := dirs w; calls := calls w; drawn := drawn w |})
    | Denied => (Throw FsErr, w)
    | Torn k =>
        (Throw FsErr,
         {| files := <[audio_path V batchId i := take k buf]> (files w);
            dirs := dirs w; calls := calls w; drawn := drawn w |})
    end.
Proof.
  intros [Hd Hp]. unfold writeFileSync.
  destruct (audio_plain i) as [He Hne]. destruct dir_plain as [Hde Hdne].
  rewrite parent_audio, He.
  rewrite (is_directory_plain _ _ He Hne), (is_directory_plain _ _ Hde Hdne).
  by rewrite (bool_decide_eq_false_2 _ (Hp i)), (bool_decide_eq_true_2 _ Hd).
Qed.

Lemma ready_logged (w : world) (script : jsstring) (bytes : list N)
    (i : nat) :
  ready w → ready (logged w script bytes i).
Proof. done. Qed.

Lemma synth_one_ok (i : nat) (v : value) (w : world) (script : jsstring)
    (bytes : list N) :
  ready w →
  synthesized V batchId (length (calls w)) i v = Some (script, bytes) →
  shaped v = true →
  synth_one E V batchId dir i v w
  = (Ret (entry_of E V batchId i v), logged w script bytes i).
Proof.
  intros [Hd Hp] Hsyn Hsh. unfold synthesized in Hsyn.
  destruct v as [ | | | | | | o]; try done.
  destruct (own o (str "voiceover")) as [ | | | | s | | ] eqn:Hvo; try done.
  destruct (upstream V (length (calls w)) (SpeechCall (trim s)))
    as [ | r] eqn:Hup; [done | ].
  destruct (disk_fault V (audio_path V batchId i)) eqn:Hfault; try done.
  destruct (ok r) eqn:Hok; [ | done].
  injection Hsyn as <- <-.
  unfold synth_one. mrun. simpl get.
  change (key_name Kvoiceover) with (str "voiceover"). rewrite Hvo.
  simpl call_trim. cbv iota beta.
  rewrite audio_path_join. unfold ttsToMp3. mrun.
  unfold fetch at 1. rewrite Hup, Hok. cbn [negb].
  rewrite write_audio by done. rewrite Hfault.
  cbn beta iota delta [dirs files calls drawn].
  unfold shaped in Hsh. apply andb_true_iff in Hsh as [Hst Hsl].
  unfold entry_of, logged, ToString.
  cbn beta iota delta [get_opt get] in *.
  change (key_name Kvoiceover) with (str "voiceover"). rewrite Hvo.
  cbn [key_name] in *. rewrite Hst.
  by destruct (slice6 (or_empty (own o (str "hashtags")))) as [t | ].
Qed.

Lemma synth_one_fails (i : nat) (v : value) (w : world) :
  ready w →
  synthesized V batchId (length (calls w)) i v = None →
  ∃ e w', synth_one E V batchId dir i v w = (Throw e, w')
          ∧ dirs w' = dirs w ∧ drawn w' = drawn w
          ∧ (files w' = files w
             ∨ ∃ k bytes,
                 disk_fault V (audio_path V batchId i) = Torn k
                 ∧ files w'
                   = <[audio_path V batchId i := take k bytes]> (files w)).
Proof.
  intros [Hd Hp] Hsyn. unfold synthesized in Hsyn.
  unfold synth_one. mrun.
  destruct v as [ | | | | | | o];
    try (eexists _, _; split; [done | by auto]).
  simpl get. change (key_name Kvoiceover) with (str "voiceover").
  destruct (own o (str "voiceover")) as [ | | | | s | | ] eqn:Hvo;
    try (eexists _, _; split; [done | by auto]).
  simpl call_trim. cbv iota beta.
  rewrite audio_path_join. unfold ttsToMp3. mrun. unfold fetch at 1.
  destruct (upstream V (length (calls w)) (SpeechCall (trim s)))
    as [ | r] eqn:Hup; [eexists _, _; split; [done | by auto] | ].
  destruct (ok r) eqn:Hok; cbn [negb];
    [ | eexists _, _; split; [done | by auto]].
  rewrite write_audio by done.
  destruct (disk_fault V (audio_path V batchId i)) as [ | | k] eqn:Hfault;
    [done | eexists _, _; split; [done | by auto] | ].
  eexists _, _. split; [done | ]. split; [done | ]. split; [done | ].
  right. by exists k, (body_bytes r).
Qed.

Lemma synth_loop_unfold (fuel : nat) (variants : value) (i : nat)
    (results : list file_entry) (w : world) :
  synth_loop E V (S fuel) batchId dir variants i results w
  = match below_length E variants i with
    | Ret true =>
        match index variants i with
        | Ret v =>
            match synth_one E V batchId dir i v w with
            | (Ret e, w') =>
                synth_loop E V fuel batchId dir variants (S i)
                  (results ++ [e]) w'
            | (Throw e, w') => (Throw e, w')
            end
        | Throw e => (Throw e, w)
        end
    | Ret false => (Ret results, w)
    | Throw e => (Throw e, w)
    end.
Proof.
  simpl. mrun.
  destruct (below_length E variants i) as [[ | ] | ]; try done;
    by destruct (index variants i).
Qed.

(** On arrays and strings the loop stops at the length: fuel beyond it
    is never used. *)
Lemma synth_loop_fuel (variants : value) (n : nat) :
  (∀ i, below_length E variants i = Ret (i <? n)) →
  ∀ (fuel extra i : nat) (results : list file_entry) (w : world),
    n ≤ fuel + i →
    synth_loop E V (S fuel) batchId dir variants i results w
    = synth_loop E V (S (fuel + extra)) batchId dir variants i results w.
Proof.
  intros Hlen. induction fuel as [ | fuel IH]; intros extra i results w Hn;
    rewrite !synth_loop_unfold, Hlen.
  - assert (Hi : (i <? n) = false) by (apply Nat.ltb_ge; lia).
    by rewrite Hi.
  - destruct (i <? n) eqn:Hi; [ | done].
    destruct (index variants i) as [v | ]; [ | done].
    destruct (synth_one E V batchId dir i v w) as [[e | ] w1]; [ | done].
    apply IH. lia.
Qed.

(** Running the loop over a stretch [mid] of variants that all succeed. *)
Lemma synth_loop_steps (mid : list value) :
  ∀ (pre suf : list value) (results : list file_entry) (w : world),
    ready w →
    forallb shaped mid = true →
    all_synthesized V batchId (length (calls w)) (length pre) mid = true →
    ∃ w',
      synth_loop E V (S (length mid + length suf)) batchId dir
        (VArr (pre ++ mid ++ suf)) (length pre) results w
      = synth_loop E V (S (length suf)) batchId dir
          (VArr (pre ++ mid ++ suf)) (length pre + length mid)
          (results ++ entries_of E V batchId (length pre) mid) w'
      ∧ ready w' ∧ dirs w' = dirs w ∧ drawn w' = drawn w
      ∧ files w'
        = written V batchId (length (calls w)) (length pre) mid (files w)
      ∧ length (calls w') = length (calls w) + length mid.
Proof.
  induction mid as [ | v mid IH]; intros pre suf results w Hr Hsh Hall.
  - exists w. simpl. rewrite Nat.add_0_r, app_nil_r. by rewrite Nat.add_0_r.
  - simpl in Hsh. apply andb_true_iff in Hsh as [Hv Hsh].
    simpl in Hall.
    destruct (synthesized V batchId (length (calls w)) (length pre) v)
      as [[script bytes] | ] eqn:Hsyn; [ | done].
    change (length (v :: mid) + length suf)
      with (S (length mid + length suf)).
    change ((v :: mid) ++ suf) with (v :: mid ++ suf).
    rewrite synth_loop_unfold. cbn [below_length index].
    assert (Hlt : (length pre <? length (pre ++ v :: mid ++ suf)) = true).
    { apply Nat.ltb_lt. rewrite !length_app. simpl. lia. }
    rewrite Hlt.
    assert (Hnth : nth (length pre) (pre ++ v :: mid ++ suf) VUndef = v).
    { by rewrite app_nth2, Nat.sub_diag by lia. }
    rewrite Hnth. rewrite (synth_one_ok _ _ _ script bytes) by done.
    assert (Hvs : pre ++ v :: mid ++ suf = (pre ++ [v]) ++ mid ++ suf).
    { by rewrite <- app_assoc. }
    assert (Hlen : S (length pre) = length (pre ++ [v])).
    { rewrite length_app. simpl. lia. }
    rewrite Hvs, Hlen.
    destruct (IH (pre ++ [v]) suf
                (results ++ [entry_of E V batchId (length pre) v])
                (logged w script bytes (length pre)))
      as (w' & Hrun & Hr' & Hd & Hn & Hf & Hc).
    + by apply ready_logged.
    + done.
    + unfold logged. cbn [calls]. rewrite length_app. simpl length.
      rewrite <- Hlen. by rewrite Nat.add_1_r.
    + exists w'. rewrite Hrun. rewrite <- Hlen.
      repeat split; try done.
      * simpl length. rewrite Nat.add_succ_r. simpl entries_of.
        by rewrite <- (app_assoc results).
      * apply Hr'.
      * apply Hr'.
      * rewrite Hf. simpl. rewrite Hsyn.
        unfold logged. cbn [calls files]. rewrite length_app. simpl length.
        by rewrite Nat.add_1_r, <- Hlen.
      * rewrite Hc. unfold logged. cbn [calls]. rewrite length_app.
        simpl. lia.
Qed.

(** Every variant succeeds: the loop returns one entry per variant. *)
Lemma synth_loop_all (vs : list value) (w : world) :
  ready w →
  forallb shaped vs = true →
  all_synthesized V batchId (length (calls w)) 0 vs = true →
  ∃ w',
    synth_loop E V (S (length vs)) batchId dir (VArr vs) 0 [] w
    = (Ret (entries_of E V batchId 0 vs), w')
    ∧ dirs w' = dirs w ∧ drawn w' = drawn w
    ∧ files w' = written V batchId (length (calls w)) 0 vs (files w).
Proof.
  intros Hr Hsh Hall.
  destruct (synth_loop_steps vs [] [] [] w Hr Hsh Hall)
    as (w' & Hrun & _ & Hd & Hn & Hf & _).
  change (length (@nil value)) with 0 in *.
  rewrite ?app_nil_l, ?app_nil_r, ?Nat.add_0_l, ?Nat.add_0_r in Hrun.
  exists w'. rewrite Hrun. repeat split; try done.
  rewrite synth_loop_unfold. cbn [below_length].
  by rewrite Nat.ltb_irrefl.
Qed.

(** The variant after [pre] fails: the loop throws, and the files of
    [pre] are those on disk. *)
Lemma synth_loop_breaks (pre : list value) (v : value) (suf : list value)
    (w : world) :
  ready w →
  forallb shaped pre = true →
  all_synthesized V batchId (length (calls w)) 0 pre = true →
  synthesized V batchId (length (calls w) + length pre) (length pre) v
  = None →
  ∃ e w',
    synth_loop E V (S (length (pre ++ v :: suf))) batchId dir
      (VArr (pre ++ v :: suf)) 0 [] w
    = (Throw e, w')
    ∧ dirs w' = dirs w ∧ drawn w' = drawn w
    ∧ (files w' = written V batchId (length (calls w)) 0 pre (files w)
       ∨ ∃ k bytes,
           disk_fault V (audio_path V batchId (length pre)) = Torn k
           ∧ files w'
             = <[audio_path V batchId (length pre) := take k bytes]>
                 (written V batchId (length (calls w)) 0 pre (files w))).
Proof.
  intros Hr Hsh Hall Hfail.
  destruct (synth_loop_steps pre [] (v :: suf) [] w Hr Hsh Hall)
    as (w1 & Hrun & Hr1 & Hd & Hn & Hf & Hc).
  change (length (@nil value)) with 0 in *.
  rewrite ?app_nil_l, ?Nat.add_0_l in Hrun.
  rewrite length_app. rewrite Hrun. rewrite synth_loop_unfold.
  cbn [below_length index].
  assert (Hlt : (length pre <? length (pre ++ v :: suf)) = true).
  { apply Nat.ltb_lt. rewrite length_app. simpl. lia. }
  rewrite Hlt.
  assert (Hnth : nth (length pre) (pre ++ v :: suf) VUndef = v).
  { by rewrite app_nth2, Nat.sub_diag by lia. }
  rewrite Hnth. rewrite <- Hc in Hfail.
  destruct (synth_one_fails (length pre) v w1 Hr1 Hfail)
    as (e & w2 & Hone & Hd2 & Hn2 & Hf2).
  exists e, w2. rewrite Hone.
  split; [done | ]. split; [congruence | ]. split; [congruence | ].
  destruct Hf2 as [Hf2 | (k & bytes & Hk & Hf2)].
  - left. congruence.
  - right. exists k, bytes. split; [done | ]. congruence.
Qed.

(** Files left by a run of successful syntheses. *)
Lemma written_other (vs : list value) :
  ∀ (n i : nat) (m : gmap jsstring (list N)) (p : jsstring),
    (∀ j, p ≠ audio_path V batchId (i + j)) →
    written V batchId n i vs m !! p = m !! p.
Proof.
  induction vs as [ | v vs IH]; intros n i m p Hp; simpl; [done | ].
  destruct (synthesized V batchId n i v) as [[script bytes] | ]; [ | done].
  rewrite IH.
  - apply lookup_insert_ne. specialize (Hp 0). rewrite Nat.add_0_r in Hp.
    congruence.
  - intros j. specialize (Hp (S j)).
    by rewrite Nat.add_succ_r in Hp.
Qed.

Lemma written_lookup (vs : list value) :
  ∀ (n i : nat) (m : gmap jsstring (list N)) (j : nat) (v : value),
    all_synthesized V batchId n i vs = true →
    vs !! j = Some v →
    ∃ script bytes,
      synthesized V batchId (n + j) (i + j) v = Some (script, bytes)
      ∧ written V batchId n i vs m !! audio_path V batchId (i + j)
        = Some bytes.
Proof.
  induction vs as [ | u vs IH]; intros n i m j v Hall Hj; [done | ].
  simpl in Hall. simpl.
  destruct (synthesized V batchId n i u) as [[script bytes] | ] eqn:Hsyn;
    [ | done].
  destruct j as [ | j].
  - injection Hj as ->. rewrite !Nat.add_0_r. exists script, bytes.
    split; [done | ]. rewrite written_other.
    + apply lookup_insert_eq.
    + intros j Heq. apply audio_path_inj in Heq. lia.
  - simpl in Hj. rewrite !Nat.add_succ_r.
    apply (IH (S n) (S i) _ j v Hall Hj).
Qed.

Lemma written_dom (vs : list value) :
  ∀ (n i : nat) (m : gmap jsstring (list N)),
    all_synthesized V batchId n i vs = true →
    dom (written V batchId n i vs m)
    = dom m ∪ list_to_set (audio_path V batchId <$> seq i (length vs)).
Proof.
  induction vs as [ | v vs IH]; intros n i m Hall; simpl.
  - set_solver.
  - simpl in Hall.
    destruct (synthesized V batchId n i v) as [[script bytes] | ]; [ | done].
    rewrite IH by done. rewrite dom_insert_L. set_solver.
Qed.

(** In a directory that held nothing, the loop leaves exactly one file
    per variant. *)
Lemma dir_files_set (vs : list value) (n : nat) (w w' : world) :
  (∀ p, p ∈ dom (files w) → below dir p = false) →
  all_synthesized V batchId n 0 vs = true →
  files w' = written V batchId n 0 vs (files w) →
  dir_files dir w'
  = list_to_set (audio_path V batchId <$> seq 0 (length vs)).
Proof.
  intros Hvac Hall Hf.
  unfold dir_files. rewrite Hf, written_dom by done.
  apply set_eq. intros p.
  rewrite elem_of_filter, elem_of_union, elem_of_list_to_set. split.
  - intros [Hin [Hp | Hp]]; [ | done].
    apply in_dir_below in Hin. rewrite (Hvac p Hp) in Hin. done.
  - intros Hp. split; [ | by right].
    apply list_elem_of_fmap in Hp as (i & -> & _). apply audio_in_dir.
Qed.

Lemma dir_files_written (vs : list value) (n : nat) (w w' : world) :
  (∀ p, p ∈ dom (files w) → below dir p = false) →
  all_synthesized V batchId n 0 vs = true →
  files w' = written V batchId n 0 vs (files w) →
  size (dir_files dir w') = length vs.
Proof.
  intros Hvac Hall Hf.
  rewrite (dir_files_set vs n w w') by done. rewrite size_list_to_set.
  - by rewrite length_fmap, length_seq.
  - apply NoDup_fmap_2; [ | apply NoDup_seq].
    intros i j. apply audio_path_inj.
Qed.

(** The same directory when the write of the next file was cut short. *)
Lemma dir_files_torn (vs : list value) (n : nat) (w w' : world)
    (bytes : list N) (p : jsstring) :
  (∀ p, p ∈ dom (files w) → below dir p = false) →
  all_synthesized V batchId n 0 vs = true →
  files w'
  = <[audio_path V batchId (length vs) := bytes]>
      (written V batchId n 0 vs (files w)) →
  p ∈ dir_files dir w' →
  ∃ i, i ≤ length vs ∧ p = audio_path V batchId i.
Proof.
  intros Hvac Hall Hf Hp. unfold dir_files in Hp.
  apply elem_of_filter in Hp as [Hin Hp].
  rewrite Hf, dom_insert in Hp. apply elem_of_union in Hp as [Hp | Hp].
  - apply elem_of_singleton in Hp. exists (length vs). by split.
  - rewrite written_dom in Hp by done.
    apply elem_of_union in Hp as [Hp | Hp].
    + apply in_dir_below in Hin. rewrite (Hvac p Hp) in Hin. done.
    + apply elem_of_list_to_set, list_elem_of_fmap in Hp as (i & -> & Hi).
      apply elem_of_seq in Hi. exists i. split; [lia | done].
Qed.

End Loop.

(** * The handlers *)

Section Handlers.

Variable E : engine.
Variable V : env.

(** ** Validation of the request *)

Lemma generate_rejects (body specs : value) (w : world) :
  get body Kspecs = Ret specs →
  truthy (get_opt specs Kmake) = false
  ∨ truthy (get_opt specs Kmodel) = false →
  generate E V body w
  = (RJson 400 (BError (str "Missing required specs: make, model.")), w).
Proof.
  intros Hs Hf. unfold generate, try_catch. mrun. rewrite Hs.
  destruct Hf as [-> | ->]; [done | ].
  by rewrite orb_true_r.
Qed.

(** C3. A specs record without [make] or without [model] is answered 400
    with the validation message, and the world is left as it was: no
    upstream call is logged, no identifier is drawn, no directory or
    file is created. *)
Theorem generate_missing_field (body specs : value) (w : world) :
  get body Kspecs = Ret specs →
  get_opt specs Kmake = VUndef ∨ get_opt specs Kmodel = VUndef →
  generate E V body w
  = (RJson 400 (BError (str "Missing required specs: make, model.")), w).
Proof.
  intros Hs Hm. apply (generate_rejects body specs w Hs).
  destruct Hm as [-> | ->]; [by left | by right].
Qed.

(** C10. The presence check is a truthiness check: a [make] or [model]
    that is present but falsy (the empty string, [null], [false], zero)
    is answered exactly as a missing one. *)
Theorem generate_falsy_field (body specs : value) (w : world) :
  get body Kspecs = Ret specs →
  truthy (get_opt specs Kmake) = false
  ∨ truthy (get_opt specs Kmodel) = false →
  generate E V body w
  = (RJson 400 (BError (str "Missing required specs: make, model.")), w)
  ∧ generate E V body w
    = generate E V (VObj [(str "specs", VObj [])]) w.
Proof.
  intros Hs Hf. split.
  - by apply (generate_rejects body specs).
  - rewrite (generate_rejects body specs w Hs Hf).
    symmetry. apply (generate_rejects _ (VObj [])); [done | by left].
Qed.

(** C7. An empty file list is answered 400 with "No files selected.";
    the response is not an archive and the world is untouched. *)
Theorem zip_empty_list (body : value) (w : world) :
  get body Kfiles = Ret (VArr []) →
  zip E V body w = (RJson 400 (BError (str "No files selected.")), w).
Proof.
  intros Hf. unfold zip, try_catch. mrun. by rewrite Hf.
Qed.

(** ** The app-key middleware *)

Lemma app_parsed (r : request) (b : value) (w : world) :
  req_body E r = Body b →
  app E V r w
  = match target r with
    | GetHealth => (RJson 200 BHealth, w)
    | _ =>
        if bool_decide (APP_KEY V = []) then handler E V r b w
        else if bool_decide (x_app_key r = Some (APP_KEY V))
        then handler E V r b w
        else (RJson 401 (BError (str "Unauthorized")), w)
    end.
Proof.
  intros Hb. unfold app. rewrite Hb.
  destruct (target r); try done;
    by destruct (bool_decide (APP_KEY V = [])),
         (bool_decide (x_app_key r = Some (APP_KEY V))).
Qed.

(** C9, as the code has it.  [express.json] is registered before the
    health route and the app-key check: a JSON body over 2 MB is
    answered 413 and one that does not parse 400, whatever the route and
    the key, and nothing else runs.  For a request whose body the parser
    accepts: the health route answers 200 whatever the key; with a
    secret configured, any other request whose header is missing or
    different is answered 401 without running its handler; without a
    secret, or with the right header, the request reaches its handler. *)
Theorem app_key_gate (r : request) (w : world) :
  (∀ code, req_body E r = Failed code → app E V r w = (RFailed code, w))
  ∧ (∀ size text, sent r = Json size text → (json_limit < size)%N →
       app E V r w = (RFailed 413, w))
  ∧ (∀ size text, sent r = Json size text → (size ≤ json_limit)%N →
       text ≠ [] → JSON_parse E text = None →
       app E V r w = (RFailed 400, w))
  ∧ (∀ b, req_body E r = Body b →
       (target r = GetHealth → app E V r w = (RJson 200 BHealth, w))
       ∧ (target r ≠ GetHealth → APP_KEY V ≠ [] →
          x_app_key r ≠ Some (APP_KEY V) →
          app E V r w = (RJson 401 (BError (str "Unauthorized")), w))
       ∧ (target r ≠ GetHealth →
          APP_KEY V = [] ∨ x_app_key r = Some (APP_KEY V) →
          app E V r w = handler E V r b w)).
Proof.
  split; [ | split; [ | split]].
  - intros code Hc. unfold app. by rewrite Hc.
  - intros size text Hs Hlt. unfold app, req_body. rewrite Hs.
    apply N.ltb_lt in Hlt. by rewrite Hlt.
  - intros size text Hs Hle Hne Hp. unfold app, req_body. rewrite Hs.
    apply N.ltb_ge in Hle. rewrite Hle, (bool_decide_eq_false_2 _ Hne), Hp.
    destruct (first_char text) as [c | ]; [ | done].
    by destruct ((c =? 123)%N || (c =? 91)%N).
  - intros b Hb. rewrite (app_parsed r b w Hb). split; [ | split].
    + by intros ->.
    + intros Ht Hk Hh. destruct (target r); try done;
        by rewrite (bool_decide_eq_false_2 _ Hk),
             (bool_decide_eq_false_2 _ Hh).
    + intros Ht [Hk | Hh]; destruct (target r); try done;
        try (by rewrite (bool_decide_eq_true_2 _ Hk));
        rewrite (bool_decide_eq_true_2 _ Hh); by case_bool_decide.
Qed.

(** ** The archive *)

Lemma add_files_run (us : list value) (ps : list jsstring)
    (archive : list (jsstring * jsstring)) (w : world) :
  List.map (pathname E) us = List.map Ret ps →
  add_files E V us archive w
  = (Ret (archive
          ++ List.map (fun d => (d, path_basename d)) (existing V w ps)),
     w).
Proof.
  revert ps archive. induction us as [ | u us IH]; intros ps archive H.
  - destruct ps; [ | done]. simpl. mrun. by rewrite app_nil_r.
  - destruct ps as [ | p ps]; [done | ]. injection H as Hu Hus.
    simpl. mrun. unfold add_file at 1. rewrite Hu. fold (resolve V p).
    unfold existing. cbn [List.map List.filter].
    destruct (existsSync (resolve V p) w) eqn:Hex.
    + rewrite (IH ps _ Hus). simpl. by rewrite <- app_assoc.
    + by rewrite (IH ps _ Hus).
Qed.

(** A non-empty list of URLs: the archive archiver makes of the queue. *)
Lemma zip_run (body : value) (us : list value) (ps : list jsstring)
    (w : world) :
  get body Kfiles = Ret (VArr us) →
  us ≠ [] →
  List.map (pathname E) us = List.map Ret ps →
  zip E V body w
  = (RZip (stat_order V
             (List.map (fun d => archived E w (d, path_basename d))
                (existing V w ps))),
     w).
Proof.
  intros Hf Hne Hps. unfold zip, try_catch. mrun. rewrite Hf.
  assert (Hl : has_length (VArr us) = true).
  { unfold has_length. by rewrite (bool_decide_eq_false_2 _ Hne). }
  rewrite Hl. simpl.
  rewrite (add_files_run us ps [] w Hps). unfold finalize.
  by rewrite app_nil_l, List.map_map.
Qed.

Lemma archived_kept (w : world) (d : jsstring) :
  kept_name E w d = true →
  archived E w (d, path_basename d) = entry_for w d.
Proof.
  unfold kept_name, entry_for, archived. cbn [snd].
  intros H. apply bool_decide_eq_true in H.
  destruct (is_directory d w); rewrite H; [ | done].
  by rewrite ends_slash_snoc, N.eqb_refl.
Qed.

Lemma zip_listing (body : value) (us : list value) (ps : list jsstring)
    (w : world) :
  get body Kfiles = Ret (VArr us) →
  us ≠ [] →
  List.map (pathname E) us = List.map Ret ps →
  forallb (kept_name E w) (existing V w ps) = true →
  ∃ archive,
    zip E V body w = (RZip archive, w)
    ∧ archive ≡ₚ List.map (entry_for w) (existing V w ps).
Proof.
  intros Hf Hne Hps Hk. eexists. split; [by apply (zip_run body us ps) | ].
  rewrite stat_order_perm.
  assert (Heq : List.map (fun d => archived E w (d, path_basename d))
                  (existing V w ps)
                = List.map (entry_for w) (existing V w ps)).
  { apply List.map_ext_in. intros d Hd. apply archived_kept.
    rewrite forallb_forall in Hk. by apply Hk. }
  by rewrite Heq.
Qed.

(** C6, as the code has it.  For a non-empty list of URLs that all
    parse, the archive has exactly one entry per listed URL whose
    resolved path exists (as many entries for a path as URLs list it),
    in the order archiver completes them; each is named by the base
    name of its path, a directory with a slash after it, for names that
    archiver keeps as they are.  URLs whose path does not exist
    contribute nothing and raise no error; the world is unchanged. *)
Theorem zip_entries (body : value) (us : list value) (ps : list jsstring)
    (w : world) :
  get body Kfiles = Ret (VArr us) →
  us ≠ [] →
  List.map (pathname E) us = List.map Ret ps →
  forallb (kept_name E w) (existing V w ps) = true →
  ∃ archive,
    zip E V body w = (RZip archive, w)
    ∧ archive
      ≡ₚ List.map (entry_for w)
           (List.filter (fun d => existsSync d w)
              (List.map (fun p => path_join [__dirname V; p]) ps))
    ∧ (∀ src name, (src, name) ∈ archive →
         name = if is_directory src w then path_basename src ++ [SLASH]
                else path_basename src).
Proof.
  intros Hf Hne Hps Hk.
  destruct (zip_listing body us ps w Hf Hne Hps Hk) as (archive & Hz & Hp).
  exists archive. split; [done | ]. split; [done | ].
  intros src name Hin. rewrite Hp in Hin.
  apply list_elem_of_In, in_map_iff in Hin as (d & Hd & _).
  unfold entry_for in Hd. by injection Hd as <- <-.
Qed.

(** C2, as the code has it.  No containment check is made.  A non-empty
    list of URLs that all parse is answered with an archive whose
    sources are exactly the existing paths
    [path.join(__dirname, pathname)] of the listed URLs: none is
    rejected and none is ignored, wherever it lies.  Each entry has the
    name archiver makes of the base name of its source.  A source lies
    inside the asset store root when its pathname is below
    [/public/voiceovers/] and has no [..] segment. *)
Theorem zip_sources (body : value) (us : list value) (ps : list jsstring)
    (w : world) :
  is_absolute (__dirname V) = true →
  get body Kfiles = Ret (VArr us) →
  us ≠ [] →
  List.map (pathname E) us = List.map Ret ps →
  ∃ archive,
    zip E V body w = (RZip archive, w)
    ∧ (∀ p, p ∈ ps → existsSync (path_join [__dirname V; p]) w = true →
         ∃ name, (path_join [__dirname V; p], name) ∈ archive)
    ∧ (∀ src name, (src, name) ∈ archive →
         (src, name) = archived E w (src, path_basename src)
         ∧ ∃ p, p ∈ ps ∧ src = path_join [__dirname V; p]
                ∧ existsSync src w = true
                ∧ ∀ rest, p = str "/public/voiceovers/" ++ rest →
                          [DOT; DOT] ∉ split rest →
                          within (asset_root V) src).
Proof.
  intros Habs Hf Hne Hps. eexists.
  split; [by apply (zip_run body us ps) | ].
  split.
  - intros p Hp Hex. eexists.
    rewrite stat_order_perm. apply list_elem_of_In, in_map_iff.
    exists (resolve V p). split; [reflexivity | ].
    unfold existing. apply filter_In. split; [ | done].
    apply in_map. by apply list_elem_of_In.
  - intros src name Hin. rewrite stat_order_perm in Hin.
    apply list_elem_of_In, in_map_iff in Hin as (d & Hd & Hin).
    unfold existing in Hin. apply filter_In in Hin as [Hin Hex].
    apply in_map_iff in Hin as (p & <- & Hp).
    assert (Hsrc : src = resolve V p).
    { unfold archived in Hd. by injection Hd as <- _. }
    subst src. split; [done | ].
    exists p. split; [by apply list_elem_of_In | ]. split; [done | ].
    split; [done | ]. intros rest -> Hrest. by apply resolve_within.
Qed.

(** ** Failure of the text-generation step *)

Lemma fetch_effect (c : call) (w : world) :
  files (fetch V c w).2 = files w ∧ dirs (fetch V c w).2 = dirs w
  ∧ drawn (fetch V c w).2 = drawn w
  ∧ calls (fetch V c w).2 = calls w ++ [c].
Proof. unfold fetch. by destruct (upstream V _ _). Qed.

Lemma text_generation_effect (specs : value) (w : world) :
  let w1 := (text_generation E V specs w).2 in
  files w1 = files w ∧ dirs w1 = dirs w ∧ drawn w1 = drawn w
  ∧ calls w1 = calls w ++ [ChatCall (prompt_of E specs)].
Proof.
  unfold text_generation. mrun.
  pose proof (fetch_effect (ChatCall (prompt_of E specs)) w) as H.
  destruct (fetch V _ w) as [[r | e] w1]; apply H.
Qed.

(** C4, as the code has it.  When the text-generation step throws (the
    fetch is rejected, the status is not a success, the body or the
    message content does not parse, or the path to the variants crosses
    [null] or [undefined]), the answer is 500 and no batch exists: no
    identifier is drawn and directories and files are as before; only
    the chat call has been logged. *)
Theorem chat_failure_no_batch (body specs : value) (w : world) (e : exn) :
  let w1 := (text_generation E V specs w).2 in
  get body Kspecs = Ret specs →
  truthy (get_opt specs Kmake) = true →
  truthy (get_opt specs Kmodel) = true →
  (text_generation E V specs w).1 = Throw e →
  generate E V body w
  = (RJson 500 (BFailure (str "Generation failed") e), w1)
  ∧ drawn w1 = drawn w ∧ dirs w1 = dirs w ∧ files w1 = files w
  ∧ calls w1 = calls w ++ [ChatCall (prompt_of E specs)].
Proof.
  intros w1 Hs Hmk Hmd Ht.
  pose proof (text_generation_effect specs w) as Heff.
  fold w1 in Heff. cbv zeta in Heff. destruct Heff as (Hf & Hd & Hn & Hc).
  split; [ | done].
  unfold generate, try_catch. mrun. rewrite Hs, Hmk, Hmd. simpl.
  subst w1. destruct (text_generation E V specs w) as [o w1].
  simpl in Ht. by subst o.
Qed.

(** The causes named in C4 that do make the step throw. *)
Lemma variants_of_bad_status (cr : reply) :
  ok cr = false →
  variants_of E cr
  = Throw (Thrown (str "Chat failed: " ++ dec (status cr)
                     ++ str " " ++ body_text cr)).
Proof. intros H. unfold variants_of. by rewrite H. Qed.

Lemma variants_of_bad_body (cr : reply) :
  ok cr = true → JSON_parse E (body_text cr) = None →
  variants_of E cr = Throw SyntaxErr.
Proof. intros H Hp. unfold variants_of, parse. simpl. by rewrite H, Hp. Qed.

(** ** The entries of a successful answer *)

Lemma entries_of_length (id : jsstring) (vs : list value) (k : nat) :
  length (entries_of E V id k vs) = length vs.
Proof.
  revert k. induction vs as [ | v vs IH]; intros k; simpl; [done | ].
  by rewrite IH.
Qed.

Lemma entries_of_lookup (id : jsstring) (vs : list value) (k i : nat)
    (v : value) :
  vs !! i = Some v →
  entries_of E V id k vs !! i = Some (entry_of E V id (k + i) v).
Proof.
  revert k i. induction vs as [ | u vs IH]; intros k i Hi; [done | ].
  destruct i as [ | i]; simpl in *.
  - injection Hi as ->. by rewrite Nat.add_0_r.
  - rewrite Nat.add_succ_r. by apply (IH (S k)).
Qed.

Lemma vacant_spec (d : jsstring) (w : world) :
  vacant d w = true →
  (d ∉ dom (files w)) ∧ (d ∉ dirs w)
  ∧ (∀ p, p ∈ dom (files w) → below d p = false)
  ∧ (∀ p, p ∈ dirs w → below d p = false).
Proof.
  unfold vacant. rewrite andb_true_iff, negb_true_iff, orb_false_iff.
  rewrite !bool_decide_eq_false. intros [[H1 H2] H3].
  rewrite forallb_app, andb_true_iff in H3. destruct H3 as [H3 H4].
  rewrite forallb_forall in H3, H4.
  repeat split; try done; intros p Hp; apply negb_true_iff.
  - apply H3. by apply list_elem_of_In, elem_of_elements.
  - apply H4. by apply list_elem_of_In, elem_of_elements.
Qed.

(** Creating the batch directory where nothing was. *)
Lemma batch_prepared (w : world) :
  let id := uuidv4 V (drawn w) in
  is_absolute (__dirname V) = true →
  proper id →
  vacant (batch_dir V id) w = true →
  can_mkdir V (batch_dir V id) w = true →
  ensureDir V (batch_dir V id) (drew w) = (Ret tt, prepared V w)
  ∧ ready V id (prepared V w).
Proof.
  intros id Habs Hid Hvac Hmk.
  destruct (vacant_spec _ _ Hvac) as (Hnf & Hnd & Hbf & Hbd).
  split.
  - destruct (dir_plain V id Habs Hid) as [He Hne].
    unfold ensureDir. rewrite (existsSync_plain _ _ He Hne).
    unfold drew. cbn [files dirs calls drawn].
    rewrite (bool_decide_eq_false_2 _ Hnf), (bool_decide_eq_false_2 _ Hnd).
    cbn [orb negb]. unfold mkdirSync. cbn [files dirs calls drawn].
    unfold can_mkdir in Hmk.
    destruct (disk_fault V (batch_dir V id)); try done.
    apply negb_true_iff in Hmk. rewrite Hmk. by rewrite firstn_all.
  - split; unfold prepared; cbn [dirs]; fold id.
    + apply elem_of_union. right. apply elem_of_list_to_set.
      by apply dir_ancestor.
    + intros i Hin. apply elem_of_union in Hin as [Hin | Hin].
      * apply Hbd in Hin.
        pose proof (audio_in_dir V id i) as Ha.
        apply in_dir_below in Ha. congruence.
      * apply elem_of_list_to_set in Hin.
        by apply (audio_not_ancestor V id Habs Hid i).
Qed.

(** The handler after a valid request and a completed text-generation
    step. *)
Lemma generate_valid (body specs variants : value) (w w1 : world) :
  let id := uuidv4 V (drawn w1) in
  get body Kspecs = Ret specs →
  truthy (get_opt specs Kmake) = true →
  truthy (get_opt specs Kmodel) = true →
  text_generation E V specs w = (Ret variants, w1) →
  generate E V body w
  = match ensureDir V (batch_dir V id) (drew w1) with
    | (Ret _, w2) =>
        match synth_loop E V (S (elements_of variants)) id (batch_dir V id)
                variants 0 [] w2 with
        | (Ret results, w3) => (RJson 200 (BFiles id results), w3)
        | (Throw e, w3) =>
            (RJson 500 (BFailure (str "Generation failed") e), w3)
        end
    | (Throw e, w2) => (RJson 500 (BFailure (str "Generation failed") e), w2)
    end.
Proof.
  intros id Hs Hmk Hmd Ht. unfold generate, try_catch. mrun.
  rewrite Hs, Hmk, Hmd. cbn [negb orb]. rewrite Ht.
  unfold uuid. fold id. fold (batch_dir V id). fold (drew w1).
  destruct (ensureDir V (batch_dir V id) (drew w1)) as [[[] | e] w2];
    [ | done].
  by destruct (synth_loop E V _ id (batch_dir V id) variants 0 [] w2)
    as [[results | e] w3].
Qed.

(** C1. With [make] and [model] set, a list of N variants from the
    text-generation step, each with a voiceover string, a style that
    converts to a string and sliceable hashtags, a fresh batch
    directory, and every synthesis call and write succeeding: the
    answer is 200 with exactly N entries in the order of
    the variants; entry i (from 1) has its label built from i and the
    variant's style and its URL ending in [vo_i.mp3]; the file
    [vo_i.mp3] is on disk in the batch directory, which holds exactly N
    files.  N may be 0. *)
Theorem generate_one_entry_per_variant (body specs : value)
    (vs : list value) (w : world) :
  let w1 := (text_generation E V specs w).2 in
  let id := uuidv4 V (drawn w1) in
  get body Kspecs = Ret specs →
  truthy (get_opt specs Kmake) = true →
  truthy (get_opt specs Kmodel) = true →
  (text_generation E V specs w).1 = Ret (VArr vs) →
  is_absolute (__dirname V) = true →
  properb id = true →
  vacant (batch_dir V id) w1 = true →
  can_mkdir V (batch_dir V id) w1 = true →
  forallb shaped vs = true →
  all_synthesized V id (length (calls w1)) 0 vs = true →
  ∃ entries w2,
    generate E V body w = (RJson 200 (BFiles id entries), w2)
    ∧ length entries = length vs
    ∧ (∀ i v, vs !! i = Some v →
         ∃ e, entries !! i = Some e
              ∧ label e = str "VoiceOver " ++ dec (i + 1)
                          ++ [32%N; 8212%N; 32%N]
                          ++ to_string E (get_opt v Kstyle)
              ∧ url e = BASE_URL V ++ str "/public/voiceovers/" ++ id
                        ++ str "/vo_" ++ dec (i + 1) ++ str ".mp3"
              ∧ is_Some (files w2 !! (batch_dir V id ++ str "/vo_"
                                       ++ dec (i + 1) ++ str ".mp3")))
    ∧ size (dir_files (batch_dir V id) w2) = length vs.
Proof.
  intros w1 id Hs Hmk Hmd Ht Habs Hid Hvac Hcan Hsh Hall.
  assert (Ht' : text_generation E V specs w = (Ret (VArr vs), w1)).
  { subst id w1. destruct (text_generation E V specs w). simpl in Ht.
    by subst. }
  clearbody w1. clear Ht. rename Ht' into Ht.
  apply properb_spec in Hid.
  destruct (batch_prepared w1 Habs Hid Hvac Hcan) as [Hprep Hready].
  fold id in Hprep, Hready.
  destruct (synth_loop_all E V id Habs Hid vs (prepared V w1) Hready Hsh Hall)
    as (w2 & Hrun & Hd & Hn & Hf).
  exists (entries_of E V id 0 vs), w2.
  split; [ | split; [ | split]].
  - rewrite (generate_valid body specs (VArr vs) w w1) by done.
    fold id. rewrite Hprep. cbn [elements_of]. by rewrite Hrun.
  - apply entries_of_length.
  - intros i v Hi. exists (entry_of E V id i v).
    split; [by apply (entries_of_lookup id vs 0 i) | ].
    split; [done | ]. split; [done | ].
    destruct (written_lookup V id vs (length (calls w1)) 0
                (files w1) i v Hall Hi) as (script & bytes & _ & Hl).
    rewrite Hf. exists bytes. exact Hl.
  - apply (dir_files_written V id Habs Hid vs (length (calls w1))
             (prepared V w1) w2); try done.
    destruct (vacant_spec _ _ Hvac) as (_ & _ & Hbf & _). exact Hbf.
Qed.

(** C5. When the variants before some variant are synthesized and the
    synthesis of that variant fails (rejected call, non-success status,
    failed write, or no voiceover string), the answer is 500 with the
    failure body, and the audio files written for the earlier variants
    are still on disk with the bytes received.  The batch directory
    holds nothing but these and, when the disk gave up during the
    failing write, the incomplete file of the failing variant. *)
Theorem synthesis_failure_keeps_files (body specs : value)
    (pre : list value) (v : value) (suf : list value) (w : world) :
  let w1 := (text_generation E V specs w).2 in
  let id := uuidv4 V (drawn w1) in
  get body Kspecs = Ret specs →
  truthy (get_opt specs Kmake) = true →
  truthy (get_opt specs Kmodel) = true →
  (text_generation E V specs w).1 = Ret (VArr (pre ++ v :: suf)) →
  is_absolute (__dirname V) = true →
  properb id = true →
  vacant (batch_dir V id) w1 = true →
  can_mkdir V (batch_dir V id) w1 = true →
  forallb shaped pre = true →
  all_synthesized V id (length (calls w1)) 0 pre = true →
  synthesized V id (length (calls w1) + length pre) (length pre) v = None →
  ∃ e w2,
    generate E V body w
    = (RJson 500 (BFailure (str "Generation failed") e), w2)
    ∧ (∀ i u, pre !! i = Some u →
         ∃ script bytes,
           synthesized V id (length (calls w1) + i) i u
           = Some (script, bytes)
           ∧ files w2 !! (batch_dir V id ++ str "/vo_" ++ dec (i + 1)
                          ++ str ".mp3") = Some bytes)
    ∧ (∀ p, p ∈ dir_files (batch_dir V id) w2 →
         ∃ i, i ≤ length pre ∧ p = audio_path V id i)
    ∧ ((∀ k, disk_fault V (audio_path V id (length pre)) ≠ Torn k) →
       size (dir_files (batch_dir V id) w2) = length pre).
Proof.
  intros w1 id Hs Hmk Hmd Ht Habs Hid Hvac Hcan Hsh Hall Hfail.
  assert (Ht' : text_generation E V specs w
                = (Ret (VArr (pre ++ v :: suf)), w1)).
  { subst id w1. destruct (text_generation E V specs w). simpl in Ht.
    by subst. }
  clearbody w1. clear Ht. rename Ht' into Ht.
  apply properb_spec in Hid.
  destruct (batch_prepared w1 Habs Hid Hvac Hcan) as [Hprep Hready].
  fold id in Hprep, Hready.
  destruct (vacant_spec _ _ Hvac) as (_ & _ & Hbf & _).
  destruct (synth_loop_breaks E V id Habs Hid pre v suf (prepared V w1)
              Hready Hsh Hall Hfail) as (e & w2 & Hrun & Hd & Hn & Hf).
  exists e, w2. split; [ | split; [ | split]].
  - rewrite (generate_valid body specs (VArr (pre ++ v :: suf)) w w1)
      by done.
    fold id. rewrite Hprep. cbn [elements_of]. by rewrite Hrun.
  - intros i u Hi.
    destruct (written_lookup V id pre (length (calls w1)) 0
                (files w1) i u Hall Hi) as (script & bytes & Hsyn & Hl).
    exists script, bytes. split; [exact Hsyn | ].
    change (batch_dir V id ++ str "/vo_" ++ dec (i + 1) ++ str ".mp3")
      with (audio_path V id (0 + i)).
    destruct Hf as [Hf | (k & torn & _ & Hf)]; rewrite Hf; [exact Hl | ].
    rewrite lookup_insert_ne; [exact Hl | ].
    intros Heq. apply audio_path_inj in Heq.
    apply lookup_lt_Some in Hi. simpl in Heq. lia.
  - intros p Hp. destruct Hf as [Hf | (k & torn & _ & Hf)].
    + rewrite (dir_files_set V id Habs Hid pre (length (calls w1))
                 (prepared V w1) w2) in Hp by done.
      apply elem_of_list_to_set, list_elem_of_fmap in Hp as (i & -> & Hi).
      apply elem_of_seq in Hi. exists i. split; [lia | done].
    + by apply (dir_files_torn V id Habs Hid pre (length (calls w1))
                  (prepared V w1) w2 (take k torn) p).
  - intros Hsound. destruct Hf as [Hf | (k & torn & Hk & _)];
      [ | by apply Hsound in Hk].
    by apply (dir_files_written V id Habs Hid pre (length (calls w1))
                (prepared V w1) w2).
Qed.

(** ** Contents of an entry *)

Lemma synth_one_entry (id d : jsstring) (i : nat) (v : value)
    (w w' : world) (e : file_entry) :
  synth_one E V id d i v w = (Ret e, w') →
  e = entry_of E V id i v
  ∧ (∃ s, get v Kvoiceover = Ret (VStr s))
  ∧ slice6 (or_empty (get_opt v Khashtags)) = Ret (hashtags e).
Proof.
  unfold synth_one. mrun.
  destruct v as [ | | | | | | o]; try done.
  cbn [get get_opt key_name].
  destruct (own o (str "voiceover")) as [ | | | | s | | ] eqn:Hvo; try done.
  cbn [call_trim].
  destruct (ttsToMp3 V (trim s) _ w) as [[[] | e1] w1]; [ | done].
  unfold ToString.
  destruct (stringable (own o (str "style"))); [ | done].
  destruct (slice6 (or_empty (own o (str "hashtags")))) as [t | e1] eqn:Hsl;
    [ | done].
  intros H.
  assert (He : e = entry_of E V id i (VObj o)).
  { unfold entry_of. cbn [get_opt key_name]. rewrite Hvo, Hsl. congruence. }
  split; [done | ]. split; [by exists s | ].
  rewrite He. unfold entry_of. cbn [hashtags get_opt key_name].
  by rewrite Hsl.
Qed.

(** Every entry the loop adds is built from the variant at its index. *)
Lemma synth_loop_entries (fuel : nat) :
  ∀ (id d : jsstring) (variants : value) (i : nat)
    (results out : list file_entry) (w w' : world),
    synth_loop E V fuel id d variants i results w = (Ret out, w') →
    ∃ new, out = results ++ new
      ∧ ∀ j e, new !! j = Some e →
          ∃ v s, index variants (i + j) = Ret v
                 ∧ get v Kvoiceover = Ret (VStr s)
                 ∧ e = entry_of E V id (i + j) v
                 ∧ slice6 (or_empty (get_opt v Khashtags))
                   = Ret (hashtags e).
Proof.
  induction fuel as [ | fuel IH]; intros id d variants i results out w w';
    [done | ].
  simpl. mrun.
  destruct (below_length E variants i) as [[ | ] | ]; try done.
  - destruct (index variants i) as [v | ] eqn:Hidx; [ | done].
    destruct (synth_one E V id d i v w) as [[e | ] w1] eqn:Hone; [ | done].
    intros Hrun. destruct (IH _ _ _ _ _ _ _ _ Hrun) as (new & -> & Hnew).
    exists (e :: new). split; [by rewrite <- app_assoc | ].
    intros [ | j] e' He'.
    + injection He' as <-. rewrite Nat.add_0_r.
      destruct (synth_one_entry _ _ _ _ _ _ _ Hone) as (-> & [s Hs] & Hsl).
      by exists v, s.
    + rewrite Nat.add_succ_r. by apply (Hnew j e').
  - intros [= <- <-]. exists []. split; [by rewrite app_nil_r | done].
Qed.

Lemma slice6_count (x t : value) : slice6 x = Ret t → count t ≤ 6.
Proof.
  destruct x; try done; intros [= <-]; simpl; rewrite length_take; lia.
Qed.

(** C8. In every entry of a successful answer, built from the variant at
    its index: the script is that variant's voiceover with the white
    space at both ends removed; the hashtags have at most 6 elements and
    are the first 6 of the variant's list; absent hashtags and absent
    beats give the empty list. *)
Theorem entry_fields (body specs variants : value) (w : world)
    (id : jsstring) (entries : list file_entry) :
  get body Kspecs = Ret specs →
  (text_generation E V specs w).1 = Ret variants →
  (generate E V body w).1 = RJson 200 (BFiles id entries) →
  ∀ i e, entries !! i = Some e →
    ∃ v s,
      index variants i = Ret v
      ∧ get v Kvoiceover = Ret (VStr s)
      ∧ script e = trim s
      ∧ (∃ pre post, s = pre ++ script e ++ post
                     ∧ forallb is_ws pre = true ∧ forallb is_ws post = true)
      ∧ (∀ c t, script e = c :: t → is_ws c = false)
      ∧ (∀ t c, script e = t ++ [c] → is_ws c = false)
      ∧ count (hashtags e) ≤ 6
      ∧ (∀ l, get_opt v Khashtags = VArr l → hashtags e = VArr (take 6 l))
      ∧ (get_opt v Khashtags = VUndef → hashtags e = VArr [])
      ∧ beats e = or_empty (get_opt v Kbeats)
      ∧ (get_opt v Kbeats = VUndef → beats e = VArr []).
Proof.
  intros Hs Ht' Hgen i e He.
  destruct (text_generation E V specs w) as [o w1] eqn:Ht.
  simpl in Ht'. subst o.
  destruct (truthy (get_opt specs Kmake)) eqn:Hmk;
    [ | by rewrite (generate_rejects body specs w Hs (or_introl Hmk)) in Hgen].
  destruct (truthy (get_opt specs Kmodel)) eqn:Hmd;
    [ | by rewrite (generate_rejects body specs w Hs (or_intror Hmd)) in Hgen].
  rewrite (generate_valid body specs variants w w1 Hs Hmk Hmd Ht) in Hgen.
  destruct (ensureDir V _ (drew w1)) as [[[] | e0] w3]; [ | done].
  destruct (synth_loop E V _ _ _ variants 0 [] w3)
    as [[results | e0] w4] eqn:Hrun; [ | done].
  simpl in Hgen. injection Hgen as <- <-.
  destruct (synth_loop_entries _ _ _ _ _ _ _ _ _ Hrun) as (new & -> & Hnew).
  destruct (Hnew i e He) as (v & s & Hidx & Hvo & -> & Hsl).
  change (0 + i) with i in *. exists v, s.
  assert (Hscript : script (entry_of E V (uuidv4 V (drawn w1)) i v) = trim s).
  { unfold entry_of. cbn [script]. destruct v; try done.
    cbn [get get_opt] in *.
    assert (own o (key_name Kvoiceover) = VStr s) as -> by congruence.
    done. }
  rewrite Hscript. destruct (trim_spec s) as (Hsur & Hfirst & Hlast).
  assert (Hb : beats (entry_of E V (uuidv4 V (drawn w1)) i v)
               = or_empty (get_opt v Kbeats)) by done.
  rewrite Hb. revert Hsl.
  generalize (hashtags (entry_of E V (uuidv4 V (drawn w1)) i v)).
  intros h Hsl. repeat split; try done.
  - by apply (slice6_count _ _ Hsl).
  - intros l Hl. rewrite Hl in Hsl. simpl in Hsl. congruence.
  - intros Hu. rewrite Hu in Hsl. simpl in Hsl. congruence.
  - intros Hu. by rewrite Hu.
Qed.

End Handlers.

(** * Effects of the handlers on the world *)

Section Effects.

Variable E : engine.
Variable V : env.

(** What [ttsToMp3] leaves behind, by outcome. *)
Lemma ttsToMp3_effect (text p : jsstring) (w : world) :
  ∃ o w',
    ttsToMp3 V text p w = (o, w')
    ∧ dirs w' = dirs w ∧ drawn w' = drawn w
    ∧ calls w' = calls w ++ [SpeechCall text]
    ∧ match o with
      | Ret _ =>
          ∃ r, upstream V (length (calls w)) (SpeechCall text) = Replied r
               ∧ ok r = true
               ∧ files w' = <[p := body_bytes r]> (files w)
      | Throw _ =>
          files w' = files w
          ∨ ∃ r k, upstream V (length (calls w)) (SpeechCall text)
                   = Replied r
                   ∧ ok r = true ∧ disk_fault V p = Torn k
                   ∧ files w' = <[p := take k (body_bytes r)]> (files w)
      end.
Proof.
  unfold ttsToMp3. mrun. unfold fetch at 1.
  destruct (upstream V (length (calls w)) (SpeechCall text)) as [ | r] eqn:Hup.
  - eexists _, _. split; [done | ]. repeat split. by left.
  - destruct (ok r) eqn:Hok; cbn [negb];
      [ | eexists _, _; split; [done | ]; repeat split; by left].
    unfold writeFileSync. cbn [files dirs calls drawn].
    destruct (is_directory p _ || _ || _);
      [eexists _, _; split; [done | ]; repeat split; by left | ].
    destruct (disk_fault V p) as [ | | k] eqn:Hfault.
    + eexists _, _. split; [done | ]. repeat split. by exists r.
    + eexists _, _. split; [done | ]. repeat split. by left.
    + eexists _, _. split; [done | ]. repeat split. right. by exists r, k.
Qed.

(** What one iteration of the loop leaves behind. *)
Lemma synth_one_effect (id d : jsstring) (i : nat) (v : value) (w : world) :
  ∃ o w',
    synth_one E V id d i v w = (o, w')
    ∧ dirs w' = dirs w ∧ drawn w' = drawn w
    ∧ ((files w' = files w ∧ calls w' = calls w ∧ (∃ e, o = Throw e)
        ∧ ∀ s, get v Kvoiceover ≠ Ret (VStr s))
       ∨ (∃ s, get v Kvoiceover = Ret (VStr s)
               ∧ calls w' = calls w ++ [SpeechCall (trim s)]
               ∧ ((files w' = files w ∧ ∃ e, o = Throw e)
                  ∨ ∃ bytes,
                      files w'
                      = <[path_join [d; vo_name i] := bytes]> (files w)))).
Proof.
  assert (Hwrote : ∀ (o : outcome file_entry) (w1 : world) (s : jsstring)
            (bytes : list N),
            get v Kvoiceover = Ret (VStr s) →
            dirs w1 = dirs w → drawn w1 = drawn w →
            calls w1 = calls w ++ [SpeechCall (trim s)] →
            files w1 = <[path_join [d; vo_name i] := bytes]> (files w) →
            ∃ o' w', (o, w1) = (o', w')
              ∧ dirs w' = dirs w ∧ drawn w' = drawn w
              ∧ ((files w' = files w ∧ calls w' = calls w
                  ∧ (∃ e, o' = Throw e)
                  ∧ ∀ s, get v Kvoiceover ≠ Ret (VStr s))
                 ∨ (∃ s, get v Kvoiceover = Ret (VStr s)
                      ∧ calls w' = calls w ++ [SpeechCall (trim s)]
                      ∧ ((files w' = files w ∧ ∃ e, o' = Throw e)
                         ∨ ∃ bytes,
                             files w'
                             = <[path_join [d; vo_name i] := bytes]>
                                 (files w))))).
  { intros o w1 s bytes Hvo Hd Hn Hc Hf. exists o, w1.
    split; [done | ]. split; [done | ]. split; [done | ]. right.
    exists s. split; [done | ]. split; [done | ]. right. by exists bytes. }
  unfold synth_one. mrun.
  destruct (get v Kvoiceover) as [vo | e] eqn:Hvo.
  - destruct vo as [ | | | | s | | ];
      try (eexists _, _; split; [reflexivity | ];
           split; [done | ]; split; [done | ]; left;
           repeat split; [by eexists | done]).
    cbn [call_trim].
    destruct (ttsToMp3_effect (trim s) (path_join [d; vo_name i]) w)
      as (o & w1 & Htts & Hd & Hn & Hc & Hf).
    rewrite Htts. destruct o as [[] | e].
    + destruct Hf as (r & _ & _ & Hf).
      destruct (get v Kstyle) as [style | ];
        [ | by apply (Hwrote _ _ s (body_bytes r))].
      destruct (ToString E style);
        [ | by apply (Hwrote _ _ s (body_bytes r))].
      destruct (get v Kbeats); [ | by apply (Hwrote _ _ s (body_bytes r))].
      destruct (get v Khashtags) as [hs | ];
        [ | by apply (Hwrote _ _ s (body_bytes r))].
      destruct (slice6 (or_empty hs));
        by apply (Hwrote _ _ s (body_bytes r)).
    + destruct Hf as [Hf | (r & k & _ & _ & _ & Hf)].
      * eexists _, _; split; [reflexivity | ].
        split; [done | ]. split; [done | ]. right. exists s.
        split; [done | ]. split; [done | ]. left.
        split; [done | by eexists].
      * by apply (Hwrote _ _ s (take k (body_bytes r))).
  - eexists _, _. split; [reflexivity | ].
    split; [done | ]. split; [done | ]. left.
    repeat split; [by eexists | done].
Qed.

Lemma synth_loop_step (fuel : nat) (id d : jsstring) (variants : value)
    (i : nat) (results : list file_entry) (w : world) :
  synth_loop E V (S fuel) id d variants i results w
  = match below_length E variants i with
    | Ret true =>
        match index variants i with
        | Ret v =>
            match synth_one E V id d i v w with
            | (Ret e, w') =>
                synth_loop E V fuel id d variants (S i) (results ++ [e]) w'
            | (Throw e, w') => (Throw e, w')
            end
        | Throw e => (Throw e, w)
        end
    | Ret false => (Ret results, w)
    | Throw e => (Throw e, w)
    end.
Proof.
  simpl. mrun.
  destruct (below_length E variants i) as [[ | ] | ]; try done;
    by destruct (index variants i).
Qed.

(** Whatever the variants are, the loop leaves directories and the
    identifier count alone, touches no file other than the audio files
    of its directory, removes none, and only adds speech calls to the
    log. *)
Lemma synth_loop_frame (fuel : nat) :
  ∀ (id d : jsstring) (variants : value) (i : nat)
    (results : list file_entry) (w : world),
    ∃ o w',
      synth_loop E V fuel id d variants i results w = (o, w')
      ∧ dirs w' = dirs w ∧ drawn w' = drawn w
      ∧ (∀ p, (∀ j, p ≠ path_join [d; vo_name j]) →
              files w' !! p = files w !! p)
      ∧ dom (files w) ⊆ dom (files w')
      ∧ ∃ l, calls w' = calls w ++ List.map SpeechCall l.
Proof.
  induction fuel as [ | fuel IH]; intros id d variants i results w.
  - eexists _, _. split; [reflexivity | ]. repeat split; try done.
    exists []. by rewrite app_nil_r.
  - rewrite synth_loop_step.
    destruct (below_length E variants i) as [[ | ] | ];
      [ | eexists _, _; split; [reflexivity | ]; repeat split; try done;
          exists []; by rewrite app_nil_r ..].
    destruct (index variants i) as [v | ];
      [ | eexists _, _; split; [reflexivity | ]; repeat split; try done;
          exists []; by rewrite app_nil_r].
    destruct (synth_one_effect id d i v w) as (o & w1 & Hone & Hd & Hn & Hc).
    rewrite Hone.
    assert (Hfr : (∀ p, (∀ j, p ≠ path_join [d; vo_name j]) →
                        files w1 !! p = files w !! p)
                  ∧ dom (files w) ⊆ dom (files w1)
                  ∧ ∃ l, calls w1 = calls w ++ List.map SpeechCall l).
    { destruct Hc as [(Hf & Hcs & _) | (s & _ & Hcs & [[Hf _] | [b Hf]])].
      - rewrite Hf, Hcs. repeat split; try done.
        exists []. by rewrite app_nil_r.
      - rewrite Hf, Hcs. repeat split; try done. by exists [trim s].
      - rewrite Hf, Hcs. repeat split.
        + intros p Hp. apply lookup_insert_ne. apply not_eq_sym, Hp.
        + rewrite dom_insert_L. set_solver.
        + by exists [trim s]. }
    destruct Hfr as (Hf1 & Hdom1 & l1 & Hc1).
    destruct o as [e | e].
    + destruct (IH id d variants (S i) (results ++ [e]) w1)
        as (o' & w' & Hrun & Hd' & Hn' & Hf' & Hdom' & l' & Hc').
      exists o', w'. split; [exact Hrun | ].
      split; [congruence | ]. split; [congruence | ].
      split; [ | split].
      * intros p Hp. rewrite (Hf' p Hp). by apply Hf1.
      * set_solver.
      * exists (l1 ++ l'). rewrite Hc', Hc1, map_app. by rewrite <- app_assoc.
    + exists (Throw e), w1. split; [reflexivity | ].
      repeat split; try done. by exists l1.
Qed.

Lemma get_string_object (v : value) (k : key) (s : jsstring) :
  get v k = Ret (VStr s) → get_opt v k = VStr s.
Proof. destruct v; simpl; congruence. Qed.

Lemma take_one_drop (vs : list value) (i : nat) :
  i < length vs → take 1 (drop i vs) = [nth i vs VUndef].
Proof.
  revert i. induction vs as [ | v vs IH]; intros i Hi; simpl in Hi; [lia | ].
  destruct i as [ | i]; simpl.
  - by destruct vs.
  - apply IH. lia.
Qed.

Lemma drop_nth (vs : list value) (i : nat) :
  i < length vs → drop i vs = nth i vs VUndef :: drop (S i) vs.
Proof.
  revert i. induction vs as [ | v vs IH]; intros i Hi; simpl in Hi; [lia | ].
  destruct i as [ | i]; simpl.
  - by destruct vs.
  - apply IH. lia.
Qed.

(** On a list of variants the speech calls follow the list: they are the
    scripts of its first [k] variants from index [i] on, nothing is
    requested beyond a failure, and a loop that returns has gone through
    the whole list, adding one entry and leaving one file per variant. *)
Lemma synth_loop_array (vs : list value) (id d : jsstring) (fuel : nat) :
  ∀ (i : nat) (results : list file_entry) (w : world),
    i ≤ length vs → length vs - i < fuel →
    ∃ o w' k,
      synth_loop E V fuel id d (VArr vs) i results w = (o, w')
      ∧ i ≤ k ≤ length vs
      ∧ calls w'
        = calls w
          ++ List.map (fun v => SpeechCall (script_of v))
               (take (k - i) (drop i vs))
      ∧ (∀ out, o = Ret out →
           k = length vs
           ∧ (∃ new, out = results ++ new ∧ length new = length vs - i)
           ∧ ∀ j, i ≤ j < length vs →
                  is_Some (files w' !! path_join [d; vo_name j])).
Proof.
  induction fuel as [ | fuel IH]; intros i results w Hi Hfuel; [lia | ].
  rewrite synth_loop_step. cbn [below_length index].
  destruct (i <? length vs) eqn:Hlt.
  - apply Nat.ltb_lt in Hlt.
    destruct (synth_one_effect id d i (nth i vs VUndef) w)
      as (o & w1 & Hone & Hd & Hn & Hc).
    rewrite Hone.
    destruct Hc as [(Hf & Hcs & [e ->] & _) | (s & Hvo & Hcs & Hf)].
    + exists (Throw e), w1, i. split; [reflexivity | ].
      split; [lia | ]. rewrite Nat.sub_diag. simpl.
      split; [by rewrite app_nil_r | done].
    + assert (Hs : script_of (nth i vs VUndef) = trim s).
      { unfold script_of. by rewrite (get_string_object _ _ _ Hvo). }
      destruct o as [e | e].
      * destruct (IH (S i) (results ++ [e]) w1) as (o' & w' & k & Hrun & Hk
                                                    & Hc' & Hret); [lia | lia | ].
        exists o', w', k. split; [exact Hrun | ]. split; [lia | ].
        split.
        -- rewrite Hc', Hcs, <- app_assoc. f_equal.
           rewrite (drop_nth vs i Hlt).
           replace (k - i) with (S (k - S i)) by lia.
           simpl. by rewrite Hs.
        -- intros out Hout. destruct (Hret out Hout) as (Hkl & Hnew & Hfiles).
           split; [exact Hkl | ]. split.
           ++ destruct Hnew as (new & -> & Hlen). exists (e :: new).
              split; [by rewrite <- app_assoc | ]. simpl. lia.
           ++ intros j Hj. destruct (decide (j = i)) as [-> | Hne].
              ** destruct Hf as [[_ [e' He']] | [bytes Hf]]; [done | ].
                 destruct (synth_loop_frame fuel id d (VArr vs) (S i)
                             (results ++ [e]) w1)
                   as (o2 & w2 & Hrun2 & _ & _ & _ & Hdom & _).
                 rewrite Hrun in Hrun2. injection Hrun2 as <- <-.
                 apply elem_of_dom, Hdom. rewrite Hf, dom_insert_L.
                 set_solver.
              ** apply Hfiles. lia.
      * exists (Throw e), w1, (S i). split; [reflexivity | ].
        split; [lia | ]. split; [ | done].
        replace (S i - i) with 1 by lia.
        rewrite (take_one_drop vs i Hlt). simpl. by rewrite Hcs, Hs.
  - apply Nat.ltb_ge in Hlt. exists (Ret results), w, i.
    split; [reflexivity | ]. split; [lia | ].
    rewrite Nat.sub_diag. simpl. split; [by rewrite app_nil_r | ].
    intros out [= <-]. split; [lia | ]. split.
    + exists []. rewrite app_nil_r. split; [done | simpl; lia].
    + intros j Hj. lia.
Qed.

Lemma ensureDir_effect (p : jsstring) (w : world) :
  ∃ o w',
    ensureDir V p w = (o, w')
    ∧ files w' = files w ∧ calls w' = calls w ∧ drawn w' = drawn w
    ∧ dirs w ⊆ dirs w'.
Proof.
  unfold ensureDir, mkdirSync. destruct (negb (existsSync p w)).
  - destruct (existsb _ _); [by eexists _, _ | ].
    destruct (disk_fault V p); eexists _, _;
      (split; [reflexivity | ]); cbn [files dirs calls drawn];
      repeat split; try done; apply union_subseteq_l.
  - by eexists _, _.
Qed.

Lemma text_generation_run (specs : value) (w : world) :
  text_generation E V specs w
  = (match upstream V (length (calls w)) (ChatCall (prompt_of E specs)) with
     | Rejected => Throw NetErr
     | Replied r => variants_of E r
     end,
     called w (ChatCall (prompt_of E specs))).
Proof.
  unfold text_generation, fetch, called. mrun.
  by destruct (upstream V _ _).
Qed.

(** The four ways through [POST /generate]. *)
Lemma generate_cases (body : value) (w : world) :
  (∃ e, get body Kspecs = Throw e
        ∧ generate E V body w
          = (RJson 500 (BFailure (str "Generation failed") e), w))
  ∨ (∃ specs, get body Kspecs = Ret specs
        ∧ (truthy (get_opt specs Kmake) = false
           ∨ truthy (get_opt specs Kmodel) = false)
        ∧ generate E V body w
          = (RJson 400 (BError (str "Missing required specs: make, model.")),
             w))
  ∨ (∃ specs e, get body Kspecs = Ret specs
        ∧ truthy (get_opt specs Kmake) = true
        ∧ truthy (get_opt specs Kmodel) = true
        ∧ (text_generation E V specs w).1 = Throw e
        ∧ generate E V body w
          = (RJson 500 (BFailure (str "Generation failed") e),
             called w (ChatCall (prompt_of E specs))))
  ∨ (∃ specs variants, get body Kspecs = Ret specs
        ∧ truthy (get_opt specs Kmake) = true
        ∧ truthy (get_opt specs Kmodel) = true
        ∧ (text_generation E V specs w).1 = Ret variants
        ∧ generate E V body w
          = match ensureDir V (batch_dir V (uuidv4 V (drawn w)))
                    (drew (called w (ChatCall (prompt_of E specs)))) with
            | (Ret _, w2) =>
                match synth_loop E V (S (elements_of variants))
                        (uuidv4 V (drawn w))
                        (batch_dir V (uuidv4 V (drawn w))) variants 0 [] w2
                with
                | (Ret results, w3) =>
                    (RJson 200 (BFiles (uuidv4 V (drawn w)) results), w3)
                | (Throw e, w3) =>
                    (RJson 500 (BFailure (str "Generation failed") e), w3)
                end
            | (Throw e, w2) =>
                (RJson 500 (BFailure (str "Generation failed") e), w2)
            end).
Proof.
  destruct (get body Kspecs) as [specs | e] eqn:Hs.
  - destruct (truthy (get_opt specs Kmake)) eqn:Hmk.
    + destruct (truthy (get_opt specs Kmodel)) eqn:Hmd.
      * pose proof (text_generation_run specs w) as Ht.
        destruct (match upstream V _ _ with
                  | Rejected => Throw NetErr
                  | Replied r => variants_of E r
                  end) as [variants | e] eqn:Ho.
        -- right. right. right. exists specs, variants.
           repeat split; try done; [by rewrite Ht | ].
           by rewrite (generate_valid E V body specs variants w _ Hs Hmk Hmd Ht).
        -- right. right. left. exists specs, e.
           repeat split; try done; [by rewrite Ht | ].
           unfold generate, try_catch. mrun. rewrite Hs, Hmk, Hmd. simpl.
           by rewrite Ht.
      * right. left. exists specs. repeat split; [by right | ].
        apply (generate_rejects E V body specs w Hs). by right.
    + right. left. exists specs. repeat split; [by left | ].
      apply (generate_rejects E V body specs w Hs). by left.
  - left. exists e. split; [done | ].
    unfold generate, try_catch. mrun. by rewrite Hs.
Qed.

(** Everything [POST /generate] can do to the world. *)
Lemma generate_frame (body : value) (w : world) :
  let w' := (generate E V body w).2 in
  (∀ p, (∀ j, p ≠ path_join [batch_dir V (uuidv4 V (drawn w)); vo_name j]) →
        files w' !! p = files w !! p)
  ∧ dom (files w) ⊆ dom (files w')
  ∧ dirs w ⊆ dirs w'
  ∧ drawn w ≤ drawn w' ≤ S (drawn w)
  ∧ ∃ l, calls w' = calls w ++ l
         ∧ (l = []
            ∨ ∃ specs scripts,
                get body Kspecs = Ret specs
                ∧ truthy (get_opt specs Kmake) = true
                ∧ truthy (get_opt specs Kmodel) = true
                ∧ l = ChatCall (prompt_of E specs)
                      :: List.map SpeechCall scripts).
Proof.
  assert (Hnil : ∀ w0 : world, ∃ l, calls w0 = calls w0 ++ l
            ∧ (l = [] ∨ ∃ specs scripts,
                 get body Kspecs = Ret specs
                 ∧ truthy (get_opt specs Kmake) = true
                 ∧ truthy (get_opt specs Kmodel) = true
                 ∧ l = ChatCall (prompt_of E specs)
                       :: List.map SpeechCall scripts)).
  { intros w0. exists []. split; [by rewrite app_nil_r | by left]. }
  destruct (generate_cases body w)
    as [(e & _ & ->) | [(specs & _ & _ & ->)
       | [(specs & e & Hs & Hmk & Hmd & _ & ->)
       | (specs & variants & Hs & Hmk & Hmd & _ & ->)]]]; cbn zeta.
  - cbn [snd]. split; [done | ]. split; [done | ]. split; [done | ].
    split; [lia | apply Hnil].
  - cbn [snd]. split; [done | ]. split; [done | ]. split; [done | ].
    split; [lia | apply Hnil].
  - cbn [snd]. unfold called. cbn [files dirs calls drawn].
    split; [done | ]. split; [done | ]. split; [done | ]. split; [lia | ].
    exists [ChatCall (prompt_of E specs)]. split; [done | ]. right.
    by exists specs, [].
  - set (c := ChatCall (prompt_of E specs)).
    set (id := uuidv4 V (drawn w)).
    destruct (ensureDir_effect (batch_dir V id) (drew (called w c)))
      as (o & w2 & He & Hf2 & Hc2 & Hn2 & Hd2).
    rewrite He. unfold drew, called in Hf2, Hc2, Hn2, Hd2.
    cbn [files dirs calls drawn] in Hf2, Hc2, Hn2, Hd2.
    assert (Hlog : ∀ w3 l, calls w3 = calls w2 ++ List.map SpeechCall l →
              ∃ l0, calls w3 = calls w ++ l0
                ∧ (l0 = [] ∨ ∃ specs scripts,
                     get body Kspecs = Ret specs
                     ∧ truthy (get_opt specs Kmake) = true
                     ∧ truthy (get_opt specs Kmodel) = true
                     ∧ l0 = ChatCall (prompt_of E specs)
                            :: List.map SpeechCall scripts)).
    { intros w3 l Hl. exists (c :: List.map SpeechCall l). split.
      - rewrite Hl, Hc2, <- app_assoc. done.
      - right. by exists specs, l. }
    destruct o as [[] | e].
    + destruct (synth_loop_frame (S (elements_of variants)) id
                  (batch_dir V id) variants 0 [] w2)
        as (o3 & w3 & Hrun & Hd3 & Hn3 & Hf3 & Hdom3 & l & Hc3).
      rewrite Hrun.
      assert (Hall :
        (∀ p, (∀ j, p ≠ path_join [batch_dir V id; vo_name j]) →
              files w3 !! p = files w !! p)
        ∧ dom (files w) ⊆ dom (files w3)
        ∧ dirs w ⊆ dirs w3
        ∧ drawn w ≤ drawn w3 ≤ S (drawn w)
        ∧ ∃ l0, calls w3 = calls w ++ l0
            ∧ (l0 = [] ∨ ∃ specs scripts,
                 get body Kspecs = Ret specs
                 ∧ truthy (get_opt specs Kmake) = true
                 ∧ truthy (get_opt specs Kmodel) = true
                 ∧ l0 = ChatCall (prompt_of E specs)
                        :: List.map SpeechCall scripts)).
      { split; [ | split; [ | split; [ | split]]].
        - intros p Hp. rewrite (Hf3 p Hp). by rewrite Hf2.
        - by rewrite <- Hf2.
        - by rewrite Hd3.
        - rewrite Hn3, Hn2. lia.
        - by apply (Hlog w3 l). }
      by destruct o3.
    + cbn [snd]. split; [ | split; [ | split; [ | split]]].
      * intros p _. by rewrite Hf2.
      * by rewrite Hf2.
      * done.
      * rewrite Hn2. lia.
      * apply (Hlog w2 []). by rewrite app_nil_r.
Qed.

(** ** What a generation request does to the disk and to the upstream *)

(** X1. Whatever the request and whatever the upstream answers, a file
    that is not below the batch directory of the identifier drawn has
    the same content (or the same absence) after [POST /generate] as
    before. *)
Theorem generate_touches_only_batch_dir (body : value) (w : world)
    (p : jsstring) :
  is_absolute (__dirname V) = true →
  properb (uuidv4 V (drawn w)) = true →
  below (batch_dir V (uuidv4 V (drawn w))) p = false →
  files (generate E V body w).2 !! p = files w !! p.
Proof.
  intros Habs Hid Hp. apply properb_spec in Hid.
  apply (generate_frame body w). intros j Hj.
  rewrite (audio_path_join V _ Habs Hid j) in Hj.
  pose proof (audio_in_dir V (uuidv4 V (drawn w)) j) as Hin.
  apply in_dir_below in Hin. congruence.
Qed.

(** X2. [POST /generate] never removes anything: every file and every
    directory that existed still exists afterwards, and at most one
    identifier is drawn. *)
Theorem generate_removes_nothing (body : value) (w : world) :
  dom (files w) ⊆ dom (files (generate E V body w).2)
  ∧ dirs w ⊆ dirs (generate E V body w).2
  ∧ drawn w ≤ drawn (generate E V body w).2 ≤ S (drawn w).
Proof.
  destruct (generate_frame body w) as (_ & Hf & Hd & Hn & _). done.
Qed.

(** X3. The upstream traffic of one [POST /generate] is either nothing
    or one chat call, carrying the prompt built from the request's
    specs, followed by speech calls only. *)
Theorem generate_upstream_traffic (body : value) (w : world) :
  ∃ l, calls (generate E V body w).2 = calls w ++ l
       ∧ (l = []
          ∨ ∃ specs scripts,
              get body Kspecs = Ret specs
              ∧ l = ChatCall (prompt_of E specs)
                    :: List.map SpeechCall scripts).
Proof.
  destruct (generate_frame body w) as (_ & _ & _ & _ & l & Hl & Hcase).
  exists l. split; [exact Hl | ].
  destruct Hcase as [-> | (specs & scripts & Hs & _ & _ & ->)];
    [by left | right; by exists specs, scripts].
Qed.

(** X4. A 400 answer of [POST /generate] comes only from the presence
    check: the body has a [specs] value whose [make] or [model] is
    falsy, the message is the validation message, and nothing
    happened. *)
Theorem generate_400_only_invalid (req : value) (w : world) (b : body) :
  (generate E V req w).1 = RJson 400 b →
  ∃ specs,
    get req Kspecs = Ret specs
    ∧ (truthy (get_opt specs Kmake) = false
       ∨ truthy (get_opt specs Kmodel) = false)
    ∧ b = BError (str "Missing required specs: make, model.")
    ∧ (generate E V req w).2 = w.
Proof.
  destruct (generate_cases req w)
    as [(e & _ & ->) | [(specs & Hs & Hf & ->)
       | [(specs & e & _ & _ & _ & _ & ->)
       | (specs & variants & _ & _ & _ & _ & ->)]]]; cbn [fst snd].
  - done.
  - intros [= <-]. by exists specs.
  - done.
  - destruct (ensureDir V _ _) as [[[] | e] w2]; [ | done].
    by destruct (synth_loop E V _ _ _ variants 0 [] w2) as [[r | e] w3].
Qed.

(** X5. With a list of variants, synthesis is requested for the
    variants in list order, each with its trimmed voiceover, without a
    gap: the speech calls are those of the first [k] variants.  After a
    failure nothing more is requested, and a 200 answer means all of
    them were. *)
Theorem synthesis_follows_variants (body specs : value) (vs : list value)
    (w : world) :
  get body Kspecs = Ret specs →
  truthy (get_opt specs Kmake) = true →
  truthy (get_opt specs Kmodel) = true →
  (text_generation E V specs w).1 = Ret (VArr vs) →
  ∃ k, k ≤ length vs
       ∧ calls (generate E V body w).2
         = calls w
           ++ ChatCall (prompt_of E specs)
              :: List.map (fun v => SpeechCall (script_of v)) (take k vs)
       ∧ (∀ id entries,
            (generate E V body w).1 = RJson 200 (BFiles id entries) →
            k = length vs).
Proof.
  intros Hs Hmk Hmd Ht.
  destruct (generate_cases body w)
    as [(e & Hs' & _) | [(specs' & Hs' & Hf & _)
       | [(specs' & e & Hs' & _ & _ & Ht' & _)
       | (specs' & variants & Hs' & _ & _ & Ht' & ->)]]];
    try congruence.
  - assert (specs' = specs) as -> by congruence.
    destruct Hf; congruence.
  - assert (specs' = specs) as -> by congruence.
    assert (variants = VArr vs) as ->.
    { rewrite Ht in Ht'. by injection Ht' as <-. }
    set (c := ChatCall (prompt_of E specs)).
    set (id := uuidv4 V (drawn w)).
    destruct (ensureDir_effect (batch_dir V id) (drew (called w c)))
      as (o & w2 & He & _ & Hc2 & _ & _).
    rewrite He. unfold drew, called in Hc2. cbn [calls] in Hc2.
    destruct o as [[] | e].
    + destruct (synth_loop_array vs id (batch_dir V id) (S (length vs))
                  0 [] w2) as (o3 & w3 & k & Hrun & Hk & Hc3 & Hret);
        [lia | lia | ].
      cbn [elements_of]. rewrite Hrun.
      rewrite Nat.sub_0_r in Hc3. change (drop 0 vs) with vs in Hc3.
      exists k. split; [lia | ].
      destruct o3 as [out | e]; cbn [fst snd].
      * split; [by rewrite Hc3, Hc2, <- app_assoc | ].
        intros _ _ _. by destruct (Hret out eq_refl).
      * split; [by rewrite Hc3, Hc2, <- app_assoc | done].
    + exists 0. cbn [fst snd]. split; [lia | ]. split; [ | done].
      by rewrite Hc2.
Qed.

(** What stands behind a 200 answer to a list of variants. *)
Lemma generate_ok_facts (body specs : value) (vs : list value)
    (w : world) (id : jsstring) (entries : list file_entry) :
  get body Kspecs = Ret specs →
  (text_generation E V specs w).1 = Ret (VArr vs) →
  (generate E V body w).1 = RJson 200 (BFiles id entries) →
  id = uuidv4 V (drawn w)
  ∧ length entries = length vs
  ∧ (∀ i, i < length vs →
          is_Some (files (generate E V body w).2
                   !! path_join [batch_dir V id; vo_name i]))
  ∧ (∀ i e v, entries !! i = Some e → vs !! i = Some v →
       url e = BASE_URL V ++ audio_route id i
       ∧ label e = str "VoiceOver " ++ dec (i + 1) ++ [32%N; 8212%N; 32%N]
                   ++ to_string E (get_opt v Kstyle)
       ∧ (get_opt v Kstyle = VUndef →
          label e = str "VoiceOver " ++ dec (i + 1) ++ [32%N; 8212%N; 32%N]
                    ++ str "undefined")).
Proof.
  intros Hs Ht.
  destruct (generate_cases body w)
    as [(e & Hs' & ->) | [(specs' & Hs' & Hf & ->)
       | [(specs' & e & Hs' & _ & _ & Ht' & ->)
       | (specs' & variants & Hs' & _ & _ & Ht' & ->)]]];
    cbn [fst snd]; try done.
  assert (specs' = specs) as -> by congruence.
  assert (variants = VArr vs) as ->.
  { rewrite Ht in Ht'. by injection Ht' as <-. }
  set (c := ChatCall (prompt_of E specs)).
  destruct (ensureDir V _ _) as [[[] | e] w2]; [ | done].
  destruct (synth_loop_array vs (uuidv4 V (drawn w))
              (batch_dir V (uuidv4 V (drawn w))) (S (length vs)) 0 [] w2)
    as (o3 & w3 & k & Hrun & Hk & Hc3 & Hret); [lia | lia | ].
  cbn [elements_of]. rewrite Hrun.
  destruct o3 as [out | e]; cbn [fst snd]; [ | done].
  intros H. assert (Hid : uuidv4 V (drawn w) = id) by congruence.
  assert (Hout : out = entries) by congruence. subst id out. clear H.
  destruct (Hret entries eq_refl) as (_ & (new & Hnew & Hlen) & Hfiles).
  simpl in Hnew. subst new. rewrite Nat.sub_0_r in Hlen.
  split; [done | ]. split; [done | ]. split.
  - intros i Hi. apply Hfiles. lia.
  - intros i e v He Hv.
    destruct (synth_loop_entries E V _ _ _ _ _ _ _ _ _ Hrun)
      as (new & Hnew & Hent).
    simpl in Hnew. subst new.
    destruct (Hent i e He) as (v' & s & Hidx & _ & -> & _).
    change (0 + i) with i in *. simpl in Hidx.
    assert (v' = v) as ->.
    { injection Hidx as <-. by apply nth_lookup_Some. }
    split; [done | ]. split; [done | ]. intros Hu. unfold entry_of.
    cbn [label]. by rewrite Hu.
Qed.

(** X6. Behind a 200 answer to a list of variants: the identifier is the
    one drawn, there is one entry per variant, every entry's audio file
    exists on disk, and entry i (from 0) carries the URL
    [BASE_URL/public/voiceovers/<id>/vo_<i+1>.mp3] and the label of
    ordinal i+1 with the variant's style, a missing style printing as
    [undefined]. *)
Theorem generate_ok_is_backed (body specs : value) (vs : list value)
    (w : world) (id : jsstring) (entries : list file_entry) :
  get body Kspecs = Ret specs →
  (text_generation E V specs w).1 = Ret (VArr vs) →
  (generate E V body w).1 = RJson 200 (BFiles id entries) →
  id = uuidv4 V (drawn w)
  ∧ length entries = length vs
  ∧ (∀ i, i < length vs →
          is_Some (files (generate E V body w).2
                   !! path_join [batch_dir V id; vo_name i]))
  ∧ (∀ i e v, entries !! i = Some e → vs !! i = Some v →
       url e = BASE_URL V ++ audio_route id i
       ∧ label e = str "VoiceOver " ++ dec (i + 1) ++ [32%N; 8212%N; 32%N]
                   ++ to_string E (get_opt v Kstyle)
       ∧ (get_opt v Kstyle = VUndef →
          label e = str "VoiceOver " ++ dec (i + 1) ++ [32%N; 8212%N; 32%N]
                    ++ str "undefined")).
Proof. apply generate_ok_facts. Qed.

(** X7. When the chat endpoint answers with a non-success status, the
    caller gets 500 whose detail is [Chat failed: <status> <body>], the
    upstream body forwarded as it came; the call is logged and nothing
    else changes. *)
Theorem chat_error_forwarded (body specs : value) (w : world) (r : reply) :
  get body Kspecs = Ret specs →
  truthy (get_opt specs Kmake) = true →
  truthy (get_opt specs Kmodel) = true →
  upstream V (length (calls w)) (ChatCall (prompt_of E specs)) = Replied r →
  ok r = false →
  generate E V body w
  = (RJson 500
       (BFailure (str "Generation failed")
          (Thrown (str "Chat failed: " ++ dec (status r) ++ str " "
                   ++ body_text r))),
     called w (ChatCall (prompt_of E specs))).
Proof.
  intros Hs Hmk Hmd Hup Hok.
  unfold generate, try_catch. mrun. rewrite Hs, Hmk, Hmd. cbn [negb orb].
  rewrite text_generation_run, Hup. unfold variants_of. by rewrite Hok.
Qed.

(** A file that was written is not a directory. *)
Lemma is_directory_dirs (p : jsstring) (w w' : world) :
  dirs w' = dirs w → is_directory p w' = is_directory p w.
Proof. unfold is_directory. by intros ->. Qed.

Lemma ttsToMp3_file (text p : jsstring) (w : world) :
  (ttsToMp3 V text p w).1 = Ret tt → is_directory p w = false.
Proof.
  unfold ttsToMp3. mrun. unfold fetch at 1.
  destruct (upstream V (length (calls w)) (SpeechCall text)) as [ | r];
    [done | ].
  destruct (ok r); cbn [negb]; [ | done].
  unfold writeFileSync.
  match goal with
  | |- context [is_directory p ?w1] =>
      change (is_directory p w1) with (is_directory p w)
  end.
  by destruct (is_directory p w).
Qed.

Lemma synth_one_file (id d : jsstring) (i : nat) (v : value) (w w' : world)
    (e : file_entry) :
  synth_one E V id d i v w = (Ret e, w') →
  is_directory (path_join [d; vo_name i]) w = false.
Proof.
  unfold synth_one. mrun.
  destruct (get v Kvoiceover) as [vo | ]; [ | done].
  destruct vo as [ | | | | s | | ]; try done. cbn [call_trim].
  destruct (ttsToMp3 V (trim s) (path_join [d; vo_name i]) w)
    as [[[] | e1] w1] eqn:Htts; [ | done].
  intros _. apply (ttsToMp3_file (trim s)). by rewrite Htts.
Qed.

Lemma synth_loop_files_plain (vs : list value) (id d : jsstring)
    (fuel : nat) :
  ∀ (i : nat) (results out : list file_entry) (w w' : world),
    synth_loop E V fuel id d (VArr vs) i results w = (Ret out, w') →
    ∀ j, i ≤ j < length vs →
         is_directory (path_join [d; vo_name j]) w = false.
Proof.
  induction fuel as [ | fuel IH]; intros i results out w w'; [done | ].
  rewrite synth_loop_step. cbn [below_length index].
  destruct (i <? length vs) eqn:Hlt.
  - destruct (synth_one_effect id d i (nth i vs VUndef) w)
      as (o & w1 & Hone & Hd & _).
    rewrite Hone. destruct o as [e | e]; [ | done].
    intros Hrun j Hj. destruct (decide (j = i)) as [-> | Hne].
    + by apply (synth_one_file id d i (nth i vs VUndef) w w1 e).
    + rewrite <- (is_directory_dirs _ w w1 Hd).
      apply (IH _ _ _ _ _ Hrun). lia.
  - apply Nat.ltb_ge in Hlt. intros _ j Hj. lia.
Qed.

(** Behind a 200 answer the audio paths are files, not directories. *)
Lemma generate_ok_plain (body specs : value) (vs : list value)
    (w : world) (id : jsstring) (entries : list file_entry) :
  get body Kspecs = Ret specs →
  (text_generation E V specs w).1 = Ret (VArr vs) →
  (generate E V body w).1 = RJson 200 (BFiles id entries) →
  ∀ i, i < length vs →
       is_directory (path_join [batch_dir V id; vo_name i])
         (generate E V body w).2 = false.
Proof.
  intros Hs Ht.
  destruct (generate_cases body w)
    as [(e & Hs' & ->) | [(specs' & Hs' & Hf & ->)
       | [(specs' & e & Hs' & _ & _ & Ht' & ->)
       | (specs' & variants & Hs' & _ & _ & Ht' & ->)]]];
    cbn [fst snd]; try done.
  assert (specs' = specs) as -> by congruence.
  assert (variants = VArr vs) as ->.
  { rewrite Ht in Ht'. by injection Ht' as <-. }
  destruct (ensureDir V _ _) as [[[] | e] w2]; [ | done].
  cbn [elements_of].
  destruct (synth_loop_frame (S (length vs)) (uuidv4 V (drawn w))
              (batch_dir V (uuidv4 V (drawn w))) (VArr vs) 0 [] w2)
    as (o3 & w3 & Hrun & Hd3 & _).
  rewrite Hrun. destruct o3 as [out | e]; cbn [fst snd]; [ | done].
  intros H i Hi. assert (Hid : uuidv4 V (drawn w) = id) by congruence.
  subst id. rewrite (is_directory_dirs _ w2 w3 Hd3).
  apply (synth_loop_files_plain vs _ _ _ _ _ _ _ _ Hrun). lia.
Qed.

End Effects.

(** * Paths of the audio files *)

Lemma basename_child (x name : jsstring) :
  name ≠ [] → SLASH ∉ name → path_basename (x ++ SLASH :: name) = name.
Proof.
  intros Hne Hs. unfold path_basename.
  rewrite split_app_slash, (split_no_slash name Hs), rev_unit.
  simpl. by rewrite (bool_decide_eq_false_2 _ Hne).
Qed.

(** Joining an absolute URL path made of proper segments. *)
Lemma path_join_route (a : jsstring) (tail : list jsstring) :
  is_absolute a = true → tail ≠ [] → Forall proper tail →
  path_join [a; SLASH :: unsplit tail] = SLASH :: unsplit (kept a ++ tail).
Proof.
  intros Habs Hne Ht.
  assert (Ha : a ≠ []) by (by destruct a).
  unfold path_join. simpl List.filter.
  rewrite (bool_decide_eq_false_2 _ Ha). cbn [negb].
  change (unsplit [a; SLASH :: unsplit tail])
    with (a ++ SLASH :: SLASH :: unsplit tail).
  assert (Hk : kept (a ++ SLASH :: SLASH :: unsplit tail) = kept a ++ tail).
  { unfold kept, norm_segs. rewrite split_app_slash.
    change (split (SLASH :: unsplit tail)) with ([] :: split (unsplit tail)).
    rewrite split_unsplit by first [done | by apply proper_no_slash].
    rewrite fold_left_app. simpl fold_left at 1.
    set (st0 := fold_left (norm_step false) (split a) []).
    change (norm_step false st0 []) with st0.
    rewrite norm_fold_proper by done.
    rewrite rev_app_distr. by rewrite rev_involutive. }
  rewrite path_normalize_abs.
  - rewrite Hk.
    change (a ++ SLASH :: SLASH :: unsplit tail)
      with (a ++ [SLASH; SLASH] ++ unsplit tail).
    rewrite app_assoc. by rewrite ends_slash_unsplit.
  - by destruct a.
  - rewrite Hk. apply unsplit_nonempty; [by destruct (kept a), tail | ].
    apply Forall_app. split; [apply kept_proper | done].
Qed.

Lemma resolve_audio_route (V : env) (id : jsstring) (i : nat) :
  is_absolute (__dirname V) = true → proper id →
  resolve V (audio_route id i) = audio_path V id i.
Proof.
  intros Habs Hid. unfold resolve.
  assert (Hr : audio_route id i
               = SLASH :: unsplit [str "public"; str "voiceovers"; id;
                                   vo_name i]).
  { unfold audio_route. generalize (vo_name i). intros name. reflexivity. }
  rewrite Hr. rewrite path_join_route; try done.
  - unfold audio_path. rewrite (batch_dir_canon V id Habs Hid).
    unfold batch_segs.
    change ((SLASH :: ?x) ++ ?y) with (SLASH :: (x ++ y)).
    rewrite <- (unsplit_snoc (kept (__dirname V)
                               ++ [str "public"; str "voiceovers"; id]))
      by (by destruct (kept (__dirname V))).
    by rewrite <- app_assoc.
  - constructor; [by apply properb_spec | ].
    constructor; [by apply properb_spec | ].
    constructor; [done | ].
    constructor; [apply (vo_name_proper i) | constructor].
Qed.

(** A URL path without [..] segments resolves inside the application
    directory. *)
Lemma resolve_within_app (V : env) (p : jsstring) :
  is_absolute (__dirname V) = true →
  kept (__dirname V) ≠ [] →
  [DOT; DOT] ∉ split p →
  within (app_root V) (resolve V p).
Proof.
  intros Habs Hroot Hp. set (a := __dirname V) in *.
  assert (Ha : a ≠ []) by (by destruct a).
  unfold resolve, app_root, path_join. fold a. simpl List.filter.
  rewrite (bool_decide_eq_false_2 _ Ha). cbn [negb].
  assert (Hnz : unsplit (kept a) ≠ []).
  { apply unsplit_nonempty; [done | apply kept_proper]. }
  destruct (bool_decide (p = [])) eqn:Hpe; cbn [negb].
  - change (unsplit [a]) with a. rewrite path_normalize_abs by done.
    destruct (ends_slash a); [right; by exists [] | by left].
  - change (unsplit [a; p]) with (a ++ SLASH :: p).
    assert (Hk : ∃ more, kept (a ++ SLASH :: p) = kept a ++ more
                         ∧ Forall proper more).
    { unfold kept, norm_segs. rewrite split_app_slash, fold_left_app.
      set (st0 := fold_left (norm_step false) (split a) []).
      destruct (norm_fold_grows (split p) st0 Hp) as [more Hm].
      assert (Hall : Forall proper (more ++ st0)).
      { rewrite <- Hm. apply norm_fold_keeps; [apply split_segments | ].
        apply norm_fold_keeps; [apply split_segments | constructor]. }
      rewrite Hm. exists (rev more). split.
      - by rewrite rev_app_distr.
      - apply Forall_rev. by apply Forall_app in Hall as [? _]. }
    destruct Hk as (more & Hk & Hmore).
    rewrite path_normalize_abs.
    + rewrite Hk. destruct more as [ | m more].
      * rewrite app_nil_r.
        destruct (ends_slash (a ++ SLASH :: p)); [right | by left].
        by exists [].
      * right. rewrite unsplit_app by done.
        destruct (ends_slash (a ++ SLASH :: p)).
        -- exists (unsplit (m :: more) ++ [SLASH]). by rewrite <- !app_assoc.
        -- by exists (unsplit (m :: more)).
    + by destruct a.
    + rewrite Hk. apply unsplit_nonempty; [by destruct (kept a) | ].
      apply Forall_app. split; [apply kept_proper | done].
Qed.

(** * More on speech synthesis, the archive and the gate *)

Section More.

Variable E : engine.
Variable V : env.

(** X8. When [ttsToMp3] returns, the upstream answered with a success
    status, the target file holds exactly the bytes of that answer,
    every other file is as before, and one speech call was logged. *)
Theorem ttsToMp3_writes_reply (text p : jsstring) (w : world) :
  (ttsToMp3 V text p w).1 = Ret tt →
  ∃ r,
    upstream V (length (calls w)) (SpeechCall text) = Replied r
    ∧ ok r = true
    ∧ files (ttsToMp3 V text p w).2 !! p = Some (body_bytes r)
    ∧ (∀ q, q ≠ p →
            files (ttsToMp3 V text p w).2 !! q = files w !! q)
    ∧ calls (ttsToMp3 V text p w).2 = calls w ++ [SpeechCall text].
Proof.
  destruct (ttsToMp3_effect V text p w) as (o & w' & -> & _ & _ & Hc & Hf).
  cbn [fst snd]. intros ->. destruct Hf as (r & Hup & Hok & Hf).
  exists r. rewrite Hf. repeat split; try done.
  - apply lookup_insert_eq.
  - intros q Hq. by apply lookup_insert_ne.
Qed.

(** X9. When [ttsToMp3] throws, the speech call was made, no directory
    and no file other than the target changed; the target itself is as
    before unless the answer was a success and the disk gave up during
    the write, which leaves the first bytes of the answer in it.  For a
    non-success status the message is [TTS failed: <status> <body>] and
    no file changed. *)
Theorem ttsToMp3_failure_effect (text p : jsstring) (w : world) (e : exn) :
  (ttsToMp3 V text p w).1 = Throw e →
  dirs (ttsToMp3 V text p w).2 = dirs w
  ∧ calls (ttsToMp3 V text p w).2 = calls w ++ [SpeechCall text]
  ∧ (∀ q, q ≠ p → files (ttsToMp3 V text p w).2 !! q = files w !! q)
  ∧ (files (ttsToMp3 V text p w).2 = files w
     ∨ ∃ r k, upstream V (length (calls w)) (SpeechCall text) = Replied r
              ∧ ok r = true ∧ disk_fault V p = Torn k
              ∧ files (ttsToMp3 V text p w).2 !! p
                = Some (take k (body_bytes r)))
  ∧ (∀ r, upstream V (length (calls w)) (SpeechCall text) = Replied r →
          ok r = false →
          e = Thrown (str "TTS failed: " ++ dec (status r) ++ str " "
                      ++ body_text r)
          ∧ files (ttsToMp3 V text p w).2 = files w).
Proof.
  intros Hthrow.
  destruct (ttsToMp3_effect V text p w) as (o & w' & Hrun & Hd & _ & Hc & Hf).
  rewrite Hrun in *. cbn [fst snd] in *. subst o.
  split; [done | ]. split; [done | ]. split; [ | split].
  - intros q Hq. destruct Hf as [-> | (r & k & _ & _ & _ & ->)]; [done | ].
    by apply lookup_insert_ne.
  - destruct Hf as [Hf | (r & k & Hup & Hok & Hk & Hf)]; [by left | ].
    right. exists r, k. rewrite Hf. by rewrite lookup_insert_eq.
  - intros r Hup Hok. split.
    + unfold ttsToMp3, fetch in Hrun. revert Hrun. mrun.
      rewrite Hup, Hok. cbn [negb]. congruence.
    + destruct Hf as [Hf | (r' & k & Hup' & Hok' & _)]; [done | ].
      congruence.
Qed.

(** ** The archive *)

Lemma add_files_world (us : list value) :
  ∀ (archive : list (jsstring * jsstring)) (w : world),
    (add_files E V us archive w).2 = w.
Proof.
  induction us as [ | u us IH]; intros archive w; simpl; mrun; [done | ].
  unfold add_file at 1.
  destruct (pathname E u) as [p | ]; [ | done].
  destruct (existsSync (path_join [__dirname V; p]) w); apply IH.
Qed.

(** X10. [POST /zip] only reads: whatever the request, the world after
    it is the world before it. *)
Theorem zip_only_reads (req : value) (w : world) :
  (zip E V req w).2 = w.
Proof.
  unfold zip, try_catch. mrun.
  destruct (get req Kfiles) as [fs | ]; [ | done].
  destruct (has_length fs); [ | done]. cbn [negb].
  destruct (iterate fs) as [us | ]; [ | done].
  pose proof (add_files_world us [] w) as Hw.
  by destruct (add_files E V us [] w) as [[a | e] w'].
Qed.

(** X11. [POST /zip] answers 400 exactly when [files] has no truthy
    length: it is missing, [null], a number, a boolean, the empty list,
    the empty string, or an object whose [length] is falsy. *)
Theorem zip_400_iff_no_length (req fs : value) (w : world) :
  get req Kfiles = Ret fs →
  (zip E V req w).1 = RJson 400 (BError (str "No files selected."))
  ↔ (fs = VUndef ∨ fs = VNull ∨ (∃ x, fs = VNum x) ∨ (∃ b, fs = VBool b)
     ∨ fs = VArr [] ∨ fs = VStr []
     ∨ ∃ o, fs = VObj o ∧ truthy (own o (str "length")) = false).
Proof.
  intros Hf. unfold zip, try_catch. mrun. rewrite Hf.
  assert (Hl : has_length fs = false
               ↔ (fs = VUndef ∨ fs = VNull ∨ (∃ x, fs = VNum x)
                  ∨ (∃ b, fs = VBool b) ∨ fs = VArr [] ∨ fs = VStr []
                  ∨ ∃ o, fs = VObj o ∧ truthy (own o (str "length")) = false)).
  { destruct fs as [ | | b | x | s | l | o]; cbn [has_length].
    - split; [by left | done].
    - split; [by right; left | done].
    - split; [intros _; right; right; right; left; by exists b | done].
    - split; [intros _; right; right; left; by exists x | done].
    - rewrite negb_false_iff, bool_decide_eq_true. split.
      + intros ->. by do 5 right; left.
      + intros [? | [? | [[? ?] | [[? ?] | [? | [? | (? & ? & _)]]]]]];
          congruence.
    - rewrite negb_false_iff, bool_decide_eq_true. split.
      + intros ->. by do 4 right; left.
      + intros [? | [? | [[? ?] | [[? ?] | [? | [? | (? & ? & _)]]]]]];
          congruence.
    - split.
      + intros H. do 6 right. by exists o.
      + intros [? | [? | [[? ?] | [[? ?] | [? | [? | (o' & Ho & H)]]]]]];
          congruence. }
  rewrite <- Hl. destruct (has_length fs); cbn [negb fst].
  - split; [ | done].
    destruct (iterate fs) as [us | ]; [ | done].
    by destruct (add_files E V us [] w) as [[a | e] w'].
  - done.
Qed.

Lemma pathname_throws (u : value) (e : exn) :
  pathname E u = Throw e → e = TypeErr.
Proof.
  unfold pathname, ToString. destruct (stringable u); [ | congruence].
  destruct (URL_pathname E (to_string E u)); congruence.
Qed.

Lemma pathname_none (u : value) :
  URL_pathname E (to_string E u) = None → pathname E u = Throw TypeErr.
Proof.
  intros H. unfold pathname, ToString. destruct (stringable u); [ | done].
  by rewrite H.
Qed.

Lemma add_files_bad (us : list value) :
  ∀ (archive : list (jsstring * jsstring)) (w : world),
    ¬ Forall (fun u => URL_pathname E (to_string E u) ≠ None) us →
    add_files E V us archive w = (Throw TypeErr, w).
Proof.
  induction us as [ | u us IH]; intros archive w Hbad.
  - exfalso. apply Hbad. constructor.
  - simpl. mrun. unfold add_file at 1.
    destruct (pathname E u) as [p | e] eqn:Hu;
      [ | by rewrite (pathname_throws u e Hu)].
    assert (Hrest : ¬ Forall (fun u => URL_pathname E (to_string E u) ≠ None)
                      us).
    { intros Hall. apply Hbad. constructor; [ | done].
      intros Hn. by rewrite (pathname_none u Hn) in Hu. }
    destruct (existsSync (path_join [__dirname V; p]) w); by apply IH.
Qed.

(** X12. One listed element that is not a URL fails the whole request:
    the answer is 500 "ZIP failed" and no archive is produced, whatever
    the other elements are. *)
Theorem zip_bad_url_fails_all (req : value) (us : list value) (u : value)
    (w : world) :
  get req Kfiles = Ret (VArr us) →
  u ∈ us →
  URL_pathname E (to_string E u) = None →
  zip E V req w = (RJson 500 (BFailure (str "ZIP failed") TypeErr), w).
Proof.
  intros Hf Hin Hu. unfold zip, try_catch. mrun. rewrite Hf.
  assert (Hne : us ≠ []) by (intros ->; by apply elem_of_nil in Hin).
  assert (Hl : has_length (VArr us) = true).
  { unfold has_length. by rewrite (bool_decide_eq_false_2 _ Hne). }
  rewrite Hl. cbn [negb iterate].
  rewrite add_files_bad; [done | ].
  intros Hall. rewrite Forall_forall in Hall. by apply (Hall u Hin).
Qed.

(** Where the queued paths come from. *)
Lemma add_files_origin (us : list value) :
  ∀ (archive out : list (jsstring * jsstring)) (w w' : world),
    add_files E V us archive w = (Ret out, w') →
    ∀ q, q ∈ out → q ∈ archive ∨
      ∃ u p, u ∈ us ∧ stringable u = true
             ∧ URL_pathname E (to_string E u) = Some p
             ∧ q.1 = resolve V p.
Proof.
  induction us as [ | u us IH]; intros archive out w w'; simpl; mrun.
  - intros [= <- <-] q Hq. by left.
  - unfold add_file at 1. unfold pathname, ToString.
    destruct (stringable u) eqn:Hst; [ | done].
    destruct (URL_pathname E (to_string E u)) as [p | ] eqn:Hu; [ | done].
    fold (resolve V p).
    assert (Hstep : ∀ a, add_files E V us a w = (Ret out, w') →
              (∀ q, q ∈ a → q ∈ archive ∨ q.1 = resolve V p) →
              ∀ q, q ∈ out → q ∈ archive ∨
                ∃ u' p', u' ∈ u :: us ∧ stringable u' = true
                         ∧ URL_pathname E (to_string E u') = Some p'
                         ∧ q.1 = resolve V p').
    { intros a Hrun Ha q Hq.
      destruct (IH _ _ _ _ Hrun q Hq) as [Hin | (u' & p' & Hu' & ?)].
      - destruct (Ha q Hin) as [? | Hq1]; [by left | ].
        right. exists u, p. split; [apply elem_of_cons; by left | done].
      - right. exists u', p'. split; [apply elem_of_cons; by right | done]. }
    destruct (existsSync (resolve V p) w).
    + intros Hrun. apply (Hstep _ Hrun). intros q Hq.
      apply elem_of_app in Hq as [Hq | Hq]; [by left | ].
      apply list_elem_of_singleton in Hq as ->. by right.
    + intros Hrun. apply (Hstep _ Hrun). intros q Hq. by left.
Qed.

(** X13. When no listed URL has a [..] segment in its path, every file
    put in the archive lies inside the application directory (though
    not necessarily inside the asset store). *)
Theorem zip_stays_in_app (req fs : value) (us : list value) (w : world)
    (archive : list (jsstring * jsstring)) :
  is_absolute (__dirname V) = true →
  kept (__dirname V) ≠ [] →
  get req Kfiles = Ret fs →
  iterate fs = Ret us →
  forallb (fun u => match URL_pathname E (to_string E u) with
                    | Some p => negb (existsb is_dotdot (split p))
                    | None => true
                    end) us = true →
  (zip E V req w).1 = RZip archive →
  ∀ src name, (src, name) ∈ archive → within (app_root V) src.
Proof.
  intros Habs Hroot Hf Hit Hall. unfold zip, try_catch. mrun.
  rewrite Hf. destruct (has_length fs); [ | done]. cbn [negb].
  rewrite Hit.
  destruct (add_files E V us [] w) as [[out | e] w1] eqn:Hadd; [ | done].
  unfold finalize. cbn [fst]. intros [= <-] src name Hin.
  rewrite stat_order_perm in Hin.
  apply list_elem_of_In, in_map_iff in Hin as ([d n] & Hd & Hin).
  assert (Hsrc : d = src) by (unfold archived in Hd; congruence).
  subst d. apply list_elem_of_In in Hin.
  destruct (add_files_origin us [] out w w1 Hadd _ Hin)
    as [Hnil | (u & p & Hu & _ & Hp & Hq)].
  - by apply elem_of_nil in Hnil.
  - cbn [fst] in Hq. subst src. apply resolve_within_app; try done.
    rewrite forallb_forall in Hall.
    apply list_elem_of_In in Hu. specialize (Hall u Hu). rewrite Hp in Hall.
    apply negb_true_iff in Hall. intros Hdd.
    apply list_elem_of_In in Hdd.
    assert (Hex : existsb is_dotdot (split p) = true).
    { apply existsb_exists. exists [DOT; DOT]. split; [done | ].
      unfold is_dotdot. by apply bool_decide_eq_true. }
    congruence.
Qed.

(** X14. The archive flattens the batches: for two listed URLs of audio
    files with the same ordinal in two batches, both on disk, the
    archive has two entries with the same name [vo_<i+1>.mp3]. *)
Theorem archive_names_drop_batch (req u1 u2 : value) (id1 id2 : jsstring)
    (i : nat) (w : world) :
  is_absolute (__dirname V) = true →
  properb id1 = true →
  properb id2 = true →
  get req Kfiles = Ret (VArr [u1; u2]) →
  pathname E u1 = Ret (audio_route id1 i) →
  pathname E u2 = Ret (audio_route id2 i) →
  existsSync (audio_path V id1 i) w = true →
  existsSync (audio_path V id2 i) w = true →
  is_directory (audio_path V id1 i) w = false →
  is_directory (audio_path V id2 i) w = false →
  sanitizePath E (vo_name i) = vo_name i →
  ∃ archive,
    zip E V req w = (RZip archive, w)
    ∧ archive ≡ₚ [(audio_path V id1 i, vo_name i);
                  (audio_path V id2 i, vo_name i)].
Proof.
  intros Habs Hid1 Hid2 Hf Hu1 Hu2 Hex1 Hex2 Hd1 Hd2 Hsan.
  apply properb_spec in Hid1, Hid2.
  assert (Hb : ∀ id, path_basename (audio_path V id i) = vo_name i).
  { intros id. unfold audio_path. apply basename_child.
    - unfold vo_name. simpl. discriminate.
    - apply vo_name_no_slash. }
  eexists. split.
  - apply (zip_run E V req [u1; u2] [audio_route id1 i; audio_route id2 i]);
      [done | done | ]. simpl. by rewrite Hu1, Hu2.
  - rewrite stat_order_perm. unfold existing. cbn [List.map List.filter].
    rewrite !resolve_audio_route by done. rewrite Hex1, Hex2.
    cbn [List.map]. unfold archived. by rewrite Hd1, Hd2, !Hb, Hsan.
Qed.

(** X15. Within a batch, two different positions never share a file
    name, a disk path or a URL. *)
Theorem ordinals_get_distinct_files (id : jsstring) (i j : nat) :
  i ≠ j →
  vo_name i ≠ vo_name j
  ∧ audio_path V id i ≠ audio_path V id j
  ∧ BASE_URL V ++ audio_route id i ≠ BASE_URL V ++ audio_route id j.
Proof.
  intros Hij. split; [ | split].
  - intros H. by apply vo_name_inj in H.
  - intros H. by apply audio_path_inj in H.
  - intros H. apply app_inv_head in H. unfold audio_route in H.
    apply app_inv_head in H. apply app_inv_head in H.
    apply app_inv_head in H. by apply vo_name_inj in H.
Qed.

(** X16. Feeding the URLs of a 200 answer back to [POST /zip], with a
    URL parser that returns the path it was given after [BASE_URL] and
    an archiver that keeps the names [vo_<i+1>.mp3]: the archive has
    exactly one entry per variant, entry i being the audio file of
    position i under the name [vo_<i+1>.mp3], in the order archiver
    completes them. *)
Theorem zip_after_generate (body specs : value) (vs : list value)
    (w : world) (id : jsstring) (entries : list file_entry) :
  let w' := (generate E V body w).2 in
  get body Kspecs = Ret specs →
  (text_generation E V specs w).1 = Ret (VArr vs) →
  (generate E V body w).1 = RJson 200 (BFiles id entries) →
  is_absolute (__dirname V) = true →
  properb id = true →
  vs ≠ [] →
  List.map (fun i => URL_pathname E (BASE_URL V ++ audio_route id i))
    (seq 0 (length vs))
  = List.map (fun i => Some (audio_route id i)) (seq 0 (length vs)) →
  List.map (fun i => sanitizePath E (vo_name i)) (seq 0 (length vs))
  = List.map vo_name (seq 0 (length vs)) →
  ∃ archive,
    zip E V
      (VObj [(str "files", VArr (List.map (fun e => VStr (url e)) entries))])
      w'
    = (RZip archive, w')
    ∧ archive ≡ₚ List.map (fun i => (audio_path V id i, vo_name i))
                   (seq 0 (length vs)).
Proof.
  intros w' Hs Ht Hg Habs Hid Hne Hurl Hsan. apply properb_spec in Hid.
  destruct (generate_ok_facts E V body specs vs w id entries Hs Ht Hg)
    as (_ & Hlen & Hfiles & Hent).
  pose proof (generate_ok_plain E V body specs vs w id entries Hs Ht Hg)
    as Hplain.
  fold w' in Hfiles, Hplain.
  assert (Hus : List.map (fun e => VStr (url e)) entries
                = List.map (fun i => VStr (BASE_URL V ++ audio_route id i))
                    (seq 0 (length vs))).
  { apply list_eq. intros i.
    change (List.map ?f ?l) with (f <$> l). rewrite !list_lookup_fmap.
    destruct (decide (i < length vs)) as [Hi | Hi].
    - destruct (lookup_lt_is_Some_2 vs i Hi) as [v Hv].
      destruct (lookup_lt_is_Some_2 entries i) as [e He]; [lia | ].
      rewrite He, lookup_seq_lt by done. simpl.
      by destruct (Hent i e v He Hv) as (-> & _).
    - rewrite (lookup_ge_None_2 entries) by lia.
      by rewrite lookup_seq_ge by lia. }
  assert (Hres : existing V w' (List.map (audio_route id) (seq 0 (length vs)))
                 = List.map (audio_path V id) (seq 0 (length vs))).
  { unfold existing. rewrite List.map_map.
    rewrite (List.map_ext _ (audio_path V id))
      by (intros i; by apply resolve_audio_route).
    apply forallb_filter_id. apply forallb_forall. intros d Hd.
    apply in_map_iff in Hd as (i & <- & Hi). apply in_seq in Hi.
    destruct (audio_plain V id i) as [He Hn].
    rewrite (existsSync_plain _ _ He Hn). apply orb_true_iff. left.
    apply bool_decide_eq_true, elem_of_dom.
    rewrite <- (audio_path_join V id Habs Hid i). apply Hfiles. lia. }
  eexists. split.
  - apply (zip_run E V _ (List.map (fun e => VStr (url e)) entries)
             (List.map (audio_route id) (seq 0 (length vs))) w').
    + reflexivity.
    + intros Hnil. apply (f_equal length) in Hnil.
      rewrite length_map in Hnil. simpl in Hnil.
      destruct vs; [done | simpl in Hlen; lia].
    + rewrite Hus, !List.map_map.
      assert (Hp : ∀ i, pathname E (VStr (BASE_URL V ++ audio_route id i))
                        = match URL_pathname E
                                  (BASE_URL V ++ audio_route id i) with
                          | Some p => Ret p
                          | None => Throw TypeErr
                          end) by done.
      rewrite (List.map_ext _ _ Hp). clear Hp.
      revert Hurl. generalize (seq 0 (length vs)). intros l.
      induction l as [ | i l IH]; [done | ]. simpl. intros [= -> Hl].
      by rewrite (IH Hl).
  - rewrite stat_order_perm, Hres, List.map_map.
    assert (Heq : List.map
                    (fun i => archived E w'
                       (audio_path V id i, path_basename (audio_path V id i)))
                    (seq 0 (length vs))
                  = List.map (fun i => (audio_path V id i, vo_name i))
                      (seq 0 (length vs))).
    { assert (Hall : ∀ i, i ∈ seq 0 (length vs) →
                sanitizePath E (vo_name i) = vo_name i).
      { revert Hsan. generalize (seq 0 (length vs)). intros l.
        induction l as [ | j l IH]; simpl; intros Hl i Hi;
          [by apply elem_of_nil in Hi | ].
        injection Hl as Hj Hl. apply elem_of_cons in Hi as [-> | Hi];
          [done | by apply IH]. }
      apply List.map_ext_in. intros i Hi. unfold archived.
      apply in_seq in Hi as Hi'.
      assert (Hpl : is_directory (audio_path V id i) w' = false).
      { rewrite <- (audio_path_join V id Habs Hid i). apply Hplain. lia. }
      rewrite Hpl.
      assert (Hb : path_basename (audio_path V id i) = vo_name i).
      { unfold audio_path. apply basename_child.
        - unfold vo_name. simpl. discriminate.
        - apply vo_name_no_slash. }
      rewrite Hb, Hall; [done | by apply list_elem_of_In]. }
    by rewrite Heq.
Qed.

(** ** The batch directory *)

Lemma canonical_ancestor (segs : list jsstring) :
  segs ≠ [] → Forall proper segs →
  SLASH :: unsplit segs ∈ ancestors (SLASH :: unsplit segs).
Proof.
  intros Hne Hp. unfold ancestors.
  change (split (SLASH :: unsplit segs)) with ([] :: split (unsplit segs)).
  rewrite split_unsplit by first [done | by apply proper_no_slash].
  change (List.filter ?f ([] :: segs)) with (List.filter f segs).
  assert (Hf : List.filter (fun a => negb (bool_decide (a = []))) segs = segs).
  { clear Hne. induction Hp as [ | g l [Hg _] _ IH]; simpl; [done | ].
    rewrite (bool_decide_eq_false_2 _ Hg). simpl. by rewrite IH. }
  rewrite Hf. apply list_elem_of_In, in_map_iff. exists (length segs). split.
  - by rewrite firstn_all.
  - apply in_seq. destruct segs; [done | simpl; lia].
Qed.

(** X18. [ensureDir] on a normalized absolute path never touches a
    file and never removes a directory; the directories it adds are on
    the way to the path (a failing [mkdir] may leave some of them
    behind); a path that exists already is left alone; when it returns
    and no file has that name, the directory exists and calling it
    again changes nothing. *)
Theorem ensureDir_creates_once (segs : list jsstring) (w : world) :
  let p := SLASH :: unsplit segs in
  let w' := (ensureDir V p w).2 in
  segs ≠ [] →
  forallb properb segs = true →
  files w' = files w ∧ dirs w ⊆ dirs w'
  ∧ (∀ d, d ∈ dirs w' → d ∈ dirs w ∨ d ∈ ancestors p)
  ∧ (existsSync p w = true → ensureDir V p w = (Ret tt, w))
  ∧ ((ensureDir V p w).1 = Ret tt → files w !! p = None →
     p ∈ dirs w' ∧ ensureDir V p w' = (Ret tt, w')).
Proof.
  intros p w' Hne Hp.
  assert (Hprop : Forall proper segs).
  { apply Forall_forall. intros g Hg. apply properb_spec.
    rewrite forallb_forall in Hp. by apply Hp, list_elem_of_In. }
  assert (Hanc : p ∈ ancestors p) by (by apply canonical_ancestor).
  destruct (canonical_plain segs Hne Hprop) as [He Hn]. fold p in He, Hn.
  assert (Hexists : ∀ w0, existsSync p w0
                          = bool_decide (p ∈ dom (files w0))
                            || bool_decide (p ∈ dirs w0)).
  { intros w0. by apply existsSync_plain. }
  subst w'. unfold ensureDir, mkdirSync.
  destruct (existsSync p w) eqn:Hex; cbn [negb].
  - cbn [fst snd]. split; [done | ]. split; [done | ].
    split; [by left | ]. split; [done | ].
    intros _ Hnone. split; [ | by rewrite Hex].
    rewrite Hexists in Hex.
    apply orb_true_iff in Hex as [Hex | Hex];
      apply bool_decide_eq_true in Hex.
    + apply elem_of_dom in Hex. rewrite Hnone in Hex. by destruct Hex.
    + done.
  - destruct (existsb _ (ancestors p)).
    { cbn [fst snd]. split; [done | ]. split; [done | ].
      split; [by left | ]. split; [done | ]. done. }
    assert (Hsub : ∀ k d,
              d ∈ dirs w ∪ list_to_set (C := gset jsstring)
                             (take k (ancestors p)) →
              d ∈ dirs w ∨ d ∈ ancestors p).
    { intros k d Hd. apply elem_of_union in Hd as [Hd | Hd]; [by left | ].
      right. apply elem_of_list_to_set in Hd.
      by apply (subseteq_take k (ancestors p)). }
    destruct (disk_fault V p) as [ | | k]; cbn [fst snd files dirs].
    + split; [done | ]. split; [apply union_subseteq_l | ].
      split; [apply Hsub | ]. split; [done | ]. intros _ _.
      assert (Hin : p ∈ dirs w ∪ list_to_set (C := gset jsstring)
                           (take (length (ancestors p)) (ancestors p))).
      { apply elem_of_union. right. apply elem_of_list_to_set.
        by rewrite firstn_all. }
      split; [exact Hin | ].
      rewrite Hexists. cbn [files dirs].
      rewrite (bool_decide_eq_true_2 _ Hin). by rewrite orb_true_r.
    + split; [done | ]. split; [done | ]. split; [by left | ]. done.
    + split; [done | ]. split; [apply union_subseteq_l | ].
      split; [apply Hsub | ]. done.
Qed.

(** ** The gate *)

Lemma generate_codes (req : value) (w : world) :
  ∃ c b, (generate E V req w).1 = RJson c b ∧ (c = 200 ∨ c = 400 ∨ c = 500).
Proof.
  destruct (generate_cases E V req w)
    as [(e & _ & ->) | [(specs & _ & _ & ->)
       | [(specs & e & _ & _ & _ & _ & ->)
       | (specs & variants & _ & _ & _ & _ & ->)]]]; cbn [fst].
  - eexists _, _. split; [reflexivity | lia].
  - eexists _, _. split; [reflexivity | lia].
  - eexists _, _. split; [reflexivity | lia].
  - destruct (ensureDir V _ _) as [[[] | e] w2];
      [ | eexists _, _; split; [reflexivity | lia]].
    destruct (synth_loop E V _ _ _ variants 0 [] w2) as [[r | e] w3];
      eexists _, _; (split; [reflexivity | lia]).
Qed.

Lemma zip_codes (req : value) (w : world) (c : nat) (b : body) :
  (zip E V req w).1 = RJson c b → c = 400 ∨ c = 500.
Proof.
  unfold zip, try_catch. mrun.
  destruct (get req Kfiles) as [fs | ]; [ | cbn [fst]; intros [= <- _]; lia].
  destruct (has_length fs); cbn [negb]; [ | cbn [fst]; intros [= <- _]; lia].
  destruct (iterate fs) as [us | ]; [ | cbn [fst]; intros [= <- _]; lia].
  destruct (add_files E V us [] w) as [[a | e] w']; cbn [fst];
    [done | intros [= <- _]; lia].
Qed.

(** X17. A 401 comes only from the gate: a secret is configured, the
    request is not the health check, its [X-APP-KEY] header is missing
    or different, and no handler ran. *)
Theorem unauthorized_only_from_gate (r : request) (w : world) (b : body) :
  (app E V r w).1 = RJson 401 b →
  APP_KEY V ≠ [] ∧ x_app_key r ≠ Some (APP_KEY V)
  ∧ target r ≠ GetHealth
  ∧ b = BError (str "Unauthorized")
  ∧ (app E V r w).2 = w.
Proof.
  destruct (req_body E r) as [rb | code] eqn:Hb;
    [ | unfold app; by rewrite Hb].
  assert (Hh : ∀ b0, (handler E V r rb w).1 = RJson 401 b0 → False).
  { intros b0. unfold handler. destruct (target r); cbn [fst]; try done.
    - destruct (generate_codes rb w) as (c & b1 & -> & Hc).
      intros [= -> _]. lia.
    - intros H. apply zip_codes in H. lia. }
  rewrite (app_parsed E V r rb w Hb).
  destruct (target r) eqn:Ht; [done | | | ];
    (destruct (bool_decide (APP_KEY V = [])) eqn:Hk;
       [intros H; by apply Hh in H | ];
     apply bool_decide_eq_false in Hk;
     destruct (bool_decide (x_app_key r = Some (APP_KEY V))) eqn:Hx;
       [intros H; by apply Hh in H | ];
     apply bool_decide_eq_false in Hx; cbn [fst snd];
     intros [= <-]; done).
Qed.

End More.

(** * Closed examples on the sample deployment *)

Import Reference Sample.

(** The model of [path], [trim] and the index digits on inputs whose
    Node results are known. *)
Example path_join_batch :
  path_join [str "/srv/app"; str "public"; str "voiceovers"; batch]
  = batch_path.
Proof. reflexivity. Qed.

Example path_join_dot_segments :
  path_join [str "/srv/app"; str "/public/../../x/./y/"] = str "/srv/x/y/".
Proof. reflexivity. Qed.

Example path_join_above_root :
  path_join [str "/srv/app"; str "../../../etc/passwd"] = str "/etc/passwd".
Proof. reflexivity. Qed.

Example path_normalize_relative :
  path_normalize (str "a/../../b") = str "../b".
Proof. reflexivity. Qed.

Example path_basename_trailing :
  path_basename (str "/a/b/vo_1.mp3//") = str "vo_1.mp3".
Proof. reflexivity. Qed.

Example trim_both_ends :
  trim ([9; 32; 160]%N ++ str "Built to haul." ++ [10; 8233]%N)
  = str "Built to haul.".
Proof. reflexivity. Qed.

Example vo_name_first : vo_name 0 = str "vo_1.mp3".
Proof. reflexivity. Qed.

Example vo_name_twelfth : vo_name 11 = str "vo_12.mp3".
Proof. reflexivity. Qed.

Example pathname_dot_segments :
  URL_pathname (str "http://localhost:3000/public/voiceovers/../../.env")
  = Some (str "/.env").
Proof. reflexivity. Qed.

Example pathname_not_a_url : URL_pathname (str "vo_1.mp3") = None.
Proof. reflexivity. Qed.

(** A complete run on the healthy deployment. *)
Example generated_by_run :
  (generate node healthy peterbilt installed).1
  = RJson 200 (BFiles batch (entries_of node healthy batch 0 three)).
Proof. vm_compute. reflexivity. Qed.

Lemma generate_missing_field_witness :
  generate node healthy
    (VObj [(str "specs", VObj [(str "make", VStr (str "Peterbilt"))])])
    installed
  = (RJson 400 (BError (str "Missing required specs: make, model.")),
     installed).
Proof.
  apply (generate_missing_field node healthy _
           (VObj [(str "make", VStr (str "Peterbilt"))]) installed).
  - reflexivity.
  - right. reflexivity.
Defined.

Lemma generate_falsy_field_witness :
  let body := VObj [(str "specs",
                     VObj [(str "make", VStr []);
                           (str "model", VStr (str "579"))])] in
  generate node healthy body installed
  = (RJson 400 (BError (str "Missing required specs: make, model.")),
     installed)
  ∧ generate node healthy body installed
    = generate node healthy (VObj [(str "specs", VObj [])]) installed.
Proof.
  apply (generate_falsy_field node healthy _
           (VObj [(str "make", VStr []); (str "model", VStr (str "579"))])
           installed).
  - reflexivity.
  - left. reflexivity.
Defined.

Lemma zip_empty_list_witness :
  zip node healthy (selection []) installed
  = (RJson 400 (BError (str "No files selected.")), installed).
Proof.
  apply (zip_empty_list node healthy (selection []) installed).
  reflexivity.
Defined.

(** C9 fails on the code: the body parser runs before the gate, so a
    request without the key whose JSON body does not parse is answered
    400, not 401. *)
Lemma gate_after_body_parser :
  ¬ (∀ (E : engine) (V : env) (r : request) (w : world),
       target r = PostGenerate ∨ target r = PostZip →
       APP_KEY V ≠ [] →
       x_app_key r ≠ Some (APP_KEY V) →
       app E V r w = (RJson 401 (BError (str "Unauthorized")), w)).
Proof.
  intros H.
  specialize (H node locked
                {| target := PostGenerate; x_app_key := None;
                   sent := Json 1 (str "{") |}
                installed (or_introl eq_refl)).
  assert (Hr : (app node locked
                  {| target := PostGenerate; x_app_key := None;
                     sent := Json 1 (str "{") |} installed).1
               = RFailed 400) by (by vm_compute).
  rewrite H in Hr; [discriminate Hr | by vm_compute | discriminate].
Qed.

Lemma app_key_gate_witness :
  let post := {| target := PostGenerate; x_app_key := None;
                 sent := Json 2 (str "{}") |} in
  let wrong := {| target := PostZip; x_app_key := Some (str "guess");
                  sent := NoJson |} in
  let health := {| target := GetHealth; x_app_key := None;
                   sent := NoJson |} in
  let huge := {| target := PostGenerate; x_app_key := Some (str "s3cret");
                 sent := Json 3000000 (str "{}") |} in
  let broken := {| target := GetHealth; x_app_key := Some (str "s3cret");
                   sent := Json 7 (str "{specs}") |} in
  app node locked post installed
  = (RJson 401 (BError (str "Unauthorized")), installed)
  ∧ app node locked wrong installed
    = (RJson 401 (BError (str "Unauthorized")), installed)
  ∧ app node locked health installed = (RJson 200 BHealth, installed)
  ∧ app node healthy post installed
    = handler node healthy post (VObj []) installed
  ∧ app node locked huge installed = (RFailed 413, installed)
  ∧ app node locked broken installed = (RFailed 400, installed).
Proof.
  intros post wrong health huge broken.
  split; [ | split; [ | split; [ | split; [ | split]]]].
  - destruct (app_key_gate node locked post installed) as (_ & _ & _ & H).
    destruct (H (VObj []) eq_refl) as (_ & H401 & _).
    apply H401; [done | done | done].
  - destruct (app_key_gate node locked wrong installed) as (_ & _ & _ & H).
    destruct (H (VObj []) eq_refl) as (_ & H401 & _).
    apply H401; [done | done | ]. vm_compute. discriminate.
  - destruct (app_key_gate node locked health installed) as (_ & _ & _ & H).
    destruct (H (VObj []) eq_refl) as (H200 & _). by apply H200.
  - destruct (app_key_gate node healthy post installed) as (_ & _ & _ & H).
    destruct (H (VObj []) eq_refl) as (_ & _ & Hpass).
    apply Hpass; [done | ]. left. reflexivity.
  - destruct (app_key_gate node locked huge installed) as (_ & H413 & _).
    apply (H413 3000000%N (str "{}")); [reflexivity | reflexivity].
  - destruct (app_key_gate node locked broken installed)
      as (_ & _ & H400 & _).
    apply (H400 7%N (str "{specs}")); [reflexivity | | discriminate | ].
    + vm_compute. discriminate.
    + reflexivity.
Defined.

(** The entries come in the order archiver completes them, here the
    reverse of the request. *)
Example archive_in_stat_order :
  (zip node healthy
     (selection [audio_url "vo_1.mp3"; audio_url "vo_9.mp3";
                 audio_url "vo_3.mp3"])
     generated).1
  = RZip [(batch_path ++ str "/vo_3.mp3", str "vo_3.mp3");
          (batch_path ++ str "/vo_1.mp3", str "vo_1.mp3")].
Proof. vm_compute. reflexivity. Qed.

(** A directory given with a trailing slash exists and is archived. *)
Example archive_directory_slash :
  (zip node healthy (selection [VStr (str "http://localhost:3000/public/")])
     installed).1
  = RZip [(str "/srv/app/public/", str "public/")].
Proof. vm_compute. reflexivity. Qed.

(** C6 fails on the code: a listed URL whose path is a directory gives
    an entry whose name is the base name followed by a slash. *)
Lemma zip_names_directory :
  ¬ (∀ (E : engine) (V : env) (body : value) (us : list value) (w : world)
       (archive : list (jsstring * jsstring)),
       get body Kfiles = Ret (VArr us) →
       us ≠ [] →
       zip E V body w = (RZip archive, w) →
       ∀ src name, (src, name) ∈ archive → name = path_basename src).
Proof.
  intros H.
  assert (Hn : str "public/" = path_basename (str "/srv/app/public")).
  { apply (H node healthy
             (selection [VStr (str "http://localhost:3000/public")])
             [VStr (str "http://localhost:3000/public")] installed
             [(str "/srv/app/public", str "public/")]
             eq_refl ltac:(discriminate));
      [ | apply list_elem_of_here].
    rewrite (zip_run node healthy _
               [VStr (str "http://localhost:3000/public")]
               [str "/public"] installed);
      [ | reflexivity | discriminate | by vm_compute].
    apply (f_equal (fun a => (RZip a, installed))). by vm_compute. }
  vm_compute in Hn. discriminate Hn.
Qed.

Lemma zip_entries_witness :
  let ps := [str "/public/voiceovers/" ++ batch ++ str "/vo_1.mp3";
             str "/public/voiceovers/" ++ batch ++ str "/vo_9.mp3";
             str "/public"] in
  ∃ archive,
    zip node healthy
      (selection [audio_url "vo_1.mp3"; audio_url "vo_9.mp3";
                  VStr (str "http://localhost:3000/public")])
      generated
    = (RZip archive, generated)
    ∧ archive
      ≡ₚ List.map (entry_for generated)
           (List.filter (fun d => existsSync d generated)
              (List.map (fun p => path_join [__dirname healthy; p]) ps))
    ∧ (∀ src name, (src, name) ∈ archive →
         name = if is_directory src generated
                then path_basename src ++ [SLASH]
                else path_basename src).
Proof.
  intros ps.
  apply (zip_entries node healthy _
           [audio_url "vo_1.mp3"; audio_url "vo_9.mp3";
            VStr (str "http://localhost:3000/public")]
           ps generated).
  - reflexivity.
  - discriminate.
  - by vm_compute.
  - by vm_compute.
Defined.

(** C2 fails on the code: a URL with traversal segments makes the
    archive include the application's [.env] file, which is outside the
    asset store root. *)
Lemma zip_escapes_asset_root :
  ¬ (∀ (E : engine) (V : env) (body : value) (w w' : world)
       (archive : list (jsstring * jsstring)),
       is_absolute (__dirname V) = true →
       zip E V body w = (RZip archive, w') →
       ∀ src name, (src, name) ∈ archive → within (asset_root V) src).
Proof.
  intros H.
  specialize (H node healthy
    (selection
       [VStr (str "http://localhost:3000/public/voiceovers/../../.env")])
    installed installed [(str "/srv/app/.env", str ".env")]).
  assert (Hw : within (asset_root healthy) (str "/srv/app/.env")).
  { apply (H eq_refl) with (name := str ".env");
      [ | apply list_elem_of_here].
    rewrite (zip_run node healthy _
               [VStr (str "http://localhost:3000/public/voiceovers/../../.env")]
               [str "/.env"] installed);
      [ | reflexivity | discriminate | by vm_compute].
    apply (f_equal (fun a => (RZip a, installed))). by vm_compute. }
  apply withinb_spec in Hw. vm_compute in Hw. discriminate Hw.
Qed.

Lemma zip_sources_witness :
  let ps := [str "/public/voiceovers/" ++ batch ++ str "/vo_2.mp3";
             str "/.env"] in
  ∃ archive,
    zip node healthy
      (selection
         [audio_url "vo_2.mp3";
          VStr (str "http://localhost:3000/public/voiceovers/../../.env")])
      generated
    = (RZip archive, generated)
    ∧ (∀ p, p ∈ ps →
         existsSync (path_join [__dirname healthy; p]) generated = true →
         ∃ name, (path_join [__dirname healthy; p], name) ∈ archive)
    ∧ (∀ src name, (src, name) ∈ archive →
         (src, name) = archived node generated (src, path_basename src)
         ∧ ∃ p, p ∈ ps ∧ src = path_join [__dirname healthy; p]
                ∧ existsSync src generated = true
                ∧ ∀ rest, p = str "/public/voiceovers/" ++ rest →
                          [DOT; DOT] ∉ split rest →
                          within (asset_root healthy) src).
Proof.
  intros ps.
  apply (zip_sources node healthy _
           [audio_url "vo_2.mp3";
            VStr (str "http://localhost:3000/public/voiceovers/../../.env")]
           ps generated).
  - reflexivity.
  - reflexivity.
  - discriminate.
  - by vm_compute.
Defined.

(** C4 fails on the code: when the message content is a JSON object
    without [variants], the step delivers no list, yet an identifier is
    drawn and the batch directory is created before the request fails. *)
Lemma chat_shapeless_leaves_batch :
  ¬ (∀ (E : engine) (V : env) (body specs : value) (w : world),
       get body Kspecs = Ret specs →
       truthy (get_opt specs Kmake) = true →
       truthy (get_opt specs Kmodel) = true →
       (∀ vs w1, text_generation E V specs w ≠ (Ret (VArr vs), w1)) →
       ∃ e w2,
         generate E V body w
         = (RJson 500 (BFailure (str "Generation failed") e), w2)
         ∧ drawn w2 = drawn w ∧ dirs w2 = dirs w ∧ files w2 = files w).
Proof.
  intros H.
  destruct (H node shapeless peterbilt truck installed eq_refl eq_refl
              eq_refl) as (e & w2 & Hg & Hd & _).
  - intros vs w1 Heq. apply (f_equal fst) in Heq. vm_compute in Heq.
    discriminate Heq.
  - apply (f_equal (fun r => drawn r.2)) in Hg. cbn [snd] in Hg.
    rewrite <- Hg in Hd. vm_compute in Hd. discriminate Hd.
Qed.

(** A content whose [variants] is not a list at all can even be answered
    200 with no entries. *)
Example variants_number_answered :
  (generate node
     (deployment "" (answer (VObj [(str "variants", VNum (num_of_Z 3))])) 100)
     peterbilt installed).1
  = RJson 200 (BFiles batch []).
Proof. vm_compute. reflexivity. Qed.

(** A style that is an object with an own [toString] property cannot
    be printed in the label: the request fails after the first audio
    file has been written. *)
Example unprintable_style_fails :
  let odd := VObj [(str "style", VObj [(str "toString", VNum (num_of_Z 1))]);
                   (str "voiceover", VStr (str "Built to haul."))] in
  let V := deployment "" (answer (VObj [(str "variants", VArr [odd])])) 100 in
  (generate node V peterbilt installed).1
  = RJson 500 (BFailure (str "Generation failed") TypeErr)
  ∧ files (generate node V peterbilt installed).2
    !! (batch_path ++ str "/vo_1.mp3") = Some mp3.
Proof. vm_compute. done. Qed.

Lemma chat_failure_no_batch_witness :
  generate node down peterbilt installed
  = (RJson 500
       (BFailure (str "Generation failed")
          (Thrown (str "Chat failed: 503 overloaded"))),
     chatted down)
  ∧ drawn (chatted down) = drawn installed
  ∧ dirs (chatted down) = dirs installed
  ∧ files (chatted down) = files installed
  ∧ calls (chatted down)
    = calls installed ++ [ChatCall (prompt_of node truck)].
Proof.
  apply (chat_failure_no_batch node down peterbilt truck installed
           (Thrown (str "Chat failed: 503 overloaded")));
    [reflexivity | reflexivity | reflexivity | by vm_compute].
Defined.

Lemma generate_one_entry_per_variant_witness :
  ∃ entries w2,
    generate node healthy peterbilt installed
    = (RJson 200 (BFiles batch entries), w2)
    ∧ length entries = 3
    ∧ size (dir_files (batch_dir healthy batch) w2) = 3.
Proof.
  destruct (generate_one_entry_per_variant node healthy peterbilt truck
              three installed)
    as (entries & w2 & Hg & Hl & _ & Hs);
    [reflexivity | reflexivity | reflexivity | by vm_compute | reflexivity
    | by vm_compute | by vm_compute | by vm_compute | by vm_compute
    | by vm_compute | ].
  exists entries, w2. split; [exact Hg | ]. split; [exact Hl | exact Hs].
Defined.

Lemma synthesis_failure_keeps_files_witness :
  ∃ e w2,
    generate node throttled peterbilt installed
    = (RJson 500 (BFailure (str "Generation failed") e), w2)
    ∧ is_Some (files w2 !! (batch_dir throttled batch ++ str "/vo_1.mp3"))
    ∧ size (dir_files (batch_dir throttled batch) w2) = 1.
Proof.
  destruct (synthesis_failure_keeps_files node throttled peterbilt truck
              (take 1 three) (nth 1 three VUndef) (drop 2 three) installed)
    as (e & w2 & Hg & Hf & _ & Hs);
    [reflexivity | reflexivity | reflexivity | by vm_compute | reflexivity
    | by vm_compute | by vm_compute | by vm_compute | by vm_compute
    | by vm_compute | by vm_compute | ].
  exists e, w2. split; [exact Hg | ]. split; [ | by apply Hs].
  destruct (Hf 0 (nth 0 three VUndef) eq_refl) as (script & bytes & _ & Hb).
  exists bytes. exact Hb.
Defined.

(** The same request on a disk that gives up during the second write:
    the first file is whole and the second holds two bytes. *)
Example torn_write_leaves_prefix :
  let w2 := (generate node worn peterbilt installed).2 in
  (generate node worn peterbilt installed).1
  = RJson 500 (BFailure (str "Generation failed") FsErr)
  ∧ files w2 !! (batch_path ++ str "/vo_1.mp3") = Some mp3
  ∧ files w2 !! (batch_path ++ str "/vo_2.mp3") = Some (take 2 mp3)
  ∧ files w2 !! (batch_path ++ str "/vo_3.mp3") = None.
Proof. vm_compute. done. Qed.

Lemma entry_fields_witness :
  ∃ e v s,
    entries_of node healthy batch 0 three !! 0 = Some e
    ∧ index (VArr three) 0 = Ret v
    ∧ get v Kvoiceover = Ret (VStr s)
    ∧ script e = trim s
    ∧ count (hashtags e) ≤ 6.
Proof.
  destruct (entry_fields node healthy peterbilt truck (VArr three) installed
              batch (entries_of node healthy batch 0 three)
              eq_refl ltac:(by vm_compute) ltac:(by vm_compute)
              0 (entry_of node healthy batch 0 (nth 0 three VUndef)) eq_refl)
    as (v & s & Hidx & Hvo & Hscript & _ & _ & _ & Hcount & _).
  exists (entry_of node healthy batch 0 (nth 0 three VUndef)), v, s.
  split; [reflexivity | ]. split; [exact Hidx | ]. split; [exact Hvo | ].
  split; [exact Hscript | exact Hcount].
Defined.

(** * The further properties on the sample deployment *)

Lemma generate_touches_only_batch_dir_witness :
  files (generate node healthy peterbilt installed).2 !! str "/srv/app/.env"
  = files installed !! str "/srv/app/.env".
Proof.
  apply (generate_touches_only_batch_dir node healthy peterbilt installed
           (str "/srv/app/.env")); by vm_compute.
Defined.

Lemma generate_400_only_invalid_witness :
  let req := VObj [(str "specs", VObj [(str "make", VStr (str "Peterbilt"))])]
  in
  ∃ specs,
    get req Kspecs = Ret specs
    ∧ (truthy (get_opt specs Kmake) = false
       ∨ truthy (get_opt specs Kmodel) = false)
    ∧ BError (str "Missing required specs: make, model.")
      = BError (str "Missing required specs: make, model.")
    ∧ (generate node healthy req installed).2 = installed.
Proof.
  intros req.
  apply (generate_400_only_invalid node healthy req installed
           (BError (str "Missing required specs: make, model."))).
  reflexivity.
Defined.

Lemma synthesis_follows_variants_witness :
  ∃ k, k ≤ length three
       ∧ calls (generate node healthy peterbilt installed).2
         = calls installed
           ++ ChatCall (prompt_of node truck)
              :: List.map (fun v => SpeechCall (script_of v)) (take k three)
       ∧ (∀ id entries,
            (generate node healthy peterbilt installed).1
            = RJson 200 (BFiles id entries) →
            k = length three).
Proof.
  apply (synthesis_follows_variants node healthy peterbilt truck three
           installed);
    [reflexivity | reflexivity | reflexivity | by vm_compute].
Defined.

Lemma generate_ok_is_backed_witness :
  let entries := entries_of node healthy batch 0 three in
  batch = uuidv4 healthy (drawn installed)
  ∧ length entries = length three
  ∧ (∀ i, i < length three →
          is_Some (files (generate node healthy peterbilt installed).2
                   !! path_join [batch_dir healthy batch; vo_name i]))
  ∧ (∀ i e v, entries !! i = Some e → three !! i = Some v →
       url e = BASE_URL healthy ++ audio_route batch i
       ∧ label e = str "VoiceOver " ++ dec (i + 1) ++ [32%N; 8212%N; 32%N]
                   ++ to_string node (get_opt v Kstyle)
       ∧ (get_opt v Kstyle = VUndef →
          label e = str "VoiceOver " ++ dec (i + 1) ++ [32%N; 8212%N; 32%N]
                    ++ str "undefined")).
Proof.
  intros entries.
  apply (generate_ok_is_backed node healthy peterbilt truck three installed
           batch entries);
    [reflexivity | by vm_compute | by vm_compute].
Defined.

Lemma chat_error_forwarded_witness :
  generate node down peterbilt installed
  = (RJson 500
       (BFailure (str "Generation failed")
          (Thrown (str "Chat failed: " ++ dec 503 ++ str " "
                   ++ str "overloaded"))),
     called installed (ChatCall (prompt_of node truck))).
Proof.
  apply (chat_error_forwarded node down peterbilt truck installed
           {| status := 503; body_text := str "overloaded";
              body_bytes := [] |});
    reflexivity.
Defined.

Lemma ttsToMp3_writes_reply_witness :
  let p := str "/srv/app/public/vo.mp3" in
  let w' := (ttsToMp3 healthy (str "Built to haul.") p installed).2 in
  ∃ r,
    upstream healthy (length (calls installed))
      (SpeechCall (str "Built to haul.")) = Replied r
    ∧ ok r = true
    ∧ files w' !! p = Some (body_bytes r)
    ∧ (∀ q, q ≠ p → files w' !! q = files installed !! q)
    ∧ calls w' = calls installed ++ [SpeechCall (str "Built to haul.")].
Proof.
  intros p w'.
  apply (ttsToMp3_writes_reply healthy (str "Built to haul.") p installed).
  by vm_compute.
Defined.

Lemma ttsToMp3_failure_effect_witness :
  let p := batch_path ++ str "/vo_2.mp3" in
  let text := str "Built to haul." in
  let w' := (ttsToMp3 worn text p generated).2 in
  dirs w' = dirs generated
  ∧ calls w' = calls generated ++ [SpeechCall text]
  ∧ (∀ q, q ≠ p → files w' !! q = files generated !! q)
  ∧ (files w' = files generated
     ∨ ∃ r k, upstream worn (length (calls generated)) (SpeechCall text)
              = Replied r
              ∧ ok r = true ∧ disk_fault worn p = Torn k
              ∧ files w' !! p = Some (take k (body_bytes r)))
  ∧ (∀ r, upstream worn (length (calls generated)) (SpeechCall text)
          = Replied r →
          ok r = false →
          FsErr = Thrown (str "TTS failed: " ++ dec (status r) ++ str " "
                          ++ body_text r)
          ∧ files w' = files generated).
Proof.
  intros p text w'.
  apply (ttsToMp3_failure_effect worn text p generated FsErr).
  by vm_compute.
Defined.

Lemma zip_400_iff_no_length_witness :
  let req := VObj [(str "files", VStr [])] in
  (zip node healthy req installed).1
  = RJson 400 (BError (str "No files selected."))
  ↔ (VStr [] = VUndef ∨ VStr [] = VNull ∨ (∃ x, VStr [] = VNum x)
     ∨ (∃ b, VStr [] = VBool b)
     ∨ VStr [] = VArr [] ∨ VStr [] = VStr []
     ∨ ∃ o, VStr [] = VObj o ∧ truthy (own o (str "length")) = false).
Proof.
  intros req.
  apply (zip_400_iff_no_length node healthy req (VStr []) installed).
  reflexivity.
Defined.

Lemma zip_bad_url_fails_all_witness :
  zip node healthy
    (selection [audio_url "vo_1.mp3"; VStr (str "vo_2.mp3")]) generated
  = (RJson 500 (BFailure (str "ZIP failed") TypeErr), generated).
Proof.
  apply (zip_bad_url_fails_all node healthy _
           [audio_url "vo_1.mp3"; VStr (str "vo_2.mp3")]
           (VStr (str "vo_2.mp3")) generated).
  - reflexivity.
  - apply list_elem_of_further, list_elem_of_here.
  - reflexivity.
Defined.

Lemma zip_stays_in_app_witness :
  within (app_root healthy) (str "/srv/app/server.js").
Proof.
  apply (zip_stays_in_app node healthy
           (selection [audio_url "vo_1.mp3";
                       VStr (str "http://localhost:3000/server.js")])
           (VArr [audio_url "vo_1.mp3";
                  VStr (str "http://localhost:3000/server.js")])
           [audio_url "vo_1.mp3";
            VStr (str "http://localhost:3000/server.js")]
           generated
           [(str "/srv/app/server.js", str "server.js");
            (batch_path ++ str "/vo_1.mp3", str "vo_1.mp3")])
    with (name := str "server.js").
  - reflexivity.
  - by vm_compute.
  - reflexivity.
  - reflexivity.
  - by vm_compute.
  - by vm_compute.
  - apply list_elem_of_here.
Defined.

Lemma archive_names_drop_batch_witness :
  ∃ archive,
    zip node healthy
      (selection
         [audio_url "vo_1.mp3";
          VStr (str "http://localhost:3000/public/voiceovers/" ++ other
                ++ str "/vo_1.mp3")])
      shelf
    = (RZip archive, shelf)
    ∧ archive ≡ₚ [(audio_path healthy batch 0, vo_name 0);
                  (audio_path healthy other 0, vo_name 0)].
Proof.
  apply (archive_names_drop_batch node healthy _
           (audio_url "vo_1.mp3")
           (VStr (str "http://localhost:3000/public/voiceovers/" ++ other
                  ++ str "/vo_1.mp3"))
           batch other 0 shelf).
  - reflexivity.
  - by vm_compute.
  - by vm_compute.
  - reflexivity.
  - by vm_compute.
  - by vm_compute.
  - by vm_compute.
  - by vm_compute.
  - by vm_compute.
  - by vm_compute.
  - reflexivity.
Defined.

Lemma ordinals_get_distinct_files_witness :
  vo_name 0 ≠ vo_name 1
  ∧ audio_path healthy batch 0 ≠ audio_path healthy batch 1
  ∧ BASE_URL healthy ++ audio_route batch 0
    ≠ BASE_URL healthy ++ audio_route batch 1.
Proof.
  apply (ordinals_get_distinct_files healthy batch 0 1). discriminate.
Defined.

Lemma zip_after_generate_witness :
  let entries := entries_of node healthy batch 0 three in
  ∃ archive,
    zip node healthy
      (VObj [(str "files", VArr (List.map (fun e => VStr (url e)) entries))])
      generated
    = (RZip archive, generated)
    ∧ archive ≡ₚ List.map (fun i => (audio_path healthy batch i, vo_name i))
                   (seq 0 (length three)).
Proof.
  intros entries.
  apply (zip_after_generate node healthy peterbilt truck three installed
           batch entries).
  - reflexivity.
  - by vm_compute.
  - by vm_compute.
  - reflexivity.
  - by vm_compute.
  - discriminate.
  - by vm_compute.
  - reflexivity.
Defined.

Lemma ensureDir_creates_once_witness :
  let w' := (ensureDir healthy batch_path installed).2 in
  files w' = files installed ∧ dirs installed ⊆ dirs w'
  ∧ (∀ d, d ∈ dirs w' → d ∈ dirs installed ∨ d ∈ ancestors batch_path)
  ∧ (existsSync batch_path installed = true →
     ensureDir healthy batch_path installed = (Ret tt, installed))
  ∧ ((ensureDir healthy batch_path installed).1 = Ret tt →
     files installed !! batch_path = None →
     batch_path ∈ dirs w' ∧ ensureDir healthy batch_path w' = (Ret tt, w')).
Proof.
  apply (ensureDir_creates_once healthy
           [str "srv"; str "app"; str "public"; str "voiceovers"; batch]
           installed).
  - discriminate.
  - by vm_compute.
Defined.

Lemma unauthorized_only_from_gate_witness :
  let r := carrying PostZip (Some (str "guess"))
             (selection [audio_url "vo_1.mp3"]) in
  APP_KEY locked ≠ [] ∧ x_app_key r ≠ Some (APP_KEY locked)
  ∧ target r ≠ GetHealth
  ∧ BError (str "Unauthorized") = BError (str "Unauthorized")
  ∧ (app node locked r installed).2 = installed.
Proof.
  intros r.
  apply (unauthorized_only_from_gate node locked r installed
           (BError (str "Unauthorized"))).
  by vm_compute.
Defined.
